(** * A shallow embedding of the multilayer-perceptron engine
      (package neuralNetwork: Layer, MLPRegressor, MLPClassifier), of the
      helpers of the linear model (package linear_model) and of the ROC
      curve (package metrics).

    Scalars are IEEE-754 binary64 numbers, as Go's [float64]: Rocq's
    primitive floats.  Go run-time panics are the [Panic] result.  Where a
    property speaks of the numbers the floats stand for (a norm up to
    rounding), these are Rocq's real numbers. *)

From Stdlib Require Import ZArith List String Floats Uint63 Bool Lia Permutation.
From Stdlib Require Import Reals Lra.
Import ListNotations.

(** ** Results of fallible code *)

Inductive result (A : Type) : Type :=
| Ok (a : A)
| Panic        (* a Go run-time panic *)
| OutOfFuel.   (* a loop of the model ran out of fuel *)
Arguments Ok {A} a.
Arguments Panic {A}.
Arguments OutOfFuel {A}.

Definition bind {A B : Type} (m : result A) (k : A -> result B) : result B :=
  match m with
  | Ok a => k a
  | Panic => Panic
  | OutOfFuel => OutOfFuel
  end.

Notation "x <- m ;; k" := (bind m (fun x => k))
  (at level 61, m at next level, right associativity).
Notation "' p <- m ;; k" := (bind m (fun p => k))
  (at level 61, p pattern, m at next level, right associativity).

(** ** Lists used as flat row-major storage *)

Fixpoint set_nth {A : Type} (n : nat) (x : A) (l : list A) : list A :=
  match l, n with
  | [], _ => []
  | _ :: t, O => x :: t
  | h :: t, S n' => h :: set_nth n' x t
  end.

(** The [r*c] values [f i j], row after row. *)
Definition tab (r c : nat) (f : nat -> nat -> float) : list float :=
  flat_map (fun i => map (f i) (seq 0 c)) (seq 0 r).

(** ** gonum's [mat] package, as far as the engine uses it *)

Module mat.

(** [*mat.Dense].  [data] is the whole backing array (its length is the
    capacity of the Go slice); entry (i,j) lives at [i*cols + j], the
    logical view being the first [rows*cols] cells. *)
Record Dense := mkDense { rows : nat; cols : nat; data : list float }.

(** The read-only [mat.Matrix] interface: [Dims] and [At]. *)
Record Matrix := mkMatrix { Dims : nat * nat; At : nat -> nat -> float }.

Definition DenseAt (d : Dense) (i j : nat) : float :=
  nth (i * cols d + j) (data d) 0%float.

(** A [*Dense] passed where a [Matrix] is expected. *)
Definition M (d : Dense) : Matrix := mkMatrix (rows d, cols d) (DenseAt d).

Definition T (a : Matrix) : Matrix :=
  mkMatrix (snd (Dims a), fst (Dims a)) (fun i j => At a j i).

(** [mat.NewDense(r, c, nil)]: a fresh zero matrix. *)
Definition NewDenseNil (r c : nat) : Dense := mkDense r c (repeat 0%float (r * c)).

(** [mat.NewDense(r, c, data)] panics unless [len(data) = r*c]. *)
Definition NewDense (r c : nat) (d : list float) : result Dense :=
  if List.length d =? r * c then Ok (mkDense r c d) else Panic.

(** Overwrite the logical view with [f], keeping the spare capacity. *)
Definition fill (m : Dense) (f : nat -> nat -> float) : Dense :=
  mkDense (rows m) (cols m)
          (tab (rows m) (cols m) f ++ skipn (rows m * cols m) (data m)).

(** gonum's [reuseAs]: an empty receiver (stride 0) takes the shape of
    the result, any other receiver must already have it. *)
Definition reuseAs (m : Dense) (r c : nat) : result Dense :=
  if cols m =? 0 then
    Ok (mkDense r c (if List.length (data m) <? r * c then repeat 0%float (r * c) else data m))
  else if (rows m =? r) && (cols m =? c) then Ok m
  else Panic.

Definition same_dims (a b : Matrix) : bool :=
  (fst (Dims a) =? fst (Dims b)) && (snd (Dims a) =? snd (Dims b)).

Definition elementwise (op : float -> float -> float) (m : Dense) (a b : Matrix)
  : result Dense :=
  if same_dims a b then
    m' <- reuseAs m (fst (Dims a)) (snd (Dims a)) ;;
    Ok (fill m' (fun i j => op (At a i j) (At b i j)))
  else Panic.

Definition Sub := elementwise PrimFloat.sub.
Definition Add := elementwise PrimFloat.add.
Definition MulElem := elementwise PrimFloat.mul.

Definition dot (a b : Matrix) (i j : nat) : float :=
  fold_left (fun acc k => (acc + At a i k * At b k j)%float)
            (seq 0 (snd (Dims a))) 0%float.

Definition Mul (m : Dense) (a b : Matrix) : result Dense :=
  if snd (Dims a) =? fst (Dims b) then
    m' <- reuseAs m (fst (Dims a)) (snd (Dims b)) ;;
    Ok (fill m' (dot a b))
  else Panic.

Definition Scale (m : Dense) (f : float) (a : Matrix) : result Dense :=
  m' <- reuseAs m (fst (Dims a)) (snd (Dims a)) ;;
  Ok (fill m' (fun i j => (f * At a i j)%float)).

Definition Apply (m : Dense) (fn : nat -> nat -> float -> float) (a : Matrix)
  : result Dense :=
  m' <- reuseAs m (fst (Dims a)) (snd (Dims a)) ;;
  Ok (fill m' (fun i j => fn i j (At a i j))).

(** [m.Copy(a)] copies the common top-left block and never panics. *)
Definition Copy (m : Dense) (a : Matrix) : Dense :=
  let r := Nat.min (rows m) (fst (Dims a)) in
  let c := Nat.min (cols m) (snd (Dims a)) in
  fill m (fun i j => if (i <? r) && (j <? c) then At a i j else DenseAt m i j).

Definition Set_ (m : Dense) (i j : nat) (v : float) : result Dense :=
  if (i <? rows m) && (j <? cols m)
  then Ok (mkDense (rows m) (cols m) (set_nth (i * cols m + j) v (data m)))
  else Panic.

(** [m.Slice(i, k, j, l)]: rows i..k-1, columns j..l-1.  The engine only
    reads its slices, so the view is modelled by its contents. *)
Definition Slice (m : Dense) (i k j l : nat) : result Dense :=
  if (i <? rows m) && (j <? cols m) && (i <? k) && (k <=? rows m)
     && (j <? l) && (l <=? cols m)
  then Ok (mkDense (k - i) (l - j) (tab (k - i) (l - j) (fun a b => DenseAt m (i + a) (j + b))))
  else Panic.

Definition Sum (a : Matrix) : float :=
  fold_left PrimFloat.add (tab (fst (Dims a)) (snd (Dims a)) (At a)) 0%float.

End mat.
Import mat.

(** ** Matrix views of packages [base] and [neuralNetwork] *)

(** Modelled from the spec: [onesAddedMat] (not among the sources), the
    zero-copy view that prepends a constant-1 column to its matrix. *)
Definition onesAddedMat (a : Matrix) : Matrix :=
  mkMatrix (fst (Dims a), 1 + snd (Dims a))
           (fun i j => match j with O => 1%float | S j' => At a i j' end).

(** Modelled from the spec: [MatFirstColumnRemoved] (not among the
    sources), the view that drops column 0 (the bias column of a
    transposed weight matrix). *)
Definition MatFirstColumnRemoved (a : Matrix) : Matrix :=
  mkMatrix (fst (Dims a), snd (Dims a) - 1) (fun i j => At a i (S j)).

(** Modelled from the spec: [base.MatFirstRowZeroed] (not among the
    sources), the weights with the bias row read as zero. *)
Definition MatFirstRowZeroed (a : Matrix) : Matrix :=
  mkMatrix (Dims a) (fun i j => match i with O => 0%float | S _ => At a i j end).

(** Modelled from the spec: [matApply], [matScale], [matMulElem] (not among
    the sources): a function mapped over, a scalar times, and the
    entrywise product of matrix views. *)
Definition matApply (a : Matrix) (f : float -> float) : Matrix :=
  mkMatrix (Dims a) (fun i j => f (At a i j)).
Definition matScale (a : Matrix) (s : float) : Matrix :=
  mkMatrix (Dims a) (fun i j => (s * At a i j)%float).
Definition matMulElem (a b : Matrix) : Matrix :=
  mkMatrix (Dims a) (fun i j => (At a i j * At b i j)%float).

(** Modelled from the spec: [base.MatParallelMul] (not among the sources),
    the matrix product written into its first argument. *)
Definition MatParallelMul (c : Dense) (a b : Matrix) : result Dense := Mul c a b.

(** Modelled from the spec: [base.MatDimsCheck] for an entrywise operator
    (not among the sources): fails loudly unless the three shapes agree. *)
Definition MatDimsCheck (r a b : Matrix) : result unit :=
  if same_dims r a && same_dims a b then Ok tt else Panic.

(** ** Collaborators consumed through interfaces *)

(** [base.Optimizer]: an interface value owning its running state. *)
Record Optimizer := mkOptimizer {
  OptState : Type;
  optState : OptState;
  optStep  : OptState -> Dense -> Dense -> result (OptState * Dense) }.
Arguments mkOptimizer {OptState} optState optStep.

(** [o.GetUpdate(update, grad)]: the new contents of [update]; the
    optimizer's own state moves on. *)
Definition GetUpdate (o : Optimizer) (update grad : Dense) : result (Optimizer * Dense) :=
  '(s, u) <- optStep o (optState o) update grad ;;
  Ok (mkOptimizer s (optStep o), u).

Definition OptimCreator := unit -> Optimizer.

(** Modelled from the spec: an activation strategy (not among the sources)
    is an elementwise function with its derivative in terms of the
    pre-activation and the activation. *)
Record ActivationFunctions := mkActivation {
  actF : float -> float;
  actG : float -> float -> float }.

(** A loss strategy: the loss value, and the loss gradient written into the
    caller's buffer. *)
Record LossFunctions := mkLoss {
  Loss : Matrix -> Matrix -> Dense -> result (float * Dense) }.

Class Collaborators := {
  Rand : Type;                                   (* state of math/rand *)
  NormFloat64 : Rand -> float * Rand;            (* rand.NormFloat64 *)
  MatShuffle : Rand -> Dense -> Dense -> result (Dense * Dense * Rand);
  Solvers : string -> option OptimCreator;       (* base.Solvers *)
  NewActivation : string -> ActivationFunctions;
  squareLossValue : Matrix -> Matrix -> float;
  otherLoss : string -> LossFunctions;
  Norm2 : Matrix -> float;                       (* mat.Norm(., 2) *)
  R2Score : Dense -> Dense -> float;             (* metrics.R2Score(..).At(0,0) *)
  AccuracyScore : Dense -> Dense -> float }.

(** Modelled from the spec: [NewLoss] (not among the sources).  The square
    loss writes [Ypred - Ytrue] into the gradient buffer; the other losses
    and the square loss value are left to the collaborator. *)
Definition NewLoss `{Collaborators} (name : string) : LossFunctions :=
  if String.eqb name "square" then
    mkLoss (fun Ytrue Ypred G =>
              G' <- Sub G Ypred Ytrue ;; Ok (squareLossValue Ytrue Ypred, G'))
  else otherLoss name.

(** ** Layer *)

Module Layer.
Local Abbreviation optimizer := Optimizer (only parsing).
(** The scratch matrices are [None] while the Go pointers are nil.  Each
    scratch [Dense] stands for the pair (slices.F, L.F): its [data] is the
    backing array [slices.F] at full capacity.  [Ypred] is a view onto
    [NextX1] and [X1] an alias of the previous layer's [NextX1]; both are
    derived below. *)
Record t := mk {
  Activation : string;
  Ytrue : option Dense;
  Z : option Dense;
  NextX1 : option Dense;
  Ydiff : option Dense;
  Hgrad : option Dense;
  Theta : Dense;
  Grad : Dense;
  Update : Dense;
  Optimizer : Optimizer }.

Definition set_Ytrue (d : Dense) (L : t) : t :=
  mk (Activation L) (Some d) (Z L) (NextX1 L) (Ydiff L) (Hgrad L) (Theta L) (Grad L)
     (Update L) (Optimizer L).
Definition set_Z (d : Dense) (L : t) : t :=
  mk (Activation L) (Ytrue L) (Some d) (NextX1 L) (Ydiff L) (Hgrad L) (Theta L) (Grad L)
     (Update L) (Optimizer L).
Definition set_NextX1 (d : Dense) (L : t) : t :=
  mk (Activation L) (Ytrue L) (Z L) (Some d) (Ydiff L) (Hgrad L) (Theta L) (Grad L)
     (Update L) (Optimizer L).
Definition set_Ydiff (d : Dense) (L : t) : t :=
  mk (Activation L) (Ytrue L) (Z L) (NextX1 L) (Some d) (Hgrad L) (Theta L) (Grad L)
     (Update L) (Optimizer L).
Definition set_Hgrad (d : Dense) (L : t) : t :=
  mk (Activation L) (Ytrue L) (Z L) (NextX1 L) (Ydiff L) (Some d) (Theta L) (Grad L)
     (Update L) (Optimizer L).
Definition set_Theta (d : Dense) (L : t) : t :=
  mk (Activation L) (Ytrue L) (Z L) (NextX1 L) (Ydiff L) (Hgrad L) d (Grad L)
     (Update L) (Optimizer L).
Definition set_Grad (d : Dense) (L : t) : t :=
  mk (Activation L) (Ytrue L) (Z L) (NextX1 L) (Ydiff L) (Hgrad L) (Theta L) d
     (Update L) (Optimizer L).
Definition set_Update (d : Dense) (o : optimizer) (L : t) : t :=
  mk (Activation L) (Ytrue L) (Z L) (NextX1 L) (Ydiff L) (Hgrad L) (Theta L) (Grad L)
     d o.

Definition Ypred (L : t) : option Matrix :=
  option_map (fun d => MatFirstColumnRemoved (M d)) (NextX1 L).

Definition X1 (prevLayer : option t) : option Dense :=
  match prevLayer with Some p => NextX1 p | None => None end.
End Layer.

(** ** MLPRegressor *)

Module MLPRegressor.
(** The three arenas [thetaSlice], [gradSlice], [updateSlice] alias the
    layers' [Theta], [Grad] and [Update] and are never read on their own;
    they are the concatenation of the layers' data (see [thetaSlice]). *)
Record t := mk {
  Shuffle : bool;
  Optimizer : option OptimCreator;
  LossName : string;
  Activation : string;
  HiddenLayerSizes : list nat;
  Layers : list Layer.t;
  Alpha : float;
  L1Ratio : float;
  GradientClipping : float;
  Epochs : Z;
  MiniBatchSize : Z;
  Loss : string;
  JFirst : float;
  J : float }.

Definition set_Layers (ls : list Layer.t) (r : t) : t :=
  mk (Shuffle r) (Optimizer r) (LossName r) (Activation r) (HiddenLayerSizes r) ls
     (Alpha r) (L1Ratio r) (GradientClipping r) (Epochs r) (MiniBatchSize r) (Loss r)
     (JFirst r) (J r).
Definition set_Epochs (e : Z) (r : t) : t :=
  mk (Shuffle r) (Optimizer r) (LossName r) (Activation r) (HiddenLayerSizes r) (Layers r)
     (Alpha r) (L1Ratio r) (GradientClipping r) e (MiniBatchSize r) (Loss r)
     (JFirst r) (J r).
Definition set_Loss (l : string) (r : t) : t :=
  mk (Shuffle r) (Optimizer r) (LossName r) (Activation r) (HiddenLayerSizes r) (Layers r)
     (Alpha r) (L1Ratio r) (GradientClipping r) (Epochs r) (MiniBatchSize r) l
     (JFirst r) (J r).
Definition set_JFirst (x : float) (r : t) : t :=
  mk (Shuffle r) (Optimizer r) (LossName r) (Activation r) (HiddenLayerSizes r) (Layers r)
     (Alpha r) (L1Ratio r) (GradientClipping r) (Epochs r) (MiniBatchSize r) (Loss r)
     x (J r).
Definition set_J (x : float) (r : t) : t :=
  mk (Shuffle r) (Optimizer r) (LossName r) (Activation r) (HiddenLayerSizes r) (Layers r)
     (Alpha r) (L1Ratio r) (GradientClipping r) (Epochs r) (MiniBatchSize r) (Loss r)
     (JFirst r) x.

Definition thetaSlice (r : t) : list float :=
  flat_map (fun L => data (Layer.Theta L)) (Layers r).
End MLPRegressor.

(** A nil [*Dense] used as a matrix panics. *)
Definition deref {A : Type} (o : option A) : result A :=
  match o with Some a => Ok a | None => Panic end.

(** Write [f] through the [Ypred] view: columns 1.. of [NextX1]. *)
Definition writeYpred (nx : Dense) (f : nat -> nat -> float) : Dense :=
  fill nx (fun i j => match j with O => DenseAt nx i 0 | S j' => f i j' end).

Section Engine.
Context `{env : Collaborators}.

Fixpoint draws (n : nat) (g : Rand) : list float * Rand :=
  match n with
  | O => ([], g)
  | S n' => let (x, g1) := NormFloat64 g in
            let (xs, g2) := draws n' g1 in (x :: xs, g2)
  end.

(** [NewLayer]: [Theta.Apply] calls [rnd] once per cell, row after row. *)
Definition NewLayer (inputs outputs : nat) (activation : string) (optimizer : Optimizer)
    (thetaSlice gradSlice updateSlice : list float) (g : Rand) : result (Layer.t * Rand) :=
  Theta0 <- NewDense inputs outputs thetaSlice ;;
  let (w, g') := draws (inputs * outputs) g in
  let Theta := mkDense inputs outputs w in
  Grad <- NewDense inputs outputs gradSlice ;;
  Update <- NewDense inputs outputs updateSlice ;;
  Ok (Layer.mk activation None None None None None Theta Grad Update optimizer, g').

(** The closure [mk] of [initOutputs]: reuse the slice when its capacity is
    enough, else allocate zeros. *)
Definition mk (s : option Dense) (nSamples nOutputs : nat) : Dense :=
  let size := nSamples * nOutputs in
  match s with
  | None => mkDense nSamples nOutputs (repeat 0%float size)
  | Some d => if List.length (data d) <? size
              then mkDense nSamples nOutputs (repeat 0%float size)
              else mkDense nSamples nOutputs (data d)
  end.

(** [for sample := from; sample < from+n; sample++ { NextX1.Set(sample, 0, 1.) }] *)
Fixpoint setOnes (nx : Dense) (from n : nat) : result Dense :=
  match n with
  | O => Ok nx
  | S n' => nx' <- Set_ nx from 0 1%float ;; setOnes nx' (S from) n'
  end.

Definition initOutputs (L : Layer.t) (nSamples nOutputs : nat) (prevLayer : option Layer.t)
  : result Layer.t :=
  let Ytrue := mk (Layer.Ytrue L) nSamples nOutputs in
  let Z := mk (Layer.Z L) nSamples nOutputs in
  let NextX1 := mk (Layer.NextX1 L) nSamples (1 + nOutputs) in
  let Ydiff := mk (Layer.Ydiff L) nSamples nOutputs in
  let Hgrad := mk (Layer.Hgrad L) nSamples nOutputs in
  NextX1' <- setOnes NextX1 0 nSamples ;;
  Ok (Layer.mk (Layer.Activation L) (Some Ytrue) (Some Z) (Some NextX1') (Some Ydiff)
               (Some Hgrad) (Layer.Theta L) (Layer.Grad L) (Layer.Update L)
               (Layer.Optimizer L)).

(** [NewMLPRegressor]: every field the literal leaves out has Go's zero value. *)
Definition NewMLPRegressor (hiddenLayerSizes : list nat) (activation solver : string)
    (Alpha : float) : MLPRegressor.t :=
  let activation := if String.eqb activation "" then "relu"%string else activation in
  let solver := if String.eqb solver "" then "adam"%string else solver in
  let regr := MLPRegressor.mk true (Solvers solver) ""%string activation hiddenLayerSizes []
                Alpha 0%float 0%float 0%Z 0%Z "square"%string 0%float 0%float in
  if negb (String.eqb activation "identity") then MLPRegressor.set_Loss "log"%string regr
  else regr.

Definition inputs (prevOutputs : nat) : nat := 1 + prevOutputs.

(** [s[lo:hi]] of a slice whose capacity is its length. *)
Definition subslice (s : list float) (lo hi : nat) : result (list float) :=
  if (lo <=? hi) && (hi <=? List.length s) then Ok (firstn (hi - lo) (skipn lo s)) else Panic.

(** A nil [OptimCreator] panics when called. *)
Definition newOptimizer (regr : MLPRegressor.t) : result Optimizer :=
  match MLPRegressor.Optimizer regr with Some c => Ok (c tt) | None => Panic end.

(** First loop of [allocLayers]: the length of the arenas. *)
Fixpoint thetaLenOf (prevOutputs : nat) (hidden : list nat) (nOutputs : nat) : nat :=
  match hidden with
  | [] => inputs prevOutputs * nOutputs
  | outputs :: rest => inputs prevOutputs * outputs + thetaLenOf outputs rest nOutputs
  end.

(** Second loop of [allocLayers]: one layer per hidden size. *)
Fixpoint allocHidden (regr : MLPRegressor.t) (arena : list float) (hidden : list nat)
    (prevOutputs thetaOffset : nat) (g : Rand)
  : result (list Layer.t * nat * nat * Rand) :=
  match hidden with
  | [] => Ok ([], prevOutputs, thetaOffset, g)
  | outputs :: rest =>
      let thetaLen1 := inputs prevOutputs * outputs in
      o <- newOptimizer regr ;;
      ts <- subslice arena thetaOffset (thetaOffset + thetaLen1) ;;
      gs <- subslice arena thetaOffset (thetaOffset + thetaLen1) ;;
      us <- subslice arena thetaOffset (thetaOffset + thetaLen1) ;;
      '(L, g1) <- NewLayer (inputs prevOutputs) outputs (MLPRegressor.Activation regr) o
                           ts gs us g ;;
      '(Ls, prev', off', g2) <- allocHidden regr arena rest outputs
                                            (thetaOffset + thetaLen1) g1 ;;
      Ok (L :: Ls, prev', off', g2)
  end.

Definition allocLayers (regr : MLPRegressor.t) (nFeatures nOutputs : nat) (g : Rand)
  : result (MLPRegressor.t * Rand) :=
  let thetaLen := thetaLenOf nFeatures (MLPRegressor.HiddenLayerSizes regr) nOutputs in
  let arena := repeat 0%float thetaLen in
  '(hiddenLayers, prevOutputs, thetaOffset, g1) <-
     allocHidden regr arena (MLPRegressor.HiddenLayerSizes regr) nFeatures 0 g ;;
  let lastActivation :=
    if String.eqb (MLPRegressor.LossName regr) "cross-entropy"
       || String.eqb (MLPRegressor.LossName regr) "log"
    then "logistic"%string else MLPRegressor.Activation regr in
  let thetaLen1 := inputs prevOutputs * nOutputs in
  o <- newOptimizer regr ;;
  ts <- subslice arena thetaOffset (thetaOffset + thetaLen1) ;;
  gs <- subslice arena thetaOffset (thetaOffset + thetaLen1) ;;
  us <- subslice arena thetaOffset (thetaOffset + thetaLen1) ;;
  '(L, g2) <- NewLayer (1 + prevOutputs) nOutputs lastActivation o ts gs us g1 ;;
  Ok (MLPRegressor.set_Layers (hiddenLayers ++ [L]) regr, g2).

(** ** Forward pass *)

(** The loop of [predictZH] over the layers still to process; [prev] is the
    layer just processed (nil for layer 0). *)
Fixpoint forward (X : Matrix) (Zout : option Dense) (prev : option Layer.t)
    (ls : list Layer.t) : result (list Layer.t * option Dense) :=
  match ls with
  | [] => Ok ([], Zout)
  | L :: rest =>
      Xl <- match prev with
            | None => Ok X
            | Some p => deref (Layer.Ypred p)
            end ;;
      L1 <- initOutputs L (fst (Dims X)) (cols (Layer.Theta L)) prev ;;
      Zd <- deref (Layer.Z L1) ;;
      Z' <- Mul Zd (onesAddedMat Xl) (M (Layer.Theta L1)) ;;
      let Zout' := match rest, Zout with
                   | [], Some z => Some (Copy z (M Z'))
                   | _, _ => Zout
                   end in
      nx <- deref (Layer.NextX1 L1) ;;
      let act := NewActivation (Layer.Activation L1) in
      let nx' := writeYpred nx (fun i j => actF act (DenseAt Z' i j)) in
      let L2 := Layer.set_NextX1 nx' (Layer.set_Z Z' L1) in
      '(rest', Zout'') <- forward X Zout' (Some L2) rest ;;
      Ok (L2 :: rest', Zout'')
  end.

(** [regr.Layers[len(regr.Layers)-1]]: index -1 panics. *)
Definition lastLayer (ls : list Layer.t) : result Layer.t :=
  match ls with
  | [] => Panic
  | _ => deref (nth_error ls (List.length ls - 1))
  end.

Definition predictZH (regr : MLPRegressor.t) (X : Matrix) (Zout Yout : option Dense)
    (fitting : bool) : result (MLPRegressor.t * option Dense * option Dense) :=
  '(ls, Zout') <- forward X Zout None (MLPRegressor.Layers regr) ;;
  Yout' <- match Yout with
           | None => Ok None
           | Some y => L <- lastLayer ls ;;
                       yp <- deref (Layer.Ypred L) ;;
                       Ok (Some (Copy y yp))
           end ;;
  Ok (MLPRegressor.set_Layers ls regr, Zout', Yout').

(** [Predict]: the caller's [Y] receives the forward result. *)
Definition Predict (regr : MLPRegressor.t) (X Y : Dense) : result (MLPRegressor.t * Dense) :=
  '(regr', _, Yout) <- predictZH regr (M X) None (Some Y) false ;;
  Y' <- deref Yout ;;
  Ok (regr', Y').

(** ** Backward pass *)

Definition sgn (x : float) : float :=
  if (0 <? x)%float then 1%float
  else if (x <? 0)%float then (-1)%float
  else 0%float.

(** [float64(n)] for a non-negative [int]. *)
Definition float64 (n : nat) : float := PrimFloat.of_uint63 (Uint63.of_Z (Z.of_nat n)).

(** Lines 252-268: the error buffer [Ydiff] and the target [Ytrue]. *)
Definition computeYdiff (layers : list Layer.t) (l : nat) (L : Layer.t) (Y : Matrix)
  : result Layer.t :=
  let outputLayer := List.length layers - 1 in
  Ytrue <- deref (Layer.Ytrue L) ;;
  Ydiff <- deref (Layer.Ydiff L) ;;
  Ypred <- deref (Layer.Ypred L) ;;
  if l =? outputLayer then
    let Ytrue' := Copy Ytrue Y in
    _ <- MatDimsCheck (M Ydiff) Ypred Y ;;
    Ydiff' <- Sub Ydiff Ypred Y ;;
    Ok (Layer.set_Ydiff Ydiff' (Layer.set_Ytrue Ytrue' L))
  else
    nextLayer <- deref (nth_error layers (l + 1)) ;;
    nextYdiff <- deref (Layer.Ydiff nextLayer) ;;
    Ydiff1 <- MatParallelMul Ydiff (M nextYdiff)
                             (MatFirstColumnRemoved (T (M (Layer.Theta nextLayer)))) ;;
    Hgrad <- deref (Layer.Hgrad L) ;;
    Ydiff2 <- MulElem Ydiff1 (M Ydiff1) (M Hgrad) ;;
    Ytrue' <- Sub Ytrue Ypred (M Ydiff2) ;;
    Ok (Layer.set_Ydiff Ydiff2 (Layer.set_Ytrue Ytrue' L)).

(** Lines 270-279: the loss, its gradient left in [Ydiff]. *)
Definition computeLoss (regr : MLPRegressor.t) (l : nat) (L : Layer.t) (nOutputs : nat)
    (miniBatchPart J : float) : result (Layer.t * float) :=
  let outputLayer := List.length (MLPRegressor.Layers regr) - 1 in
  Ytrue <- deref (Layer.Ytrue L) ;;
  Ydiff <- deref (Layer.Ydiff L) ;;
  Ypred <- deref (Layer.Ypred L) ;;
  if l =? outputLayer then
    let lastLoss := if String.eqb (MLPRegressor.Loss regr) "log" && (nOutputs =? 1)
                    then "cross-entropy"%string else MLPRegressor.Loss regr in
    '(Jl, Ydiff') <- Loss (NewLoss lastLoss) (M Ytrue) Ypred Ydiff ;;
    Ok (Layer.set_Ydiff Ydiff' L, (Jl * miniBatchPart)%float)
  else
    '(_, Ydiff') <- Loss (NewLoss "square") (M Ytrue) Ypred Ydiff ;;
    Ok (Layer.set_Ydiff Ydiff' L, J).

(** Lines 281-289: activation derivative, folded delta, weight gradient. *)
Definition computeGrad (L : Layer.t) (Xl : Matrix) : result Layer.t :=
  Zd <- deref (Layer.Z L) ;;
  Ypred <- deref (Layer.Ypred L) ;;
  Hgrad <- deref (Layer.Hgrad L) ;;
  Ydiff <- deref (Layer.Ydiff L) ;;
  let act := NewActivation (Layer.Activation L) in
  let Hgrad' := fill Hgrad (fun i j => actG act (DenseAt Zd i j) (At Ypred i j)) in
  Ydiff' <- MulElem Ydiff (M Ydiff) (M Hgrad') ;;
  Grad' <- Mul (Layer.Grad L) (T (onesAddedMat Xl)) (M Ydiff') ;;
  Ok (Layer.set_Grad Grad' (Layer.set_Ydiff Ydiff' (Layer.set_Hgrad Hgrad' L))).

(** Lines 292-310: elastic-net regularization of loss and gradient. *)
Definition regularize (regr : MLPRegressor.t) (nSamples : nat) (L : Layer.t) (J : float)
  : result (Layer.t * float) :=
  let Alpha := MLPRegressor.Alpha regr in
  if (0 <? Alpha)%float then
    let L1Ratio := MLPRegressor.L1Ratio regr in
    let R := 0%float in
    let ThetaReg := MatFirstRowZeroed (M (Layer.Theta L)) in
    '(R1, G1) <-
       (if (0 <? L1Ratio)%float then
          let R' := (R + Alpha * L1Ratio / float64 nSamples
                         * Sum (matApply ThetaReg PrimFloat.abs))%float in
          G <- Add (Layer.Grad L) (M (Layer.Grad L))
                   (matScale (matApply ThetaReg sgn) (Alpha / float64 nSamples)) ;;
          Ok (R', G)
        else Ok (R, Layer.Grad L)) ;;
    '(R2, G2) <-
       (if (L1Ratio <? 1)%float then
          let R' := (R1 + Alpha * (1 - L1Ratio) / 2 / float64 nSamples
                          * Sum (matMulElem ThetaReg ThetaReg))%float in
          G <- Add G1 (M G1) (matScale ThetaReg (Alpha / float64 nSamples)) ;;
          Ok (R', G)
        else Ok (R1, G1)) ;;
    Ok (Layer.set_Grad G2 L, (J + R2)%float)
  else Ok (L, J).

(** Lines 312-317: gradient clipping. *)
Definition clipGradient (regr : MLPRegressor.t) (L : Layer.t) : result Layer.t :=
  let GradientClipping := MLPRegressor.GradientClipping regr in
  if (0 <? GradientClipping)%float then
    let GNorm := Norm2 (M (Layer.Grad L)) in
    if (GradientClipping <? GNorm)%float then
      G <- Scale (Layer.Grad L) (GradientClipping / GNorm) (M (Layer.Grad L)) ;;
      Ok (Layer.set_Grad G L)
    else Ok L
  else Ok L.

(** Lines 318-323: optimizer update and weight step. *)
Definition applyUpdate (L : Layer.t) : result Layer.t :=
  '(o, U) <- GetUpdate (Layer.Optimizer L) (Layer.Update L) (Layer.Grad L) ;;
  Theta' <- Add (Layer.Theta L) (M (Layer.Theta L)) (M U) ;;
  Ok (Layer.set_Theta Theta' (Layer.set_Update U o L)).

(** One iteration of the loop of [backprop], for layer [l].  [skipReg]
    leaves the regularization block out; the code is [skipReg = false]. *)
Definition backpropLayer (skipReg : bool) (regr : MLPRegressor.t) (X Y : Matrix)
    (miniBatchPart : float) (nSamples l : nat) (J : float)
  : result (MLPRegressor.t * float) :=
  let layers := MLPRegressor.Layers regr in
  L <- deref (nth_error layers l) ;;
  Xl <- (if l =? 0 then Ok X
         else prevL <- deref (nth_error layers (l - 1)) ;; deref (Layer.Ypred prevL)) ;;
  L1 <- computeYdiff layers l L Y ;;
  '(L2, J1) <- computeLoss regr l L1 (snd (Dims Y)) miniBatchPart J ;;
  L3 <- computeGrad L2 Xl ;;
  '(L4, J2) <- (if skipReg then Ok (L3, J1) else regularize regr nSamples L3 J1) ;;
  L5 <- clipGradient regr L4 ;;
  L6 <- applyUpdate L5 ;;
  Ok (MLPRegressor.set_Layers (set_nth l L6 layers) regr, J2).

(** [for l := n-1; l >= 0; l--]. *)
Fixpoint backpropFrom (skipReg : bool) (n : nat) (regr : MLPRegressor.t) (X Y : Matrix)
    (miniBatchPart : float) (nSamples : nat) (J : float)
  : result (MLPRegressor.t * float) :=
  match n with
  | O => Ok (regr, J)
  | S l =>
      '(regr', J') <- backpropLayer skipReg regr X Y miniBatchPart nSamples l J ;;
      backpropFrom skipReg l regr' X Y miniBatchPart nSamples J'
  end.

Definition backpropGen (skipReg : bool) (regr : MLPRegressor.t) (X Y : Matrix) (epoch : Z)
    (miniBatchLen nSamples : nat) : result (MLPRegressor.t * float) :=
  let miniBatchPart := (float64 miniBatchLen / float64 nSamples)%float in
  backpropFrom skipReg (List.length (MLPRegressor.Layers regr)) regr X Y
               miniBatchPart nSamples 0%float.

Definition backprop := backpropGen false.

(** ** Training driver *)

Definition fitMiniBatchGen (skipReg : bool) (regr : MLPRegressor.t) (Xmini Ymini : Dense)
    (epoch : Z) (miniBatchLen nSamples : nat) : result (MLPRegressor.t * float) :=
  '(regr1, _, _) <- predictZH regr (M Xmini) None None true ;;
  backpropGen skipReg regr1 (M Xmini) (M Ymini) epoch miniBatchLen nSamples.

Definition fitMiniBatch := fitMiniBatchGen false.

(** The switch of [fitEpoch] on [regr.MiniBatchSize]. *)
Definition miniBatchSizeOf (regr : MLPRegressor.t) (nSamples : nat) : nat :=
  let mbs := MLPRegressor.MiniBatchSize regr in
  if (0 <? mbs)%Z && (mbs <=? Z.of_nat nSamples)%Z then Z.to_nat mbs
  else if (Z.of_nat nSamples <? mbs)%Z then nSamples
  else if 200 <? nSamples then 200 else nSamples.

(** [for miniBatchStart < nSamples { ... }].  Every turn moves
    [miniBatchStart] forward (an empty window makes [Slice] panic), so
    [nSamples] turns of fuel are enough: see [miniBatches_terminates]. *)
Fixpoint miniBatches (skipReg : bool) (fuel : nat) (regr : MLPRegressor.t)
    (Xfull Yfull : Dense) (epoch : Z) (nSamples nFeatures nOutputs : nat)
    (miniBatchStart miniBatchEnd : nat) (Jsum : float)
  : result (MLPRegressor.t * float) :=
  if miniBatchStart <? nSamples then
    match fuel with
    | O => OutOfFuel
    | S fuel' =>
        let miniBatchLen := miniBatchEnd - miniBatchStart in
        X <- Slice Xfull miniBatchStart miniBatchEnd 0 nFeatures ;;
        Y <- Slice Yfull miniBatchStart miniBatchEnd 0 nOutputs ;;
        '(regr', Jmini) <- fitMiniBatchGen skipReg regr X Y epoch miniBatchLen nSamples ;;
        let Jsum' := (Jsum + Jmini)%float in
        let miniBatchStart' := miniBatchStart + miniBatchLen in
        let miniBatchEnd' := miniBatchEnd + miniBatchLen in
        let miniBatchEnd'' := if nSamples <? miniBatchEnd' then nSamples else miniBatchEnd' in
        miniBatches skipReg fuel' regr' Xfull Yfull epoch nSamples nFeatures nOutputs
                    miniBatchStart' miniBatchEnd'' Jsum'
    end
  else Ok (regr, Jsum).

(** The state a training run threads: the regressor, the caller's two
    matrices (shuffled in place) and the random source. *)
Record FitState := mkFitState {
  fs_regr : MLPRegressor.t;
  fs_X : Dense;
  fs_Y : Dense;
  fs_rand : Rand }.

Definition fitEpochGen (skipReg : bool) (s : FitState) (epoch : Z)
  : result (FitState * float) :=
  let regr := fs_regr s in
  let nSamples := rows (fs_X s) in
  let nFeatures := cols (fs_X s) in
  let nOutputs := cols (fs_Y s) in
  '(Xfull, Yfull, g) <-
     (if MLPRegressor.Shuffle regr then MatShuffle (fs_rand s) (fs_X s) (fs_Y s)
      else Ok (fs_X s, fs_Y s, fs_rand s)) ;;
  let miniBatchSize := miniBatchSizeOf regr nSamples in
  '(regr1, Jsum) <- miniBatches skipReg nSamples regr Xfull Yfull epoch
                                nSamples nFeatures nOutputs 0 miniBatchSize 0%float ;;
  let regr2 := MLPRegressor.set_J Jsum regr1 in
  let regr3 := if (epoch =? 1)%Z then MLPRegressor.set_JFirst Jsum regr2 else regr2 in
  Ok (mkFitState regr3 Xfull Yfull g, Jsum).

Definition fitEpoch := fitEpochGen false.

(** [for epoch := e; epoch < regr.Epochs; epoch++ { regr.fitEpoch(X, Y, epoch) }];
    the bound is read again at every turn.  [Fit] drops the value each call
    of [fitEpoch] returns; the model keeps them, in order, so that the
    epochs of a run can be counted. *)
Fixpoint epochsLoop (skipReg : bool) (fuel : nat) (s : FitState) (epoch : Z)
  : result (FitState * list float) :=
  if (epoch <? MLPRegressor.Epochs (fs_regr s))%Z then
    match fuel with
    | O => OutOfFuel
    | S fuel' =>
        '(s1, Jsum) <- fitEpochGen skipReg s epoch ;;
        '(s2, Js) <- epochsLoop skipReg fuel' s1 (epoch + 1)%Z ;;
        Ok (s2, Jsum :: Js)
    end
  else Ok (s, []).

(** [1e6 / nSamples] on Go's [int]: truncated division, a panic on zero. *)
Definition defaultEpochs (nSamples : nat) : result Z :=
  if nSamples =? 0 then Panic else Ok (Z.quot 1000000 (Z.of_nat nSamples)).

Definition FitGen (skipReg : bool) (regr : MLPRegressor.t) (X Y : Dense) (g : Rand)
  : result (FitState * list float) :=
  let nSamples := rows X in
  let nFeatures := cols X in
  let nOutputs := cols Y in
  '(regr1, g1) <- allocLayers regr nFeatures nOutputs g ;;
  let regr2 := MLPRegressor.set_J infinity regr1 in
  regr3 <- (if (MLPRegressor.Epochs regr2 <=? 0)%Z
            then e <- defaultEpochs nSamples ;; Ok (MLPRegressor.set_Epochs e regr2)
            else Ok regr2) ;;
  epochsLoop skipReg (Z.to_nat (MLPRegressor.Epochs regr3)) (mkFitState regr3 X Y g1) 0%Z.

Definition Fit := FitGen false.

(** The run of the spec's words "the regularization code path entirely
    skipped": the same driver, the block of lines 292-310 left out. *)
Definition Fit_noreg := FitGen true.

(** ** Scoring and the classifier *)

(** [Score]: the metric is called on the caller's [Y], overwritten by
    [Predict], and on the local [Ypred]. *)
Definition Score (regr : MLPRegressor.t) (X Y : Dense)
  : result (float * MLPRegressor.t * Dense) :=
  let nSamples := rows Y in
  let nOutputs := cols Y in
  let Ypred := NewDenseNil nSamples nOutputs in
  '(regr', Y') <- Predict regr X Y ;;
  if String.eqb (MLPRegressor.Loss regr') "square"
  then Ok (R2Score Y' Ypred, regr', Y')
  else Ok (AccuracyScore Y' Ypred, regr', Y').

(** [MLPClassifier] embeds an [MLPRegressor]. *)
Record MLPClassifier := mkClassifier { embedded : MLPRegressor.t }.

Definition NewMLPClassifier (hiddenLayerSizes : list nat) (activation solver : string)
    (Alpha : float) : MLPClassifier :=
  let regr := NewMLPRegressor hiddenLayerSizes activation solver Alpha in
  mkClassifier (MLPRegressor.set_Loss "log" regr).

(** The closure given to [Y.Apply] by the classifier's [Predict]. *)
Definition threshold (y : float) : float :=
  if (0.5 <=? y)%float then 1%float else 0%float.

Definition MLPClassifier_Predict (clf : MLPClassifier) (X Y : Dense)
  : result (MLPClassifier * Dense) :=
  '(regr', _, Yout) <- predictZH (embedded clf) (M X) None (Some Y) false ;;
  Y1 <- deref Yout ;;
  Y2 <- Apply Y1 (fun i o y => threshold y) (M Y1) ;;
  Ok (mkClassifier regr', Y2).

End Engine.

(** ** The optimizer setter, and slices *)

(** [SetOptimizer] changes the creator and nothing else. *)
Definition SetOptimizer (creator : OptimCreator) (regr : MLPRegressor.t) : MLPRegressor.t :=
  MLPRegressor.mk (MLPRegressor.Shuffle regr) (Some creator) (MLPRegressor.LossName regr)
    (MLPRegressor.Activation regr) (MLPRegressor.HiddenLayerSizes regr)
    (MLPRegressor.Layers regr) (MLPRegressor.Alpha regr) (MLPRegressor.L1Ratio regr)
    (MLPRegressor.GradientClipping regr) (MLPRegressor.Epochs regr)
    (MLPRegressor.MiniBatchSize regr) (MLPRegressor.Loss regr) (MLPRegressor.JFirst regr)
    (MLPRegressor.J regr).

(** [s[j]] of a slice: an index out of range panics. *)
Definition index (s : list float) (j : nat) : result float := deref (nth_error s j).

(** The longest [[]float64] that [make] accepts on amd64: Go's run time
    panics ("len out of range") when the length is negative or the slice
    would take more than [maxAlloc] = 2^48 bytes, eight per cell. *)
Definition maxSliceLen : Z := 2 ^ 45.

(** [Predict], [Score] and the classifier's [Predict] take their output
    buffer [Y] as a [*mat.Dense], which may be nil: here [None]. *)
Definition PredictNilable `{Collaborators} (regr : MLPRegressor.t) (X : Dense)
    (Y : option Dense) : result (MLPRegressor.t * option Dense) :=
  '(regr', _, Yout) <- predictZH regr (M X) None Y false ;;
  Ok (regr', Yout).

(** [Score] starts with [Y.Dims()], a panic on a nil pointer. *)
Definition ScoreNilable `{Collaborators} (regr : MLPRegressor.t) (X : Dense)
    (Y : option Dense) : result (float * MLPRegressor.t * Dense) :=
  Yd <- deref Y ;; Score regr X Yd.

(** The classifier's [Predict] ends with [Y.Apply], a panic on a nil
    pointer. *)
Definition MLPClassifier_PredictNilable `{Collaborators} (clf : MLPClassifier) (X : Dense)
    (Y : option Dense) : result (MLPClassifier * Dense) :=
  '(regr', _, Yout) <- predictZH (embedded clf) (M X) None Y false ;;
  Y1 <- deref Yout ;;
  Y2 <- Apply Y1 (fun i o y => threshold y) (M Y1) ;;
  Ok (mkClassifier regr', Y2).

(** ** gonum's [floats] package, as far as [linear_model] uses it

    Every function works in place on its [dst] argument; the model
    returns the new contents. *)

Module floats.

(** [dst[i] = op(dst[i], s[i])] in place; a panic unless the lengths agree. *)
Definition zipInto (op : float -> float -> float) (dst s : list float)
  : result (list float) :=
  if List.length dst =? List.length s
  then Ok (map (fun p => op (fst p) (snd p)) (combine dst s))
  else Panic.

Definition Add := zipInto PrimFloat.add.
Definition Sub := zipInto PrimFloat.sub.
Definition Mul := zipInto PrimFloat.mul.
Definition Div := zipInto PrimFloat.div.

(** [dst[i] *= c] and [dst[i] += c]. *)
Definition Scale (c : float) (dst : list float) : list float :=
  map (fun x => (x * c)%float) dst.
Definition AddConst (c : float) (dst : list float) : list float :=
  map (fun x => (x + c)%float) dst.

Definition Sum (s : list float) : float := fold_left PrimFloat.add s 0%float.

End floats.

(** ** Package [linear_model]

    [LinearRegression.Fit] hands the squared error to gonum's optimizer,
    from random coefficients, and [log] is [math.Log]: neither is modelled.
    What [Fit] calls before and after the optimizer is. *)

Module linear_model.

Record LinearModel := mkLinearModel {
  X_offset_ : list float;
  X_scale_ : list float;
  Coef_ : list float;
  Intercept_ : float;
  FitIntercept : bool;
  Normalize : bool }.

(** [NewLinearRegression]: the embedded [LinearModel] with [FitIntercept]
    set; the slices are nil. *)
Definition NewLinearRegression : LinearModel :=
  mkLinearModel [] [] [] 0%float true false.

Definition fill (n : nat) (x : float) : list float := repeat x n.

Definition ones (n : nat) : list float := fill n 1%float.

(** [for j, Xoffj := range X_offset { sum += Xoffj * Coef_[j] }], from [j]. *)
Fixpoint sumxoffsetcoef (X_offset Coef : list float) (j : nat) (sum : float)
  : result float :=
  match X_offset with
  | [] => Ok sum
  | Xoffj :: rest =>
      c <- index Coef j ;;
      sumxoffsetcoef rest Coef (S j) (sum + Xoffj * c)%float
  end.

Definition _set_intercept (self : LinearModel) (X_offset : list float) (y_offset : float)
    (X_scale : list float) : result LinearModel :=
  if FitIntercept self then
    Coef <- floats.Div (Coef_ self) X_scale ;;
    s <- sumxoffsetcoef X_offset Coef 0 0%float ;;
    Ok (mkLinearModel (X_offset_ self) (X_scale_ self) Coef (y_offset - s)%float
                      (FitIntercept self) (Normalize self))
  else
    Ok (mkLinearModel (X_offset_ self) (X_scale_ self) (Coef_ self) 0%float
                      (FitIntercept self) (Normalize self)).

(** [for j, c := range Coef_ { y[i] += c * Xi[j] }], from [j]. *)
Fixpoint rowValue (Coef Xi : list float) (j : nat) (y : float) : result float :=
  match Coef with
  | [] => Ok y
  | c :: rest => x <- index Xi j ;; rowValue rest Xi (S j) (y + c * x)%float
  end.

Fixpoint DecisionRows (self : LinearModel) (X : list (list float)) : result (list float) :=
  match X with
  | [] => Ok []
  | Xi :: rest =>
      yi <- rowValue (Coef_ self) Xi 0 (Intercept_ self) ;;
      ys <- DecisionRows self rest ;;
      Ok (yi :: ys)
  end.

Definition DecisionFunction (self : LinearModel) (X : list (list float))
  : result (list float) := DecisionRows self X.

(** [LinearRegression.Predict]. *)
Definition Predict (self : LinearModel) (X : list (list float)) : result (list float) :=
  DecisionFunction self X.

(** Go's [copy(dst, src)]: the first [min(len(dst), len(src))] cells. *)
Definition copy {A : Type} (dst src : list A) : list A :=
  firstn (List.length dst) src ++ skipn (List.length src) dst.

(** [for _, Xi := range X { floats.Add(X_offset_, Xi) }]. *)
Fixpoint addRows (acc : list float) (X : list (list float)) : result (list float) :=
  match X with
  | [] => Ok acc
  | Xi :: rest => acc' <- floats.Add acc Xi ;; addRows acc' rest
  end.

(** The loop that accumulates the squared deviations in [X_var]. *)
Fixpoint varRows (X_var X_offset : list float) (n_features : nat) (X : list (list float))
  : result (list float) :=
  match X with
  | [] => Ok X_var
  | Xi :: rest =>
      t <- floats.Add (repeat 0%float n_features) Xi ;;
      t <- floats.Sub t X_offset ;;
      t <- floats.Mul t t ;;
      X_var' <- floats.Add X_var t ;;
      varRows X_var' X_offset n_features rest
  end.

(** The loop that fills [Xout]. *)
Fixpoint centerRows (X_offset X_scale : list float) (n_features : nat)
    (X : list (list float)) : result (list (list float)) :=
  match X with
  | [] => Ok []
  | Xi :: rest =>
      r <- floats.Add (repeat 0%float n_features) Xi ;;
      r <- floats.Sub r X_offset ;;
      r <- floats.Div r X_scale ;;
      rs <- centerRows X_offset X_scale n_features rest ;;
      Ok (r :: rs)
  end.

Definition preprocess_data (X : list (list float)) (y : list float)
    (fit_intercept normalize : bool)
  : result (list (list float) * list float * list float * float * list float) :=
  match X with
  | [] => Panic                                   (* len(X[0]) *)
  | X0 :: _ =>
      let n_samples := List.length X in
      let n_features := List.length X0 in
      if fit_intercept then
        X_offset <- addRows (repeat 0%float n_features) X ;;
        let X_offset := floats.Scale (1 / float64 n_samples) X_offset in
        let y_offset := (floats.Sum y / float64 n_samples)%float in
        X_scale <-
          (if normalize then
             X_var <- varRows (repeat 0%float n_features) X_offset n_features X ;;
             let X_var := floats.Scale (1 / float64 n_samples) X_var in
             Ok (map PrimFloat.sqrt X_var)
           else Ok (repeat 1%float n_features)) ;;
        Xout <- centerRows X_offset X_scale n_features X ;;
        yout <- floats.Add (repeat 0%float n_samples) y ;;
        let yout := floats.AddConst (- y_offset)%float yout in
        Ok (Xout, yout, X_offset, y_offset, X_scale)
      else
        Ok (X, copy (repeat 0%float n_samples) y, repeat 0%float n_features, 0%float,
            repeat 1%float n_features)
  end.

End linear_model.

(** ** Package [metrics]: ranking

    [ROCAUCScore] goes through the label encoder of package preprocessing
    and gonum's [stat.Mean] and is not modelled; the curve and the area it
    averages are. *)

Module metrics.

(** [m.At(i, j)]: out of range, a panic. *)
Definition AtP (m : Dense) (i j : nat) : result float :=
  if (i <? rows m) && (j <? cols m) then Ok (DenseAt m i j) else Panic.

Section Ranking.

(** [sort.Slice(idx, less)] on the elements of [idx].  The order it leaves
    between elements that compare equal is not specified, so the sort is a
    parameter: the properties below say what they need of it. *)
Variable sortSlice : (nat -> nat -> bool) -> list nat -> list nat.

(** The loop that keeps an index when its score is lower than the score
    of the index before it ([prev]). *)
Fixpoint distinctFrom (Yscore : Dense) (prev : nat) (rest : list nat)
  : result (list nat) :=
  match rest with
  | [] => Ok []
  | i :: rest' =>
      a <- AtP Yscore i 0 ;;
      b <- AtP Yscore prev 0 ;;
      ds <- distinctFrom Yscore i rest' ;;
      Ok (if (a <? b)%float then i :: ds else ds)
  end.

Definition distinctValueIndices (Yscore : Dense) (descScoreIndices : list nat)
  : result (list nat) :=
  match descScoreIndices with
  | [] => Ok []
  | i0 :: rest => ds <- distinctFrom Yscore i0 rest ;; Ok (i0 :: ds)
  end.

(** The loop over [distinctValueIndices]: running weights of the positives
    and of the others, and the score, at each index kept. *)
Fixpoint accumulate (Ytrue Yscore : Dense) (posLabel : float)
    (sampleWeight : option (list float)) (tpw fpw w : float) (ds : list nat)
  : result (list float * list float * list float) :=
  match ds with
  | [] => Ok ([], [], [])
  | i :: rest =>
      w' <- match sampleWeight with
            | Some sw => index sw i
            | None => Ok w
            end ;;
      yt <- AtP Ytrue i 0 ;;
      let tp := (yt =? posLabel)%float in
      let tpw' := if tp then (tpw + w')%float else tpw in
      let fpw' := if tp then fpw else (fpw + w')%float in
      th <- AtP Yscore i 0 ;;
      '(fps, tps, thresholds) <-
         accumulate Ytrue Yscore posLabel sampleWeight tpw' fpw' w' rest ;;
      Ok (fpw' :: fps, tpw' :: tps, th :: thresholds)
  end.

(** [binaryClfScore].  The comparison handed to the sort reads
    [Yscore.At(idx[i], 0)]; the loop after it reads the same cells for every
    index of a slice of two or more, so a score that is missing panics there
    at the latest and the sort is run on total reads. *)
Definition binaryClfScore (Ytrue Yscore : Dense) (posLabel : float)
    (sampleWeight : option (list float))
  : result (list float * list float * list float) :=
  let m := rows Ytrue in
  let idx := seq 0 m in
  let higherscore := fun a b => (DenseAt Yscore b 0 <? DenseAt Yscore a 0)%float in
  let descScoreIndices := sortSlice higherscore idx in
  ds <- distinctValueIndices Yscore descScoreIndices ;;
  accumulate Ytrue Yscore posLabel sampleWeight 0%float 0%float 1%float ds.

Definition ROCCurve (Ytrue Yscore : Dense) (posLabel : float)
    (sampleWeight : option (list float))
  : result (list float * list float * list float) :=
  '(fps, tps, thresholds) <- binaryClfScore Ytrue Yscore posLabel sampleWeight ;;
  extra <- (if List.length tps =? 0 then Ok true
            else fps0 <- index fps 0 ;; Ok (negb (fps0 =? 0)%float)) ;;
  '(fps, tps, thresholds) <-
     (if extra : bool then
        th0 <- index thresholds 0 ;;
        Ok (0%float :: fps, 0%float :: tps, (th0 + 1)%float :: thresholds)
      else Ok (fps, tps, thresholds)) ;;
  fpmax <- index fps (List.length fps - 1) ;;
  let fpr := if (fpmax <=? 0)%float then map (fun _ => nan) fps
             else floats.Scale (1 / fpmax) fps in
  tpmax <- index tps (List.length tps - 1) ;;
  let tpr := if (tpmax <=? 0)%float then map (fun _ => nan) tps
             else floats.Scale (1 / tpmax) tps in
  Ok (fpr, tpr, thresholds).

End Ranking.

(** [AUC]: [for i := range fpr { x, y := fpr[i], tpr[i]; ... }], from [i]. *)
Fixpoint AUCfrom (fpr tpr : list float) (i : nat) (auc xp yp : float) : result float :=
  match fpr with
  | [] => Ok auc
  | x :: rest =>
      y <- index tpr i ;;
      AUCfrom rest tpr (S i) (auc + (x - xp) * (y + yp) / 2)%float x y
  end.

Definition AUC (fpr tpr : list float) : result float :=
  AUCfrom fpr tpr 0 0%float 0%float 0%float.

End metrics.

(** ** Notions used by the statements *)

(** A scratch buffer that is allocated with [r] rows and [c] columns. *)
Definition shaped (o : option Dense) (r c : nat) : Prop :=
  exists d, o = Some d /\ rows d = r /\ cols d = c.

(** The buffers of a layer after a forward pass over [nSamples] rows: the
    shapes follow the layer's weights, and column 0 of the augmented input
    is 1.0. *)
Definition forward_shaped (nSamples : nat) (L : Layer.t) : Prop :=
  let nOutputs := cols (Layer.Theta L) in
  shaped (Layer.Ytrue L) nSamples nOutputs
  /\ shaped (Layer.Z L) nSamples nOutputs
  /\ shaped (Layer.Ydiff L) nSamples nOutputs
  /\ shaped (Layer.Hgrad L) nSamples nOutputs
  /\ exists nx, Layer.NextX1 L = Some nx
       /\ rows nx = nSamples /\ cols nx = 1 + nOutputs
       /\ forall i, i < nSamples -> DenseAt nx i 0 = 1%float.

(** The layer processed before, if any, feeds [b] rows. *)
Definition feeds (b : nat) (prev : option Layer.t) : Prop :=
  match prev with
  | None => True
  | Some p => exists nx, Layer.NextX1 p = Some nx /\ rows nx = b
  end.

(** The weights of a layer with the bias row replaced: same shape, same
    cells below row 0. *)
Definition same_below_bias (th th' : Dense) : Prop :=
  rows th' = rows th /\ cols th' = cols th
  /\ forall i j, DenseAt th' (S i) j = DenseAt th (S i) j.

(** The fields a run only reads: everything but Layers, J and JFirst. *)
Definition same_settings (r r' : MLPRegressor.t) : Prop :=
  MLPRegressor.Shuffle r' = MLPRegressor.Shuffle r
  /\ MLPRegressor.Alpha r' = MLPRegressor.Alpha r
  /\ MLPRegressor.L1Ratio r' = MLPRegressor.L1Ratio r
  /\ MLPRegressor.GradientClipping r' = MLPRegressor.GradientClipping r
  /\ MLPRegressor.Epochs r' = MLPRegressor.Epochs r
  /\ MLPRegressor.MiniBatchSize r' = MLPRegressor.MiniBatchSize r
  /\ MLPRegressor.Loss r' = MLPRegressor.Loss r.

(** What the forward and backward passes change of a regressor: its
    layers, nothing else. *)
Definition only_layers (r r' : MLPRegressor.t) : Prop :=
  r' = MLPRegressor.set_Layers (MLPRegressor.Layers r') r.

(** The shapes of the weight matrices of a network: one row per input of
    the layer plus the bias row, one column per output. *)
Fixpoint layerShapes (prevOutputs : nat) (sizes : list nat) : list (nat * nat) :=
  match sizes with
  | [] => []
  | outputs :: rest => (1 + prevOutputs, outputs) :: layerShapes outputs rest
  end.

Definition shapeOf (d : Dense) : nat * nat := (rows d, cols d).

(** A layer as [NewLayer] leaves it: no scratch buffer yet, gradient and
    update all zeros. *)
Definition fresh (L : Layer.t) : Prop :=
  Layer.Ytrue L = None /\ Layer.Z L = None /\ Layer.NextX1 L = None
  /\ Layer.Ydiff L = None /\ Layer.Hgrad L = None
  /\ shapeOf (Layer.Grad L) = shapeOf (Layer.Theta L)
  /\ shapeOf (Layer.Update L) = shapeOf (Layer.Theta L)
  /\ List.length (data (Layer.Theta L)) = rows (Layer.Theta L) * cols (Layer.Theta L)
  /\ data (Layer.Grad L) = repeat 0%float (rows (Layer.Theta L) * cols (Layer.Theta L))
  /\ data (Layer.Update L) = repeat 0%float (rows (Layer.Theta L) * cols (Layer.Theta L)).

(** The output layer's activation, as [allocLayers] chooses it. *)
Definition lastActivationOf (regr : MLPRegressor.t) : string :=
  if String.eqb (MLPRegressor.LossName regr) "cross-entropy"
     || String.eqb (MLPRegressor.LossName regr) "log"
  then "logistic"%string else MLPRegressor.Activation regr.

(** What training owns of a layer: its activation, weights, gradient,
    update and optimizer. *)
Definition trainedPart (L : Layer.t)
  : string * Dense * Dense * Dense * Optimizer :=
  (Layer.Activation L, Layer.Theta L, Layer.Grad L, Layer.Update L, Layer.Optimizer L).

(** Layer [L] fed with [Xl]: the weights take one row per column of [Xl]
    plus the bias row, [Z] is [[1 Xl] . Theta], and the prediction (columns
    1.. of [NextX1]) is the activation of [Z], cell by cell. *)
Definition forward_law `{Collaborators} (Xl : Matrix) (L : Layer.t) : Prop :=
  rows (Layer.Theta L) = 1 + snd (Dims Xl)
  /\ exists Zd nx,
       Layer.Z L = Some Zd /\ Layer.NextX1 L = Some nx
       /\ forall i j, i < fst (Dims Xl) -> j < cols (Layer.Theta L) ->
            DenseAt Zd i j = dot (onesAddedMat Xl) (M (Layer.Theta L)) i j
            /\ DenseAt nx i (S j)
               = actF (NewActivation (Layer.Activation L)) (DenseAt Zd i j).

(** The law along the layers: each one is fed with the prediction of the
    one before, the first with [X]. *)
Fixpoint forward_chain `{Collaborators} (Xl : Matrix) (ls : list Layer.t) : Prop :=
  match ls with
  | [] => True
  | L :: rest =>
      forward_law Xl L
      /\ match Layer.Ypred L with
         | Some yp => forward_chain yp rest
         | None => False
         end
  end.

(** What no pass changes of a layer: its activation and the shape of its
    weights. *)
Definition archOf (L : Layer.t) : string * (nat * nat) :=
  (Layer.Activation L, shapeOf (Layer.Theta L)).

(** A row of [Xout]: the row of [X] added to zeros, minus the offsets,
    divided by the scales. *)
Definition centred (X_offset X_scale Xi r : list float) : Prop :=
  List.length r = List.length Xi
  /\ forall j, j < List.length Xi ->
       nth j r 0%float
       = ((0 + nth j Xi 0 - nth j X_offset 0) / nth j X_scale 0)%float.

(** ** Termination of the model's loops *)

(** A result of the program itself, a value or a panic: the model's loops
    did not run out of fuel. *)
Definition terminates {A : Type} (r : result A) : Prop :=
  match r with OutOfFuel => False | _ => True end.

(** The collaborators called through interfaces return or panic, as every
    Go call does: the optimizer of a layer, and the losses. *)
Definition optimizerTerminates (o : Optimizer) : Prop :=
  forall s update grad, terminates (optStep o s update grad).

Definition lossesTerminate `{Collaborators} : Prop :=
  forall name Ytrue Ypred G, terminates (Loss (otherLoss name) Ytrue Ypred G).

Definition optimizersTerminate (regr : MLPRegressor.t) : Prop :=
  Forall (fun L => optimizerTerminates (Layer.Optimizer L)) (MLPRegressor.Layers regr).

(** ** The real numbers behind [float64] *)

(** [2^e] as a real number. *)
Definition bpow (e : Z) : R := powerRZ 2 e.
Arguments bpow : simpl never.

(** The real number a [spec_float] stands for; 0 for infinities and NaN. *)
Definition SF2R (x : SpecFloat.spec_float) : R :=
  match x with
  | SpecFloat.S754_finite s m e =>
      ((if s then -1 else 1) * IZR (Zpos m) * bpow e)%R
  | _ => 0%R
  end.

(** The real value of a [float64]. *)
Definition B2R (x : float) : R := SF2R (Prim2SF x).

(** A normal number: finite, not zero, with a full 53-bit mantissa. *)
Definition normal (x : float) : bool :=
  match classify x with
  | PNormal | NNormal => true
  | _ => false
  end.

(** Plus or minus zero. *)
Definition isZero (x : float) : bool :=
  match classify x with
  | PZero | NZero => true
  | _ => false
  end.

(** The unit roundoff of binary64. *)
Definition u64 : R := bpow (-53).

(** [t] lies in [[m, m+1)], at the place [l] says. *)
Definition located (t : R) (m : Z) (l : SpecFloat.location) : Prop :=
  match l with
  | SpecFloat.loc_Exact => t = IZR m
  | SpecFloat.loc_Inexact Lt => (IZR m < t < IZR m + / 2)%R
  | SpecFloat.loc_Inexact Eq => t = (IZR m + / 2)%R
  | SpecFloat.loc_Inexact Gt => (IZR m + / 2 < t < IZR m + 1)%R
  end.

(** A mantissa being shifted, with its round and sticky bits, stands for
    [t] when [t] is located by them. *)
Definition shrInv (t : R) (mrs : SpecFloat.shr_record) : Prop :=
  (0 <= SpecFloat.shr_m mrs)%Z
  /\ located t (SpecFloat.shr_m mrs) (SpecFloat.loc_of_shr_record mrs).

(** The sign of a float, as a real factor. *)
Definition sgnR (s : bool) : R := if s then (-1)%R else 1%R.

(** Neither an infinity nor a NaN. *)
Definition finite (x : float) : bool :=
  match classify x with
  | NaN | PInf | NInf => false
  | _ => true
  end.

(** The cells of the logical view of a matrix, row after row. *)
Definition cells (d : Dense) : list float := tab (rows d) (cols d) (DenseAt d).

(** The sum of the squares of the real values of a list of [float64], and
    the exact L2 (Frobenius) norm of a matrix: no rounding. *)
Definition sumSquares (l : list float) : R :=
  fold_right (fun x acc => (B2R x * B2R x + acc)%R) 0%R l.

Definition norm2R (d : Dense) : R := sqrt (sumSquares (cells d)).

(** ** Stand-ins for the collaborators, for running the model *)

Module Demo.

(** Plain gradient descent with step 1/4: [update = -grad/4], no state. *)
Definition sgd : Optimizer :=
  mkOptimizer tt (fun _ update grad =>
                    u <- Scale update (-0.25)%float (M grad) ;; Ok (tt, u)).

Definition identity : ActivationFunctions :=
  mkActivation (fun z => z) (fun _ _ => 1%float).

Definition relu : ActivationFunctions :=
  mkActivation (fun z => if (0 <? z)%float then z else 0%float)
               (fun z _ => if (0 <? z)%float then 1%float else 0%float).

Definition halfSquares (Ytrue Ypred : Matrix) : float :=
  let d := matMulElem (mkMatrix (Dims Ypred) (fun i j => (At Ypred i j - At Ytrue i j)%float))
                      (mkMatrix (Dims Ypred) (fun i j => (At Ypred i j - At Ytrue i j)%float)) in
  (Sum d / 2)%float.

(** The Frobenius norm, as [mat.Norm(., 2)] is documented. *)
Definition frobenius (a : Matrix) : float :=
  PrimFloat.sqrt (Sum (matMulElem a a)).

#[export] Instance env : Collaborators := {|
  Rand := nat;
  NormFloat64 := fun g => (if Nat.even g then 0.5%float else (-0.25)%float, S g);
  MatShuffle := fun g X Y => Ok (X, Y, S g);
  Solvers := fun _ => Some (fun _ => sgd);
  NewActivation := fun name => if String.eqb name "relu" then relu else identity;
  squareLossValue := halfSquares;
  otherLoss := fun _ => mkLoss (fun Ytrue Ypred G =>
                 G' <- Sub G Ypred Ytrue ;; Ok (halfSquares Ytrue Ypred, G'));
  Norm2 := frobenius;
  R2Score := fun Ytrue Ypred => Sum (M Ypred);
  AccuracyScore := fun Ytrue Ypred => Sum (M Ypred) |}.

(** A three-sample, one-feature training set (y = 2x + 1). *)
Definition X3 : Dense := mkDense 3 1 [0; 0.5; 1]%float.
Definition Y3 : Dense := mkDense 3 1 [1; 2; 3]%float.

(** A regressor with no hidden layer, identity activation, square loss, no
    shuffling, no regularization, no clipping; [epochs] as given. *)
Definition regrE (epochs : Z) : MLPRegressor.t :=
  MLPRegressor.mk false (Some (fun _ => sgd)) "" "identity" [] [] 0 0 0 epochs 0 "square" 0 0.

(** The same with one hidden layer of one unit. *)
Definition regrH : MLPRegressor.t :=
  MLPRegressor.mk false (Some (fun _ => sgd)) "" "identity" [1] [] 0 0 0 1 0 "square" 0 0.

Definition Xh : Dense := mkDense 1 1 [2]%float.
Definition Yh : Dense := mkDense 1 1 [1]%float.

(** A default value for projecting out of a run that is known to succeed. *)
Definition layer0 : Layer.t :=
  Layer.mk "" None None None None None (mkDense 0 0 []) (mkDense 0 0 []) (mkDense 0 0 []) sgd.

Definition get {A : Type} (d : A) (r : result A) : A :=
  match r with Ok a => a | _ => d end.

(** [regrH] after allocation, one forward pass over [Xh] and the backward
    step of its output layer (index 1): the state in which the backward
    pass reaches the hidden layer (index 0). *)
Definition afterOutputLayer : result (MLPRegressor.t * float) :=
  '(r0, _) <- allocLayers regrH 1 1 0 ;;
  '(r1, _, _) <- predictZH r0 (M Xh) None None true ;;
  backpropLayer false r1 (M Xh) (M Yh) 1%float 1 1 0%float.

Definition regrH1 : MLPRegressor.t := fst (get (regrH, 0%float) afterOutputLayer).
Definition JH1 : float := snd (get (regrH, 0%float) afterOutputLayer).
Definition hiddenL : Layer.t := nth 0 (MLPRegressor.Layers regrH1) layer0.
Definition hiddenL1 : Layer.t :=
  get layer0 (computeYdiff (MLPRegressor.Layers regrH1) 0 hiddenL (M Yh)).
Definition hiddenL2 : Layer.t :=
  fst (get (layer0, 0%float) (computeLoss regrH1 0 hiddenL1 1 1%float JH1)).

(** The delta of a hidden layer as the specification words it: the next
    layer's delta times its transposed weights without the bias column,
    multiplied cell by cell by the next layer's activation gradient. *)
Definition specDelta (layers : list Layer.t) (l : nat) : result Dense :=
  nextLayer <- deref (nth_error layers (l + 1)) ;;
  nextYdiff <- deref (Layer.Ydiff nextLayer) ;;
  nextHgrad <- deref (Layer.Hgrad nextLayer) ;;
  D <- Mul (mkDense 0 0 []) (M nextYdiff)
           (MatFirstColumnRemoved (T (M (Layer.Theta nextLayer)))) ;;
  MulElem D (M D) (M nextHgrad).

(** Cell (0,0) of the hidden layer's delta buffer after the square loss,
    next to cell (0,0) of [specDelta]. *)
Definition hiddenDeltaObserved : result (float * float) :=
  d <- deref (Layer.Ydiff hiddenL2) ;;
  c <- specDelta (MLPRegressor.Layers regrH1) 0 ;;
  Ok (DenseAt d 0 0, DenseAt c 0 0).

(** A layer with weights [[0],[2]] (bias row first) and a zero gradient, in
    a regressor with Alpha = 1 and L1Ratio = 1/2. *)
Definition regrR : MLPRegressor.t :=
  MLPRegressor.mk false (Some (fun _ => sgd)) "" "identity" [] [] 1 0.5 0 1 0 "square" 0 0.
Definition layerR : Layer.t :=
  Layer.mk "identity" None None None None None
           (mkDense 2 1 [0; 2]%float) (mkDense 2 1 [0; 0]%float) (mkDense 2 1 [0; 0]%float) sgd.

(** The gradient cell of the weight 2 and the loss after [regularize] with
    one sample, with what the elastic-net formulas give for them. *)
Definition regularizeObserved : result (float * float * float * float) :=
  '(L, J) <- regularize regrR 1 layerR 0%float ;;
  Ok (DenseAt (Layer.Grad L) 1 0, (1 * 0.5 / 1 * sgn 2 + 1 * (1 - 0.5) / 1 * 2)%float,
      J, (1 * 0.5 / 1 * PrimFloat.abs 2 + 1 * (1 - 0.5) / (2 * 1) * (2 * 2))%float).

(** A regressor clipping at 1, and a layer whose gradient is the single
    cell [g]. *)
Definition regrC : MLPRegressor.t :=
  MLPRegressor.mk false (Some (fun _ => sgd)) "" "identity" [] [] 0 0 1 1 0 "square" 0 0.
Definition layerC (g : float) : Layer.t :=
  Layer.mk "identity" None None None None None
           (mkDense 1 1 [0]%float) (mkDense 1 1 [g]) (mkDense 1 1 [0]%float) sgd.

(** A layer whose gradient is the 2x1 matrix of the two given cells. *)
Definition layerG (g1 g2 : float) : Layer.t :=
  Layer.mk "identity" None None None None None
           (mkDense 2 1 [0; 0]%float) (mkDense 2 1 [g1; g2]) (mkDense 2 1 [0; 0]%float) sgd.

(** The norm of that gradient, the cells of the gradient after
    [clipGradient] at threshold 1, and their norm. *)
Definition clipObserved2 (g1 g2 : float) : result (float * list float * float) :=
  L <- clipGradient regrC (layerG g1 g2) ;;
  Ok (Norm2 (M (Layer.Grad (layerG g1 g2))), cells (Layer.Grad L), Norm2 (M (Layer.Grad L))).


(** The activation of the output layer [allocLayers] builds for the
    classifier made by [NewMLPClassifier [4] "relu" "" 0], with its loss. *)
Definition classifierHead : result (string * string * string) :=
  let clf := NewMLPClassifier [4] "relu" "" 0%float in
  '(r, _) <- allocLayers (embedded clf) 2 1 0 ;;
  L <- lastLayer (MLPRegressor.Layers r) ;;
  Ok (MLPRegressor.Loss r, MLPRegressor.LossName r, Layer.Activation L).

(** Whether that allocation returns. *)
Definition classifierHeadRuns : result unit :=
  '(_, _) <- allocLayers (embedded (NewMLPClassifier [4] "relu" "" 0%float)) 2 1 0 ;; Ok tt.

(** What a run keeps: [Epochs], [JFirst], [J] and the per-epoch losses. *)
Definition runSummary (r : result (FitState * list float))
  : result (Z * float * float * list float) :=
  '(s, Js) <- r ;;
  Ok (MLPRegressor.Epochs (fs_regr s), MLPRegressor.JFirst (fs_regr s),
      MLPRegressor.J (fs_regr s), Js).

(** A classifier with one identity layer computing 1/2 - x/4. *)
Definition clf0 : MLPClassifier :=
  mkClassifier
    (MLPRegressor.mk false (Some (fun _ => sgd)) "" "identity" []
       [Layer.mk "identity" None None None None None
                 (mkDense 2 1 [0.5; -0.25]%float) (mkDense 2 1 [0; 0]%float)
                 (mkDense 2 1 [0; 0]%float) sgd]
       0 0 0 1 0 "log" 0 0).
Definition Xc : Dense := mkDense 3 1 [0; 1; -4]%float.
Definition Yc : Dense := mkDense 3 1 [7; 7; 7]%float.

(** The states of the run of [regrE] on [X3], [Y3]: one identity layer of
    two weights, before the first epoch (no buffer yet) and after an epoch
    (every buffer allocated for the three samples). *)
Definition demoLayer (ytrue z nx yd hg : option Dense) (th gr up : list float) : Layer.t :=
  Layer.mk "identity" ytrue z nx yd hg (mkDense 2 1 th) (mkDense 2 1 gr) (mkDense 2 1 up) sgd.

Definition demoState (L : Layer.t) (J JF : float) (E : Z) : FitState :=
  mkFitState (MLPRegressor.mk false (Some (fun _ => sgd)) "" "identity" [] [L]
                              0 0 0 E 0 "square" JF J) X3 Y3 2.

Definition untrainedState (E : Z) : FitState :=
  demoState (demoLayer None None None None None [0.5; -0.25]%float [0; 0]%float [0; 0]%float)
            infinity 0%float E.

Definition trainedState (ytrue z nx yd hg th gr up : list float) (J JF : float) (E : Z)
  : FitState :=
  demoState (demoLayer (Some (mkDense 3 1 ytrue)) (Some (mkDense 3 1 z))
                       (Some (mkDense 3 2 nx)) (Some (mkDense 3 1 yd))
                       (Some (mkDense 3 1 hg)) th gr up) J JF E.

(** The lengths of the storage of a trained state. *)
Definition sized (ytrue z nx yd hg th gr up : list float) : Prop :=
  List.length ytrue = 3 /\ List.length z = 3 /\ List.length nx = 6
  /\ List.length yd = 3 /\ List.length hg = 3
  /\ List.length th = 2 /\ List.length gr = 2 /\ List.length up = 2.

(** The number of layers after a forward pass of [clf0] over [Xc]. *)
Definition forwardObserved : result nat :=
  '(r, _, _) <- predictZH (embedded clf0) (M Xc) None None false ;;
  Ok (List.length (MLPRegressor.Layers r)).

(** The labels the classifier's [Predict] leaves in [Yc]. *)
Definition classifierObserved : result (list float) :=
  '(_, Y') <- MLPClassifier_Predict clf0 Xc Yc ;; Ok (data Y').

(** The score of the regressor inside [clf0], and what it leaves in [Yc]. *)
Definition scoreObserved : result (float * list float) :=
  '(s, _, Y') <- Score (embedded clf0) Xc Yc ;; Ok (s, data Y').

(** The classifier of [NewMLPClassifier [4] "relu" "" 0] as [allocLayers]
    leaves it for two features and one output, with the random source. *)
Definition clfAlloc : MLPRegressor.t * Rand :=
  get (regrH, 0) (allocLayers (embedded (NewMLPClassifier [4] "relu" "" 0%float)) 2 1 0).

(** [regrH] after allocation and one forward pass over [Xh]. *)
Definition afterForward : result MLPRegressor.t :=
  '(r0, _) <- allocLayers regrH 1 1 0 ;;
  '(r1, _, _) <- predictZH r0 (M Xh) None None true ;; Ok r1.
Definition regrF : MLPRegressor.t := get regrH afterForward.

(** The backward pass over ([Xh], [Yh]) from there. *)
Definition regrB : MLPRegressor.t * float :=
  get (regrH, 0%float) (backprop regrF (M Xh) (M Yh) 0 1 1).

(** The forward pass of [clf0] over [Xc]. *)
Definition clf0Forward : MLPRegressor.t * option Dense * option Dense :=
  get (embedded clf0, None, None) (predictZH (embedded clf0) (M Xc) None None false).

(** The hidden layer after [computeGrad], and the layer of gradient 49
    after [applyUpdate]. *)
Definition hiddenL3 : Layer.t := get layer0 (computeGrad hiddenL2 (M Xh)).
Definition layerC' : Layer.t := get layer0 (applyUpdate (layerC 49)).

(** [regrE 0] as [allocLayers] leaves it for one feature and one output. *)
Definition allocatedE : MLPRegressor.t :=
  fs_regr (demoState (demoLayer None None None None None
                                [0.5; -0.25]%float [0; 0]%float [0; 0]%float) 0%float 0%float 0).

(** A training set of 1000001 samples of one feature. *)
Definition bigX : Dense := mkDense (Z.to_nat 1000001) 1 (repeat 0%float (Z.to_nat 1000001)).
Definition bigY : Dense := mkDense (Z.to_nat 1000001) 1 (repeat 0%float (Z.to_nat 1000001)).

(** Allocation once [SetOptimizer] has installed [sgd]. *)
Definition regrS : MLPRegressor.t * Rand :=
  get (regrH, 0) (allocLayers (SetOptimizer (fun _ => sgd) regrH) 1 1 0).

(** The one-epoch run of [regrH] on ([Xh], [Yh]) and the two-epoch run of
    [regrE 2] on ([X3], [Y3]). *)
Definition fitH : FitState * list float :=
  get (untrainedState 0, []) (Fit regrH Xh Yh 0).
Definition fitE2 : FitState * list float :=
  get (untrainedState 0, []) (Fit (regrE 2) X3 Y3 0).

(** Two samples of two features with their targets, and a ragged pair of
    rows. *)
Definition Xl2 : list (list float) := [[1; 2]; [3; 6]]%float.
Definition yl2 : list float := [1; 3]%float.
Definition Xragged : list (list float) := [[1; 2]; [3]]%float.

(** What [preprocess_data] returns for them, centred and not normalized. *)
Definition centredXl2
  : list (list float) * list float * list float * float * list float :=
  get ([], [], [], 0%float, []) (linear_model.preprocess_data Xl2 yl2 true false).

(** Insertion sort, standing for [sort.Slice]. *)
Fixpoint insertBy (less : nat -> nat -> bool) (x : nat) (l : list nat) : list nat :=
  match l with
  | [] => [x]
  | h :: t => if less h x then h :: insertBy less x t else x :: h :: t
  end.
Definition isort (less : nat -> nat -> bool) (l : list nat) : list nat :=
  fold_right (insertBy less) [] l.

(** Three samples with labels 1, 0, 1: scored 0.25, 0.75, 0.5, and all
    scored 0.5. *)
Definition Ylabels : Dense := mkDense 3 1 [1; 0; 1]%float.
Definition Yscores : Dense := mkDense 3 1 [0.25; 0.75; 0.5]%float.
Definition Ytied : Dense := mkDense 3 1 [0.5; 0.5; 0.5]%float.
Definition Ynone : Dense := mkDense 0 0 [].

(** The ROC curve of the first scores, positive label 1, no weights. *)
Definition rocDemo : list float * list float * list float :=
  get ([], [], []) (metrics.ROCCurve isort Ylabels Yscores 1 None).

End Demo.

(** * Properties *)

(** ** The result monad *)

Lemma bind_Ok_inv {A B : Type} (m : result A) (k : A -> result B) (b : B) :
  bind m k = Ok b -> exists a, m = Ok a /\ k a = Ok b.
Proof.
  destruct m as [a| |]; simpl; intros H; try discriminate.
  exists a; auto.
Qed.

Lemma deref_Ok_inv {A : Type} (o : option A) (a : A) : deref o = Ok a -> o = Some a.
Proof. destruct o; simpl; congruence. Qed.

(** Peel the first bind of a successful computation. *)
Tactic Notation "inv_bind" hyp(H) "as" simple_intropattern(x) ident(E) :=
  apply bind_Ok_inv in H; destruct H as (x & E & H).

(** ** Flat storage *)

Lemma set_nth_length {A : Type} (n : nat) (x : A) (l : list A) :
  List.length (set_nth n x l) = List.length l.
Proof.
  revert n; induction l as [|h t IH]; intros [|n]; simpl; auto.
Qed.

Lemma nth_set_nth_same {A : Type} (n : nat) (x d : A) (l : list A) :
  n < List.length l -> nth n (set_nth n x l) d = x.
Proof.
  revert n; induction l as [|h t IH]; intros [|n]; simpl; intros Hn; try lia; auto.
  apply IH; lia.
Qed.

Lemma nth_set_nth_other {A : Type} (n m : nat) (x d : A) (l : list A) :
  n <> m -> nth m (set_nth n x l) d = nth m l d.
Proof.
  revert n m; induction l as [|h t IH]; intros [|n] [|m]; simpl; intros Hn;
    try congruence; auto.
Qed.

Lemma tab_rows_length (c : nat) (f : nat -> nat -> float) :
  forall r from,
    List.length (flat_map (fun i => map (f i) (seq 0 c)) (seq from r)) = r * c.
Proof.
  induction r as [|r IH]; intros from; simpl; auto.
  rewrite length_app, length_map, length_seq, IH. reflexivity.
Qed.

Lemma tab_length (r c : nat) (f : nat -> nat -> float) : List.length (tab r c f) = r * c.
Proof. apply tab_rows_length. Qed.

(** Row [i] of [tab] starts at offset [i*c]. *)
Lemma tab_rows_nth (c : nat) (f : nat -> nat -> float) (d : float) :
  forall r from i j, i < r -> j < c ->
    nth (i * c + j) (flat_map (fun i => map (f i) (seq 0 c)) (seq from r)) d = f (from + i) j.
Proof.
  induction r as [|r IH]; intros from i j Hi Hj; [lia|].
  simpl. destruct i as [|i].
  - simpl. rewrite app_nth1 by (rewrite length_map, length_seq; lia).
    rewrite (nth_indep _ d (f from 0)) by (rewrite length_map, length_seq; lia).
    rewrite map_nth, seq_nth by lia. f_equal; lia.
  - rewrite app_nth2 by (rewrite length_map, length_seq; simpl; lia).
    rewrite length_map, length_seq.
    replace (S i * c + j - c) with (i * c + j) by (simpl; lia).
    rewrite IH by lia. f_equal; lia.
Qed.

Lemma tab_nth (r c : nat) (f : nat -> nat -> float) (i j : nat) (d : float) :
  i < r -> j < c -> nth (i * c + j) (tab r c f) d = f i j.
Proof. intros Hi Hj. unfold tab. rewrite tab_rows_nth by assumption. reflexivity. Qed.

Lemma cell_in_range (r c i j : nat) : i < r -> j < c -> i * c + j < r * c.
Proof. intros Hi Hj. nia. Qed.

Lemma fill_At (m : Dense) (f : nat -> nat -> float) (i j : nat) :
  i < rows m -> j < cols m -> DenseAt (fill m f) i j = f i j.
Proof.
  intros Hi Hj. unfold DenseAt, fill; simpl.
  rewrite app_nth1 by (rewrite tab_length; apply cell_in_range; assumption).
  apply tab_nth; assumption.
Qed.

Lemma repeat_zero_At (r c i j : nat) : DenseAt (NewDenseNil r c) i j = 0%float.
Proof.
  unfold DenseAt, NewDenseNil; simpl.
  destruct (Nat.lt_ge_cases (i * c + j) (r * c)) as [H|H].
  - apply nth_repeat_lt; assumption.
  - apply nth_overflow. rewrite repeat_length. assumption.
Qed.

(** ** Layer buffers after [initOutputs] *)

Section InitOutputs.

Lemma mk_dims (s : option Dense) (r c : nat) :
  rows (mk s r c) = r /\ cols (mk s r c) = c /\ r * c <= List.length (data (mk s r c)).
Proof.
  unfold mk. destruct s as [d|]; simpl.
  - destruct (Nat.ltb_spec (List.length (data d)) (r * c)); simpl;
      rewrite ?repeat_length; auto.
  - rewrite repeat_length; auto.
Qed.

Lemma mk_shaped (s : option Dense) (r c : nat) : shaped (Some (mk s r c)) r c.
Proof. exists (mk s r c). destruct (mk_dims s r c) as (? & ? & ?). auto. Qed.

(** The loop of [initOutputs] never leaves the matrix, keeps its shape and
    leaves 1.0 in column 0 of the rows it visits. *)
Lemma setOnes_spec (n : nat) :
  forall (nx : Dense) (from : nat),
    from + n <= rows nx -> 0 < cols nx -> rows nx * cols nx <= List.length (data nx) ->
    exists nx', setOnes nx from n = Ok nx'
      /\ rows nx' = rows nx /\ cols nx' = cols nx
      /\ List.length (data nx') = List.length (data nx)
      /\ (forall i, from <= i < from + n -> DenseAt nx' i 0 = 1%float)
      /\ (forall i, i < from -> DenseAt nx' i 0 = DenseAt nx i 0).
Proof.
  induction n as [|n IH]; intros nx from Hr Hc Hl; simpl.
  - exists nx. repeat split; auto. intros i Hi; lia.
  - unfold Set_.
    destruct (Nat.ltb_spec from (rows nx)) as [Hf|Hf]; [|lia].
    destruct (Nat.ltb_spec 0 (cols nx)) as [_|Hc']; [|lia].
    simpl.
    set (nx1 := mkDense (rows nx) (cols nx)
                        (set_nth (from * cols nx + 0) 1%float (data nx))).
    destruct (IH nx1 (S from)) as (nx' & Hrun & Hr' & Hc'' & Hl' & Hones & Hkeep).
    + simpl; lia.
    + simpl; lia.
    + simpl. rewrite set_nth_length. assumption.
    + exists nx'. simpl in *. rewrite set_nth_length in Hl'.
      repeat split; auto.
      * intros i Hi. destruct (Nat.eq_dec i from) as [->|Hne].
        -- rewrite Hkeep by lia. unfold DenseAt, nx1; simpl.
           apply nth_set_nth_same.
           pose proof (cell_in_range (rows nx) (cols nx) from 0 Hf Hc). lia.
        -- apply Hones. lia.
      * intros i Hi. rewrite Hkeep by lia. unfold DenseAt, nx1; simpl.
        apply nth_set_nth_other. nia.
Qed.

(** The augmented-input buffer after the closure [mk] and the loop of
    [initOutputs]: the loop returns, the shape is [b] by [1 + c], and
    column 0 holds 1.0. *)
Lemma NextX1_ones (s : option Dense) (b c : nat) :
  exists nx, setOnes (mk s b (1 + c)) 0 b = Ok nx
    /\ rows nx = b /\ cols nx = 1 + c
    /\ forall i, i < b -> DenseAt nx i 0 = 1%float.
Proof.
  destruct (mk_dims s b (1 + c)) as (Hr & Hc & Hl).
  destruct (setOnes_spec b (mk s b (1 + c)) 0)
    as (nx & Hrun & Hr' & Hc' & _ & Hones & _).
  - rewrite Hr; lia.
  - rewrite Hc; lia.
  - rewrite Hr, Hc; assumption.
  - exists nx. split; [assumption|].
    split; [exact (eq_trans Hr' Hr)|]. split; [exact (eq_trans Hc' Hc)|].
    intros i Hi. apply Hones. lia.
Qed.

End InitOutputs.

(** C9.  After [initOutputs] with batch size [b] and [nOutputs] output
    columns (which never panics), whatever the layer's buffers held before:
    Ytrue, Z, Ydiff and Hgrad have exactly [b] rows and [nOutputs] columns,
    the augmented-input buffer NextX1 has [b] rows and [1 + nOutputs]
    columns, and column 0 of NextX1 holds exactly 1.0 in every row. *)
Theorem initOutputs_shape_law
    (L : Layer.t) (b nOutputs : nat) (prevLayer : option Layer.t) :
  exists L', initOutputs L b nOutputs prevLayer = Ok L'
    /\ shaped (Layer.Ytrue L') b nOutputs
    /\ shaped (Layer.Z L') b nOutputs
    /\ shaped (Layer.Ydiff L') b nOutputs
    /\ shaped (Layer.Hgrad L') b nOutputs
    /\ exists nx, Layer.NextX1 L' = Some nx
         /\ rows nx = b /\ cols nx = 1 + nOutputs
         /\ forall i, i < b -> DenseAt nx i 0 = 1%float.
Proof.
  unfold initOutputs.
  destruct (NextX1_ones (Layer.NextX1 L) b nOutputs) as (nx & Hrun & Hr & Hc & Hones).
  rewrite Hrun. simpl. eexists. split; [reflexivity|]. simpl.
  repeat (split; [apply mk_shaped|]).
  exists nx. split; [reflexivity|]. split; [assumption|]. split; [assumption|].
  exact Hones.
Qed.

(** ** Comparisons of binary64 numbers *)

Lemma SFcompare_Lt_swap (a b : SpecFloat.spec_float) :
  SpecFloat.SFcompare a b = Some Lt -> SpecFloat.SFcompare b a = Some Gt.
Proof.
  destruct a as [sa|sa| |sa ma ea], b as [sb|sb| |sb mb eb]; simpl;
    try discriminate;
    try (destruct sa; simpl; congruence);
    try (destruct sb; simpl; congruence);
    try (destruct sa, sb; simpl; congruence).
  pose proof (Pos.compare_cont_antisym ma mb Eq) as Hm. simpl in Hm.
  destruct sa, sb; simpl; try congruence;
    rewrite (Z.compare_antisym ea eb);
    destruct (ea ?= eb)%Z; simpl; try congruence;
    rewrite <- Hm; destruct (Pos.compare_cont Eq ma mb); simpl; congruence.
Qed.

(** [y < x] excludes [x <= y], also for infinities, zeros and NaN. *)
Lemma ltb_excludes_leb (x y : float) : (y <? x)%float = true -> (x <=? y)%float = false.
Proof.
  rewrite FloatAxioms.ltb_spec, FloatAxioms.leb_spec. unfold SpecFloat.SFltb, SpecFloat.SFleb.
  destruct (SpecFloat.SFcompare (Prim2SF y) (Prim2SF x)) as [[ | | ]|] eqn:E;
    try discriminate.
  intros _. rewrite (SFcompare_Lt_swap _ _ E). reflexivity.
Qed.

(** ** The classifier's hard labels *)

Lemma threshold_cases (y : float) :
  (threshold y = 0%float \/ threshold y = 1%float)
  /\ ((0.5 <=? y)%float = true -> threshold y = 1%float)
  /\ ((y <? 0.5)%float = true -> threshold y = 0%float).
Proof.
  unfold threshold. split; [|split].
  - destruct (0.5 <=? y)%float; auto.
  - intros ->. reflexivity.
  - intros H. rewrite (ltb_excludes_leb _ _ H). reflexivity.
Qed.

Lemma reuseAs_self (m : Dense) :
  exists m', reuseAs m (rows m) (cols m) = Ok m'
    /\ rows m' = rows m /\ cols m' = cols m.
Proof.
  unfold reuseAs. destruct (cols m =? 0) eqn:Ec.
  - eexists; split; [reflexivity|]. simpl. auto.
  - rewrite !Nat.eqb_refl. simpl. exists m. auto.
Qed.

(** [m.Apply(fn, m)] succeeds, keeps the shape and maps every cell. *)
Lemma Apply_self (m : Dense) (fn : nat -> nat -> float -> float) :
  exists m', Apply m fn (M m) = Ok m'
    /\ rows m' = rows m /\ cols m' = cols m
    /\ forall i j, i < rows m -> j < cols m -> DenseAt m' i j = fn i j (DenseAt m i j).
Proof.
  unfold Apply. simpl.
  destruct (reuseAs_self m) as (m1 & E & Hr & Hc). rewrite E. simpl.
  eexists; split; [reflexivity|]. simpl. repeat split; auto.
  intros i j Hi Hj. rewrite fill_At by lia. reflexivity.
Qed.

(** C8.  Whenever the classifier's [Predict] returns, the matrix it leaves
    in [Y] has, cell by cell, the thresholded value of what the forward
    pass had copied there ([Yraw]): every cell is 0 or 1, a raw value
    [>= 0.5] (0.5 included) gives 1, and a raw value [< 0.5] gives 0. *)
Theorem classifier_predict_hard_labels `{env : Collaborators}
    (clf clf' : MLPClassifier) (X Y Y' : Dense) :
  MLPClassifier_Predict clf X Y = Ok (clf', Y') ->
  exists Zout Yraw,
    predictZH (embedded clf) (M X) None (Some Y) false = Ok (embedded clf', Zout, Some Yraw)
    /\ rows Y' = rows Yraw /\ cols Y' = cols Yraw
    /\ forall i j, i < rows Y' -> j < cols Y' ->
         (DenseAt Y' i j = 0%float \/ DenseAt Y' i j = 1%float)
         /\ ((0.5 <=? DenseAt Yraw i j)%float = true -> DenseAt Y' i j = 1%float)
         /\ ((DenseAt Yraw i j <? 0.5)%float = true -> DenseAt Y' i j = 0%float).
Proof.
  unfold MLPClassifier_Predict. intros H.
  inv_bind H as [[regr' Zout] Yout] Efwd.
  inv_bind H as Y1 EY. apply deref_Ok_inv in EY. subst Yout.
  inv_bind H as Y2 EA. injection H as <- <-.
  destruct (Apply_self Y1 (fun _ _ y => threshold y)) as (m' & Em & Hr & Hc & Hat).
  rewrite Em in EA. injection EA as <-.
  exists Zout, Y1. simpl. split; [assumption|]. split; [assumption|]. split; [assumption|].
  intros i j Hi Hj. rewrite Hat by lia. apply threshold_cases.
Qed.

(** ** What [Score] hands to the metric *)

Lemma Copy_At (m : Dense) (a : Matrix) (i j : nat) :
  i < rows m -> j < cols m -> i < fst (Dims a) -> j < snd (Dims a) ->
  DenseAt (Copy m a) i j = At a i j.
Proof.
  intros Hi Hj Hi' Hj'. unfold Copy. rewrite fill_At by assumption.
  destruct (Nat.ltb_spec i (Nat.min (rows m) (fst (Dims a)))) as [_|H]; [|lia].
  destruct (Nat.ltb_spec j (Nat.min (cols m) (snd (Dims a)))) as [_|H]; [|lia].
  reflexivity.
Qed.

(** C10.  Whenever [Score regr X Y] returns: the matrix left in the
    caller's [Y] is the one [Predict regr X Y] leaves there, namely [Y]
    with the output layer's prediction copied over it; and the score is the
    metric (R2Score when the loss is "square", AccuracyScore otherwise)
    applied to that overwritten [Y] as truth and, as prediction, to a fresh
    matrix of the shape of [Y] all of whose cells are zero. *)
Theorem Score_overwrites_Y_and_scores_zeros `{env : Collaborators}
    (regr regr' : MLPRegressor.t) (X Y Y' : Dense) (s : float) :
  Score regr X Y = Ok (s, regr', Y') ->
  Predict regr X Y = Ok (regr', Y')
  /\ (exists L yp, lastLayer (MLPRegressor.Layers regr') = Ok L
        /\ Layer.Ypred L = Some yp
        /\ Y' = Copy Y yp
        /\ forall i j, i < rows Y -> j < cols Y ->
                       i < fst (Dims yp) -> j < snd (Dims yp) ->
                       DenseAt Y' i j = At yp i j)
  /\ (forall i j, DenseAt (NewDenseNil (rows Y) (cols Y)) i j = 0%float)
  /\ s = if String.eqb (MLPRegressor.Loss regr) "square"
         then R2Score Y' (NewDenseNil (rows Y) (cols Y))
         else AccuracyScore Y' (NewDenseNil (rows Y) (cols Y)).
Proof.
  unfold Score. intros H.
  inv_bind H as [r1 Y1] EP.
  assert (Hout : r1 = regr' /\ Y1 = Y'
                 /\ s = if String.eqb (MLPRegressor.Loss r1) "square"
                        then R2Score Y1 (NewDenseNil (rows Y) (cols Y))
                        else AccuracyScore Y1 (NewDenseNil (rows Y) (cols Y))).
  { destruct (String.eqb (MLPRegressor.Loss r1) "square");
      injection H as <- <- <-; auto. }
  clear H. destruct Hout as (<- & <- & Hs).
  split; [assumption|].
  unfold Predict, predictZH in EP.
  inv_bind EP as [[r2 Zo] Yo] EZ.
  inv_bind EZ as [ls Zo'] Efwd.
  inv_bind EZ as Yo' EY.
  injection EZ as <- <- <-.
  inv_bind EY as L EL. inv_bind EY as yp Eyp. injection EY as <-.
  apply deref_Ok_inv in Eyp.
  inv_bind EP as Y2 EY2. simpl in EY2. injection EY2 as <-.
  injection EP as <-. subst Y1.
  split; [|split].
  - exists L, yp. simpl. repeat split; auto.
    intros i j Hi Hj Hi' Hj'. apply Copy_At; assumption.
  - intros i j. apply repeat_zero_At.
  - destruct regr; exact Hs.
Qed.

(** ** Training never touches the configuration *)

Lemma same_settings_refl (r : MLPRegressor.t) : same_settings r r.
Proof. unfold same_settings; repeat split. Qed.

Lemma same_settings_trans (r1 r2 r3 : MLPRegressor.t) :
  same_settings r1 r2 -> same_settings r2 r3 -> same_settings r1 r3.
Proof.
  unfold same_settings.
  intros (A1 & A2 & A3 & A4 & A5 & A6 & A7) (B1 & B2 & B3 & B4 & B5 & B6 & B7).
  repeat split; congruence.
Qed.

Lemma set_Layers_settings (ls : list Layer.t) (r : MLPRegressor.t) :
  same_settings r (MLPRegressor.set_Layers ls r).
Proof. unfold same_settings; repeat split. Qed.

Lemma set_J_settings (x : float) (r : MLPRegressor.t) :
  same_settings r (MLPRegressor.set_J x r).
Proof. unfold same_settings; repeat split. Qed.

Lemma set_JFirst_settings (x : float) (r : MLPRegressor.t) :
  same_settings r (MLPRegressor.set_JFirst x r).
Proof. unfold same_settings; repeat split. Qed.

Create HintDb settings.
#[local] Hint Resolve same_settings_refl set_Layers_settings set_J_settings
  set_JFirst_settings : settings.

Lemma only_layers_refl (r : MLPRegressor.t) : only_layers r r.
Proof. destruct r; reflexivity. Qed.

Lemma only_layers_set (ls : list Layer.t) (r : MLPRegressor.t) :
  only_layers r (MLPRegressor.set_Layers ls r).
Proof. reflexivity. Qed.

Lemma only_layers_trans (r1 r2 r3 : MLPRegressor.t) :
  only_layers r1 r2 -> only_layers r2 r3 -> only_layers r1 r3.
Proof. unfold only_layers. intros H12 H23. rewrite H23, H12. reflexivity. Qed.

Lemma only_layers_settings (r r' : MLPRegressor.t) :
  only_layers r r' -> same_settings r r'.
Proof. intros ->. apply set_Layers_settings. Qed.

Lemma only_layers_JFirst (r r' : MLPRegressor.t) :
  only_layers r r' -> MLPRegressor.JFirst r' = MLPRegressor.JFirst r.
Proof. intros ->. reflexivity. Qed.

#[local] Hint Resolve only_layers_refl only_layers_set : settings.

Section Settings.
Context `{env : Collaborators}.
Variable skipReg : bool.

Lemma predictZH_frame regr X Zout Yout fitting regr' Zout' Yout' :
  predictZH regr X Zout Yout fitting = Ok (regr', Zout', Yout') ->
  only_layers regr regr'.
Proof.
  unfold predictZH. intros H.
  inv_bind H as [ls Zo] E1. inv_bind H as Yo E2. injection H as <- _ _.
  auto with settings.
Qed.

Lemma backpropLayer_frame regr X Y mbp nSamples l J regr' J' :
  backpropLayer skipReg regr X Y mbp nSamples l J = Ok (regr', J') ->
  only_layers regr regr'.
Proof.
  unfold backpropLayer. intros H.
  inv_bind H as L E1. inv_bind H as Xl E2. inv_bind H as L1 E3.
  inv_bind H as [L2 J1] E4. inv_bind H as L3 E5. inv_bind H as [L4 J2] E6.
  inv_bind H as L5 E7. inv_bind H as L6 E8. injection H as <- _.
  auto with settings.
Qed.

Lemma backpropFrom_frame n :
  forall regr X Y mbp nSamples J regr' J',
    backpropFrom skipReg n regr X Y mbp nSamples J = Ok (regr', J') ->
    only_layers regr regr'.
Proof.
  induction n as [|l IH]; simpl; intros regr X Y mbp nSamples J regr' J' H.
  - injection H as <- _. auto with settings.
  - inv_bind H as [r1 J1] E1.
    eapply only_layers_trans; [eapply backpropLayer_frame; eassumption|].
    eapply IH; eassumption.
Qed.

Lemma fitMiniBatch_frame regr Xm Ym epoch len nSamples regr' J' :
  fitMiniBatchGen skipReg regr Xm Ym epoch len nSamples = Ok (regr', J') ->
  only_layers regr regr'.
Proof.
  unfold fitMiniBatchGen, backpropGen. intros H.
  inv_bind H as [[r1 Zo] Yo] E1.
  eapply only_layers_trans; [eapply predictZH_frame; eassumption|].
  eapply backpropFrom_frame; eassumption.
Qed.

Lemma miniBatches_frame fuel :
  forall regr Xf Yf epoch nS nF nO st en Jsum regr' Jsum',
    miniBatches skipReg fuel regr Xf Yf epoch nS nF nO st en Jsum = Ok (regr', Jsum') ->
    only_layers regr regr'.
Proof.
  induction fuel as [|fuel IH];
    intros regr Xf Yf epoch nS nF nO st en Jsum regr' Jsum' H; simpl in H;
    destruct (st <? nS); try discriminate;
    try (injection H as <- _; auto with settings; fail).
  inv_bind H as Xm E1. inv_bind H as Ym E2. inv_bind H as [r1 Jm] E3.
  eapply only_layers_trans; [eapply fitMiniBatch_frame; eassumption|].
  eapply IH; eassumption.
Qed.

Lemma predictZH_settings regr X Zout Yout fitting regr' Zout' Yout' :
  predictZH regr X Zout Yout fitting = Ok (regr', Zout', Yout') ->
  same_settings regr regr'.
Proof. intros H. eapply only_layers_settings, predictZH_frame, H. Qed.

Lemma backpropLayer_settings regr X Y mbp nSamples l J regr' J' :
  backpropLayer skipReg regr X Y mbp nSamples l J = Ok (regr', J') ->
  same_settings regr regr'.
Proof. intros H. eapply only_layers_settings, backpropLayer_frame, H. Qed.

Lemma fitMiniBatch_settings regr Xm Ym epoch len nSamples regr' J' :
  fitMiniBatchGen skipReg regr Xm Ym epoch len nSamples = Ok (regr', J') ->
  same_settings regr regr'.
Proof. intros H. eapply only_layers_settings, fitMiniBatch_frame, H. Qed.

Lemma fitEpoch_settings s epoch s' Jsum :
  fitEpochGen skipReg s epoch = Ok (s', Jsum) ->
  same_settings (fs_regr s) (fs_regr s').
Proof.
  unfold fitEpochGen. intros H.
  inv_bind H as [[Xf Yf] g] E1. inv_bind H as [r1 J1] E2.
  injection H as <- _. simpl.
  eapply same_settings_trans;
    [eapply only_layers_settings, miniBatches_frame; eassumption|].
  destruct (epoch =? 1)%Z;
    [eapply same_settings_trans; [apply set_J_settings|apply set_JFirst_settings]
    |apply set_J_settings].
Qed.

End Settings.

(** ** Regularization switched off *)

Section NoRegularization.
Context `{env : Collaborators}.

(** With [Alpha > 0] false the block of lines 292-310 is not entered. *)
Lemma regularize_off regr nSamples L J :
  (0 <? MLPRegressor.Alpha regr)%float = false ->
  regularize regr nSamples L J = Ok (L, J).
Proof. unfold regularize. intros ->. reflexivity. Qed.

Lemma backpropLayer_off regr X Y mbp nSamples l J :
  (0 <? MLPRegressor.Alpha regr)%float = false ->
  backpropLayer false regr X Y mbp nSamples l J
  = backpropLayer true regr X Y mbp nSamples l J.
Proof.
  intros HA. unfold backpropLayer.
  destruct (deref (nth_error (MLPRegressor.Layers regr) l)) as [L| |]; simpl; auto.
  destruct (if l =? 0 then Ok X else _) as [Xl| |]; simpl; auto.
  destruct (computeYdiff _ l L Y) as [L1| |]; simpl; auto.
  destruct (computeLoss regr l L1 _ mbp J) as [[L2 J1]| |]; simpl; auto.
  destruct (computeGrad L2 Xl) as [L3| |]; simpl; auto.
  rewrite regularize_off by assumption. reflexivity.
Qed.

Lemma backpropFrom_off n :
  forall regr X Y mbp nSamples J,
    (0 <? MLPRegressor.Alpha regr)%float = false ->
    backpropFrom false n regr X Y mbp nSamples J
    = backpropFrom true n regr X Y mbp nSamples J.
Proof.
  induction n as [|l IH]; simpl; intros regr X Y mbp nSamples J HA; auto.
  rewrite backpropLayer_off by assumption.
  destruct (backpropLayer true regr X Y mbp nSamples l J) as [[r1 J1]| |] eqn:E;
    simpl; auto.
  apply IH. apply backpropLayer_settings in E.
  destruct E as (_ & -> & _). assumption.
Qed.

Lemma fitMiniBatch_off regr Xm Ym epoch len nSamples :
  (0 <? MLPRegressor.Alpha regr)%float = false ->
  fitMiniBatchGen false regr Xm Ym epoch len nSamples
  = fitMiniBatchGen true regr Xm Ym epoch len nSamples.
Proof.
  intros HA. unfold fitMiniBatchGen, backpropGen.
  destruct (predictZH regr (M Xm) None None true) as [[[r1 Zo] Yo]| |] eqn:E;
    simpl; auto.
  apply backpropFrom_off. apply predictZH_settings in E.
  destruct E as (_ & -> & _). assumption.
Qed.

Lemma miniBatches_off fuel :
  forall regr Xf Yf epoch nS nF nO st en Jsum,
    (0 <? MLPRegressor.Alpha regr)%float = false ->
    miniBatches false fuel regr Xf Yf epoch nS nF nO st en Jsum
    = miniBatches true fuel regr Xf Yf epoch nS nF nO st en Jsum.
Proof.
  induction fuel as [|fuel IH]; intros regr Xf Yf epoch nS nF nO st en Jsum HA;
    simpl; auto.
  destruct (st <? nS); auto.
  destruct (Slice Xf st en 0 nF) as [Xm| |]; simpl; auto.
  destruct (Slice Yf st en 0 nO) as [Ym| |]; simpl; auto.
  rewrite fitMiniBatch_off by assumption.
  destruct (fitMiniBatchGen true regr Xm Ym epoch (en - st) nS) as [[r1 Jm]| |] eqn:E;
    simpl; auto.
  apply IH. apply fitMiniBatch_settings in E.
  destruct E as (_ & -> & _). assumption.
Qed.

Lemma fitEpoch_off s epoch :
  (0 <? MLPRegressor.Alpha (fs_regr s))%float = false ->
  fitEpochGen false s epoch = fitEpochGen true s epoch.
Proof.
  intros HA. unfold fitEpochGen.
  destruct (if MLPRegressor.Shuffle (fs_regr s) then _ else _) as [[[Xf Yf] g]| |];
    simpl; auto.
  rewrite miniBatches_off by assumption. reflexivity.
Qed.

Lemma epochsLoop_off fuel :
  forall s epoch,
    (0 <? MLPRegressor.Alpha (fs_regr s))%float = false ->
    epochsLoop false fuel s epoch = epochsLoop true fuel s epoch.
Proof.
  induction fuel as [|fuel IH]; intros s epoch HA; simpl; auto.
  destruct (epoch <? MLPRegressor.Epochs (fs_regr s))%Z; auto.
  rewrite fitEpoch_off by assumption.
  destruct (fitEpochGen true s epoch) as [[s1 J1]| |] eqn:E; simpl; auto.
  rewrite IH; auto.
  apply fitEpoch_settings in E. destruct E as (_ & -> & _). assumption.
Qed.

Lemma FitGen_off regr X Y g :
  (0 <? MLPRegressor.Alpha regr)%float = false ->
  FitGen false regr X Y g = FitGen true regr X Y g.
Proof.
  intros HA. unfold FitGen.
  destruct (allocLayers regr (cols X) (cols Y) g) as [[r1 g1]| |] eqn:E; simpl; auto.
  assert (HA1 : MLPRegressor.Alpha r1 = MLPRegressor.Alpha regr).
  { unfold allocLayers in E.
    inv_bind E as [[[hl po] off] g0] E1. inv_bind E as o E2. inv_bind E as ts E3.
    inv_bind E as gs E4. inv_bind E as us E5. inv_bind E as [L g2] E6.
    injection E as <- _. reflexivity. }
  destruct (MLPRegressor.Epochs r1 <=? 0)%Z;
    [destruct (defaultEpochs (rows X)) as [e| |]; simpl; auto|simpl];
    apply epochsLoop_off; simpl; rewrite HA1; assumption.
Qed.

End NoRegularization.

(** C7.  With [Alpha = 0] a training run is the run with the
    regularization block left out: the same result or the same failure,
    hence, on the same data and random draws, the same weights to the bit,
    the same losses and the same buffers; and in every layer the block adds
    nothing to the loss or to the gradient. *)
Theorem Alpha_zero_is_no_regularization `{env : Collaborators}
    (regr : MLPRegressor.t) (X Y : Dense) (g : Rand) :
  MLPRegressor.Alpha regr = 0%float ->
  Fit regr X Y g = Fit_noreg regr X Y g
  /\ forall nSamples L J, regularize regr nSamples L J = Ok (L, J).
Proof.
  intros HA. split.
  - apply FitGen_off. rewrite HA. reflexivity.
  - intros nSamples L J. apply regularize_off. rewrite HA. reflexivity.
Qed.

(** ** Epochs of a run *)

Section Epochs.
Context `{env : Collaborators}.
Variable skipReg : bool.

(** The minibatch loop needs no more than the rows still to visit as fuel:
    beyond that, the amount of fuel does not change its result. *)
Lemma miniBatches_fuel fuel :
  forall fuel' regr Xf Yf epoch nS nF nO st en Jsum,
    nS - st <= fuel -> nS - st <= fuel' ->
    miniBatches skipReg fuel regr Xf Yf epoch nS nF nO st en Jsum
    = miniBatches skipReg fuel' regr Xf Yf epoch nS nF nO st en Jsum.
Proof.
  induction fuel as [|fuel IH];
    intros fuel' regr Xf Yf epoch nS nF nO st en Jsum Hf Hf'.
  - destruct fuel'; simpl; destruct (Nat.ltb_spec st nS); auto; lia.
  - destruct fuel' as [|fuel']; simpl; destruct (Nat.ltb_spec st nS) as [Hlt|Hge];
      auto; try lia.
    unfold Slice at 1 3.
    destruct ((st <? rows Xf) && (0 <? cols Xf) && (st <? en) && (en <=? rows Xf)
              && (0 <? nF) && (nF <=? cols Xf)) eqn:Es; simpl; auto.
    destruct (Slice Yf st en 0 nO) as [Ym| |]; simpl; auto.
    destruct (fitMiniBatchGen skipReg regr _ Ym epoch (en - st) nS) as [[r1 Jm]| |];
      simpl; auto.
    assert (Hlen : st < en).
    { rewrite !andb_true_iff in Es. destruct Es as (((((_ & _) & H) & _) & _) & _).
      apply Nat.ltb_lt in H. exact H. }
    apply IH; lia.
Qed.

(** A run of the epoch loop that returns has made one call of [fitEpoch]
    per epoch index from [epoch] up to the bound, and left the bound as it
    was. *)
Lemma epochsLoop_count fuel :
  forall s epoch s' Js,
    epochsLoop skipReg fuel s epoch = Ok (s', Js) ->
    Z.of_nat (List.length Js) = Z.max 0 (MLPRegressor.Epochs (fs_regr s) - epoch)
    /\ MLPRegressor.Epochs (fs_regr s') = MLPRegressor.Epochs (fs_regr s).
Proof.
  induction fuel as [|fuel IH]; intros s epoch s' Js H; simpl in H;
    destruct (Z.ltb_spec epoch (MLPRegressor.Epochs (fs_regr s))) as [Hlt|Hge];
    try discriminate;
    try (injection H as <- <-; simpl; split; [lia|reflexivity]).
  inv_bind H as [s1 J1] E1. inv_bind H as [s2 Js2] E2. injection H as <- <-.
  apply fitEpoch_settings in E1. destruct E1 as (_ & _ & _ & _ & HE & _).
  apply IH in E2. destruct E2 as (Hn & HE2).
  rewrite HE in Hn, HE2. split; [|assumption].
  simpl List.length. lia.
Qed.

(** The fuel [Fit] gives the epoch loop is enough: more fuel changes nothing. *)
Lemma epochsLoop_fuel fuel :
  forall fuel' s epoch,
    (MLPRegressor.Epochs (fs_regr s) - epoch <= Z.of_nat fuel)%Z ->
    (MLPRegressor.Epochs (fs_regr s) - epoch <= Z.of_nat fuel')%Z ->
    epochsLoop skipReg fuel s epoch = epochsLoop skipReg fuel' s epoch.
Proof.
  induction fuel as [|fuel IH]; intros fuel' s epoch Hf Hf'.
  - destruct fuel'; simpl;
      destruct (Z.ltb_spec epoch (MLPRegressor.Epochs (fs_regr s))); auto; lia.
  - destruct fuel' as [|fuel']; simpl;
      destruct (Z.ltb_spec epoch (MLPRegressor.Epochs (fs_regr s))) as [Hlt|Hge];
      auto; try lia.
    destruct (fitEpochGen skipReg s epoch) as [[s1 J1]| |] eqn:E1; simpl; auto.
    apply fitEpoch_settings in E1. destruct E1 as (_ & _ & _ & _ & HE & _).
    rewrite (IH fuel' s1 (epoch + 1)%Z); auto; rewrite HE; lia.
Qed.

End Epochs.

Lemma allocLayers_frame `{env : Collaborators} regr nFeatures nOutputs g regr' g' :
  allocLayers regr nFeatures nOutputs g = Ok (regr', g') -> only_layers regr regr'.
Proof.
  unfold allocLayers. intros E.
  inv_bind E as [[[hl po] off] g0] E1. inv_bind E as o E2. inv_bind E as ts E3.
  inv_bind E as gs E4. inv_bind E as us E5. inv_bind E as [L g2] E6.
  injection E as <- _. apply only_layers_set.
Qed.

(** C4, as the code has it.  When the configured epoch count is unset or
    not positive and [Fit] returns, the training set was not empty, the
    epoch count was set to the integer quotient of one million by the
    number of samples, rounded down, and exactly that many epochs were run. *)
Theorem Fit_default_epochs_floor `{env : Collaborators}
    (regr : MLPRegressor.t) (X Y : Dense) (g : Rand) (s : FitState) (Js : list float) :
  (MLPRegressor.Epochs regr <= 0)%Z ->
  Fit regr X Y g = Ok (s, Js) ->
  0 < rows X
  /\ MLPRegressor.Epochs (fs_regr s) = (1000000 / Z.of_nat (rows X))%Z
  /\ Z.of_nat (List.length Js) = (1000000 / Z.of_nat (rows X))%Z.
Proof.
  intros HE H. unfold Fit, FitGen in H.
  inv_bind H as [r1 g1] E1.
  apply allocLayers_frame, only_layers_settings in E1.
  destruct E1 as (_ & _ & _ & _ & HE1 & _).
  inv_bind H as r3 E3. simpl in E3. rewrite HE1 in E3.
  destruct (Z.leb_spec (MLPRegressor.Epochs regr) 0) as [_|Hgt]; [|lia].
  inv_bind E3 as e E4. injection E3 as <-.
  unfold defaultEpochs in E4.
  destruct (Nat.eqb_spec (rows X) 0) as [|Hn]; [discriminate|].
  injection E4 as <-.
  apply epochsLoop_count in H. simpl in H. destruct H as (Hlen & Heps).
  rewrite Z.quot_div_nonneg in * by lia.
  assert (0 <= 1000000 / Z.of_nat (rows X))%Z by (apply Z.div_pos; lia).
  repeat split; [lia|assumption|lia].
Qed.

(** ** Gradient clipping *)

Lemma reuseAs_dims (m m' : Dense) (r c : nat) :
  reuseAs m r c = Ok m' -> rows m' = r /\ cols m' = c.
Proof.
  unfold reuseAs. destruct (cols m =? 0).
  - intros H; injection H as <-. simpl. auto.
  - destruct (Nat.eqb_spec (rows m) r), (Nat.eqb_spec (cols m) c); simpl;
      try discriminate.
    intros H; injection H as <-. auto.
Qed.

Lemma Scale_self (m : Dense) (f : float) :
  exists m', Scale m f (M m) = Ok m'
    /\ rows m' = rows m /\ cols m' = cols m
    /\ forall i j, i < rows m -> j < cols m ->
         DenseAt m' i j = (f * DenseAt m i j)%float.
Proof.
  unfold Scale. simpl.
  destruct (reuseAs_self m) as (m1 & E & Hr & Hc). rewrite E. simpl.
  eexists; split; [reflexivity|]. simpl. repeat split; auto.
  intros i j Hi Hj. rewrite fill_At by lia. reflexivity.
Qed.

(** *** Rounding of a product and of a quotient

    [FloatAxioms] gives every operation of [float64] as the operation of
    [SpecFloat] on the numbers' mantissas and exponents.  From it: a
    product or quotient that is a normal number differs from the exact
    one by at most [u64] times itself. *)

Section Rounding.
Import SpecFloat.
Local Open Scope R_scope.

Lemma bpow_pos e : 0 < bpow e.
Proof. apply powerRZ_lt. lra. Qed.

Lemma bpow_add a b : bpow (a + b) = bpow a * bpow b.
Proof. apply powerRZ_add. lra. Qed.

Lemma bpow_0 : bpow 0 = 1.
Proof. reflexivity. Qed.

Lemma bpow_1 : bpow 1 = 2.
Proof. unfold bpow. simpl. lra. Qed.

Lemma bpow_m1 : bpow (-1) = / 2.
Proof. unfold bpow. simpl. rewrite Rmult_1_r. reflexivity. Qed.

Lemma bpow_IZR (k : Z) : (0 <= k)%Z -> bpow k = IZR (2 ^ k).
Proof.
  intros Hk. unfold bpow. rewrite <- (Z2Nat.id k) at 1 2 by assumption.
  rewrite <- pow_powerRZ. rewrite pow_IZR. reflexivity.
Qed.

Lemma bpow_le a b : (a <= b)%Z -> bpow a <= bpow b.
Proof.
  intros H. replace b with (a + (b - a))%Z by lia. rewrite bpow_add.
  rewrite (bpow_IZR (b - a)) by lia.
  assert (1 <= IZR (2 ^ (b - a))).
  { apply IZR_le. assert (0 < 2 ^ (b - a))%Z by (apply Z.pow_pos_nonneg; lia). lia. }
  pose proof (bpow_pos a). nra.
Qed.

Lemma bpow_sub_cancel a b : bpow (a - b) * bpow b = bpow a.
Proof. rewrite <- bpow_add. f_equal. lia. Qed.

Lemma located_range t m l : located t m l -> IZR m <= t < IZR m + 1.
Proof. destruct l as [|[| |]]; simpl; lra. Qed.

Lemma shr_1_Inv t mrs : shrInv t mrs -> shrInv (t * / 2) (shr_1 mrs).
Proof.
  destruct mrs as [m r s]. unfold shrInv. cbn -[IZR]. intros [Hm Hl].
  destruct m as [|p|p]; [|destruct p as [p|p|]|lia].
  - destruct r, s; cbn -[IZR] in *; split; try lia; lra.
  - assert (E : IZR (Z.pos p~1) = 2 * IZR (Z.pos p) + 1).
    { rewrite Pos2Z.inj_xI, plus_IZR, mult_IZR. reflexivity. }
    destruct r, s; cbn -[IZR] in *; rewrite E in Hl; split; try lia; lra.
  - assert (E : IZR (Z.pos p~0) = 2 * IZR (Z.pos p)).
    { rewrite Pos2Z.inj_xO, mult_IZR. reflexivity. }
    destruct r, s; cbn -[IZR] in *; rewrite E in Hl; split; try lia; lra.
  - destruct r, s; cbn -[IZR] in *; split; try lia; lra.
Qed.

Lemma iter_shr_1_Inv p : forall t mrs,
  shrInv t mrs -> shrInv (t * bpow (- Z.pos p)) (iter_pos shr_1 p mrs).
Proof.
  induction p as [p IH|p IH|]; intros t mrs H; cbn [iter_pos].
  - apply shr_1_Inv, IH, IH in H.
    replace (t * bpow (- Z.pos p~1)) with (t * / 2 * bpow (- Z.pos p) * bpow (- Z.pos p));
      [exact H|].
    rewrite <- bpow_m1, !Rmult_assoc, <- !bpow_add. do 2 f_equal. lia.
  - apply IH, IH in H.
    replace (t * bpow (- Z.pos p~0)) with (t * bpow (- Z.pos p) * bpow (- Z.pos p));
      [exact H|].
    rewrite !Rmult_assoc, <- !bpow_add. do 2 f_equal. lia.
  - apply shr_1_Inv in H. change (Z.opp (Z.pos 1)) with (Z.neg 1). rewrite bpow_m1. exact H.
Qed.

Lemma shr_Inv t mrs e n :
  shrInv t mrs ->
  shrInv (t * bpow (e - snd (shr mrs e n))) (fst (shr mrs e n))
  /\ snd (shr mrs e n) = (e + Z.max n 0)%Z.
Proof.
  intros H. destruct n as [|p|p]; simpl.
  - rewrite Z.sub_diag, bpow_0, Rmult_1_r. split; [exact H|lia].
  - split; [|lia].
    replace (e - (e + Z.pos p))%Z with (- Z.pos p)%Z by lia.
    apply iter_shr_1_Inv, H.
  - rewrite Z.sub_diag, bpow_0, Rmult_1_r. split; [exact H|lia].
Qed.

Lemma loc_of_record_of_loc m l : loc_of_shr_record (shr_record_of_loc m l) = l.
Proof. destruct l as [|[| |]]; reflexivity. Qed.

Lemma shr_m_record_of_loc m l : shr_m (shr_record_of_loc m l) = m.
Proof. destruct l as [|[| |]]; reflexivity. Qed.

Lemma round_nearest_even_spec t mrs :
  shrInv t mrs ->
  let m1 := round_nearest_even (shr_m mrs) (loc_of_shr_record mrs) in
  (0 <= m1)%Z /\ Rabs (IZR m1 - t) <= / 2
  /\ (m1 = shr_m mrs \/ m1 = (shr_m mrs + 1)%Z).
Proof.
  intros [Hm Hl]. destruct mrs as [m r s]. cbn -[IZR] in *.
  destruct r, s; cbn -[IZR] in *.
  - split; [lia|]. split; [|right; reflexivity].
    rewrite plus_IZR. apply Rabs_le. lra.
  - destruct (Z.even m); (split; [lia|]); split;
      [|left; reflexivity| |right; reflexivity];
      rewrite ?plus_IZR; apply Rabs_le; lra.
  - split; [lia|]. split; [|left; reflexivity]. apply Rabs_le. lra.
  - split; [lia|]. split; [|left; reflexivity]. apply Rabs_le. lra.
Qed.

(** Digits of a mantissa. *)
Lemma digits2_size p : digits2_pos p = Pos.size p.
Proof. induction p; simpl; congruence. Qed.

Lemma digits_upper (m : Z) : (0 <= m)%Z -> (m < 2 ^ Zdigits2 m)%Z.
Proof.
  intros Hm. destruct m as [|p|p]; [reflexivity| |lia].
  simpl Zdigits2. rewrite digits2_size.
  pose proof (Pos.size_gt p) as H.
  change 2%Z with (Z.pos 2). rewrite <- Pos2Z.inj_pow. lia.
Qed.

Lemma digits_lower (p : positive) : (2 ^ (Z.pos (digits2_pos p) - 1) <= Z.pos p)%Z.
Proof.
  rewrite digits2_size.
  pose proof (Pos.size_le p) as H.
  assert (E : (2 ^ Z.pos (Pos.size p) = 2 * 2 ^ (Z.pos (Pos.size p) - 1))%Z).
  { rewrite <- Z.pow_succ_r by lia. f_equal. lia. }
  assert (H' : (2 ^ Z.pos (Pos.size p) <= Z.pos p~0)%Z).
  { change 2%Z with (Z.pos 2). rewrite <- Pos2Z.inj_pow. exact H. }
  rewrite Pos2Z.inj_xO in H'. lia.
Qed.

Lemma digits_le (m k : Z) : (0 <= m)%Z -> (0 <= k)%Z -> (m < 2 ^ k)%Z -> (Zdigits2 m <= k)%Z.
Proof.
  intros Hm Hk H. destruct m as [|p|p]; [simpl; lia| |lia].
  simpl Zdigits2. pose proof (digits_lower p) as Hl.
  destruct (Z.le_gt_cases (Z.pos (digits2_pos p)) k) as [|Hgt]; [assumption|exfalso].
  assert (2 ^ k <= 2 ^ (Z.pos (digits2_pos p) - 1))%Z by (apply Z.pow_le_mono_r; lia).
  lia.
Qed.

Lemma fexp_ge (e : Z) : (e - 53 <= fexp prec emax e)%Z /\ (-1074 <= fexp prec emax e)%Z.
Proof. unfold fexp, SpecFloat.emin, prec, emax. lia. Qed.

Lemma fexp_eq (e : Z) : fexp prec emax e = Z.max (e - 53) (-1074).
Proof. reflexivity. Qed.

(** The rounding step shared by every operation: the result, when finite,
    is within half a unit in the last place of the real number [t * 2^ex]
    that the mantissa [mx] and the location [lx] stand for. *)
Lemma binary_round_aux_spec sx mx ex lx t s m e :
  (0 <= mx)%Z -> located t mx lx ->
  binary_round_aux prec emax sx mx ex lx = S754_finite s m e ->
  s = sx /\ Rabs (IZR (Z.pos m) * bpow e - t * bpow ex) <= bpow e / 2.
Proof.
  intros Hmx Hloc. unfold binary_round_aux, shr_fexp.
  set (d := Zdigits2 mx).
  set (n := (fexp prec emax (d + ex) - ex)%Z).
  assert (H0 : shrInv t (shr_record_of_loc mx lx)).
  { split; [rewrite shr_m_record_of_loc; exact Hmx|].
    rewrite shr_m_record_of_loc, loc_of_record_of_loc. exact Hloc. }
  destruct (shr_Inv t _ ex n H0) as (H1 & He').
  destruct (shr (shr_record_of_loc mx lx) ex n) as [mrs' e']. cbn [fst snd] in H1, He'.
  set (t' := t * bpow (ex - e')) in *.
  destruct (round_nearest_even_spec t' mrs' H1) as (Hm1 & Herr & Hq).
  set (m1 := round_nearest_even (shr_m mrs') (loc_of_shr_record mrs')) in *.
  destruct (fexp_ge (d + ex)) as (Hf1 & Hf2).
  assert (He1 : (d + ex - 53 <= e')%Z) by lia.
  assert (He2 : (-1074 <= e')%Z) by lia.
  assert (Hd : (0 <= d)%Z).
  { unfold d. destruct mx; simpl; lia. }
  (* the mantissa after the first shift has at most 53 bits *)
  assert (Hq53 : (shr_m mrs' < 2 ^ 53)%Z).
  { destruct H1 as (Hq0 & Hl). apply located_range in Hl.
    apply located_range in Hloc.
    assert (Ht : t < bpow d).
    { rewrite bpow_IZR by assumption.
      pose proof (digits_upper mx Hmx) as Hu. fold d in Hu.
      assert (IZR mx + 1 <= IZR (2 ^ d)).
      { rewrite <- (plus_IZR mx 1). apply IZR_le. lia. }
      lra. }
    assert (Ht' : t' < bpow 53).
    { unfold t'. apply Rlt_le_trans with (bpow d * bpow (ex - e')).
      - apply Rmult_lt_compat_r; [apply bpow_pos|exact Ht].
      - rewrite <- bpow_add. apply bpow_le. lia. }
    apply lt_IZR. rewrite <- (bpow_IZR 53) by lia. lra. }
  assert (Hm53 : (m1 <= 2 ^ 53)%Z) by lia.
  (* the value carried by the result *)
  assert (Hval : IZR m1 * bpow e' - t * bpow ex = (IZR m1 - t') * bpow e').
  { unfold t'. rewrite Rmult_minus_distr_r, Rmult_assoc, bpow_sub_cancel. reflexivity. }
  assert (Hbound : Rabs (IZR m1 * bpow e' - t * bpow ex) <= bpow e' / 2).
  { rewrite Hval, Rabs_mult, (Rabs_pos_eq (bpow e')) by (left; apply bpow_pos).
    pose proof (bpow_pos e'). nra. }
  destruct (Z.eq_dec m1 (2 ^ 53)) as [E53|N53].
  - (* the rounding carried into a 54th bit: one more exact shift *)
    rewrite E53. change (Zdigits2 (2 ^ 53)) with 54%Z.
    assert (En2 : (fexp prec emax (54 + e') - e' = 1)%Z) by (rewrite fexp_eq; lia).
    rewrite En2. cbn.
    destruct (e' + 1 <=? 971)%Z; [|discriminate].
    intros H. injection H as <- <- <-. split; [reflexivity|].
    rewrite E53 in Hbound.
    replace (IZR (Z.pos 4503599627370496) * bpow (e' + 1)) with (IZR (2 ^ 53) * bpow e').
    + apply Rle_trans with (1 := Hbound).
      pose proof (bpow_le e' (e' + 1) ltac:(lia)). lra.
    + rewrite bpow_add, bpow_1. change (2 ^ 53)%Z with (2 * 4503599627370496)%Z.
      rewrite mult_IZR. ring.
  - assert (Hd1 : (Zdigits2 m1 <= 53)%Z) by (apply digits_le; lia).
    assert (En2 : (fexp prec emax (Zdigits2 m1 + e') - e' <= 0)%Z) by (rewrite fexp_eq; lia).
    assert (Es : shr (shr_record_of_loc m1 loc_Exact) e'
                     (fexp prec emax (Zdigits2 m1 + e') - e')
                 = (shr_record_of_loc m1 loc_Exact, e')).
    { destruct (fexp prec emax (Zdigits2 m1 + e') - e')%Z; try reflexivity. lia. }
    rewrite Es. cbn [shr_m shr_record_of_loc].
    destruct m1 as [|p1|p1]; try discriminate.
    destruct (e' <=? emax - prec)%Z; [|discriminate].
    intros H. injection H as <- <- <-. split; [reflexivity|exact Hbound].
Qed.

Lemma SF2R_finite s m e : SF2R (S754_finite s m e) = sgnR s * IZR (Z.pos m) * bpow e.
Proof. reflexivity. Qed.

Lemma sgnR_xorb a b : sgnR (xorb a b) = sgnR a * sgnR b.
Proof. destruct a, b; unfold sgnR; simpl; lra. Qed.

Lemma Rabs_sgnR s x : Rabs (sgnR s * x) = Rabs x.
Proof.
  destruct s; unfold sgnR.
  - replace (-1 * x) with (- x) by ring. apply Rabs_Ropp.
  - rewrite Rmult_1_l. reflexivity.
Qed.

(** Half a unit in the last place of a normal number is at most [u64]
    times the number. *)
Lemma half_ulp_relative (s : bool) (m : positive) (e : Z) (v : R) :
  (2 ^ 52 <= Z.pos m)%Z ->
  Rabs (IZR (Z.pos m) * bpow e - v) <= bpow e / 2 ->
  Rabs (sgnR s * v - SF2R (S754_finite s m e)) <= u64 * Rabs (SF2R (S754_finite s m e)).
Proof.
  intros Hm H. rewrite SF2R_finite.
  replace (sgnR s * v - sgnR s * IZR (Z.pos m) * bpow e)
    with (sgnR s * (v - IZR (Z.pos m) * bpow e)) by ring.
  rewrite Rmult_assoc, !Rabs_sgnR, Rabs_minus_sym.
  apply Rle_trans with (1 := H).
  assert (Hm' : IZR (2 ^ 52) <= IZR (Z.pos m)) by (apply IZR_le; exact Hm).
  rewrite <- (bpow_IZR 52) in Hm' by lia.
  pose proof (bpow_pos e) as He.
  rewrite Rabs_pos_eq.
  2:{ apply Rmult_le_pos; [|lra]. pose proof (bpow_pos 52). lra. }
  assert (Eu : u64 * bpow 52 = / 2).
  { unfold u64. rewrite <- bpow_add. exact bpow_m1. }
  assert (Hu : 0 < u64) by apply bpow_pos.
  apply Rle_trans with (u64 * (bpow 52 * bpow e)).
  - rewrite <- Rmult_assoc, Eu. lra.
  - apply Rmult_le_compat_l; [lra|]. apply Rmult_le_compat_r; lra.
Qed.

Lemma normal_finite (x : float) :
  normal x = true ->
  exists s m e, Prim2SF x = S754_finite s m e /\ (2 ^ 52 <= Z.pos m)%Z.
Proof.
  unfold normal. rewrite classify_spec. unfold SF64classify, SFclassify.
  destruct (Prim2SF x) as [s|s| |s m e]; try discriminate;
    try (destruct s; discriminate).
  intros H. exists s, m, e. split; [reflexivity|].
  assert (E : Z.pos (digits2_pos m) = prec).
  { destruct s; destruct (Z.eqb_spec (Z.pos (digits2_pos m)) prec); try discriminate;
      assumption. }
  pose proof (digits_lower m) as Hl. rewrite E in Hl. exact Hl.
Qed.

(** A product that is a normal number is the exact product up to the
    relative error [u64]. *)
Lemma mul_error (x y : float) :
  normal (x * y) = true ->
  Rabs (B2R x * B2R y - B2R (x * y)) <= u64 * Rabs (B2R (x * y)).
Proof.
  intros Hn. destruct (normal_finite _ Hn) as (s & m & e & E & Hm).
  unfold B2R. rewrite E. rewrite FloatAxioms.mul_spec in E. unfold SF64mul, SFmul in E.
  destruct (Prim2SF x) as [sx|sx| |sx mx ex]; destruct (Prim2SF y) as [sy|sy| |sy my ey];
    try discriminate E.
  destruct (binary_round_aux_spec (xorb sx sy) (Z.pos (mx * my)) (ex + ey) loc_Exact
              (IZR (Z.pos (mx * my))) s m e
              (Pos2Z.is_nonneg (mx * my)) eq_refl E) as (Es & Hb).
  subst s. rewrite !SF2R_finite.
  replace (sgnR sx * IZR (Z.pos mx) * bpow ex * (sgnR sy * IZR (Z.pos my) * bpow ey))
    with (sgnR (xorb sx sy) * (IZR (Z.pos (mx * my)) * bpow (ex + ey))).
  - rewrite <- SF2R_finite. apply half_ulp_relative; assumption.
  - rewrite sgnR_xorb, Pos2Z.inj_mul, mult_IZR, bpow_add. ring.
Qed.

Lemma new_location_spec (nb k : Z) :
  (0 <= k < nb)%Z -> located (IZR k / IZR nb) 0 (new_location nb k).
Proof.
  intros Hk.
  assert (Hnb : 0 < IZR nb) by (apply IZR_lt; lia).
  set (x := IZR k / IZR nb).
  assert (Ex : x * IZR nb = IZR k) by (unfold x; field; lra).
  assert (Hlt : forall a : R, a * IZR nb < IZR k -> a < x).
  { intros a Ha. apply (Rmult_lt_reg_r (IZR nb)); [exact Hnb|]. rewrite Ex. exact Ha. }
  assert (Hgt : forall a : R, IZR k < a * IZR nb -> x < a).
  { intros a Ha. apply (Rmult_lt_reg_r (IZR nb)); [exact Hnb|]. rewrite Ex. exact Ha. }
  assert (H2k : IZR (2 * k) = 2 * IZR k) by (rewrite mult_IZR; reflexivity).
  assert (H0 : forall b : bool,
             located (0 / IZR nb) 0
               ((if b then new_location_even nb else new_location_odd nb) 0%Z)).
  { intros b. unfold Rdiv. rewrite Rmult_0_l. destruct b; reflexivity. }
  unfold new_location.
  destruct (Z.eq_dec k 0) as [->|Hk1]; [apply H0|]. clear H0.
  assert (Hkp : 0 < IZR k) by (apply IZR_lt; lia).
  assert (Hkn : IZR k < IZR nb) by (apply IZR_lt; lia).
  assert (Hx0 : 0 < x) by (apply Hlt; lra).
  assert (Hx1 : x < 1) by (apply Hgt; lra).
  destruct (Z.even nb) eqn:Ev.
  - unfold new_location_even.
    destruct (Z.eqb_spec k 0) as [|_]; [contradiction|].
    destruct (Z.compare_spec (2 * k) nb) as [Heq|Hl|Hg]; cbn -[IZR].
    + assert (E : 2 * IZR k = IZR nb) by (rewrite <- H2k, Heq; reflexivity).
      apply (Rmult_eq_reg_r (IZR nb)); [|lra]. rewrite Ex. lra.
    + apply IZR_lt in Hl. rewrite H2k in Hl.
      split; [lra|]. apply Hgt. lra.
    + apply IZR_lt in Hg. rewrite H2k in Hg.
      split; [|lra]. apply Hlt. lra.
  - assert (Hodd : (2 * k <> nb)%Z).
    { intros <-. rewrite Z.even_mul in Ev. discriminate. }
    unfold new_location_odd.
    destruct (Z.eqb_spec k 0) as [|_]; [contradiction|].
    destruct (Z.compare_spec (2 * k + 1) nb) as [Heq|Hl|Hg]; cbn -[IZR].
    + assert (Hl : (2 * k < nb)%Z) by lia.
      apply IZR_lt in Hl. rewrite H2k in Hl.
      split; [lra|]. apply Hgt. lra.
    + assert (Hl' : (2 * k < nb)%Z) by lia.
      apply IZR_lt in Hl'. rewrite H2k in Hl'.
      split; [lra|]. apply Hgt. lra.
    + assert (Hg' : (nb < 2 * k)%Z) by lia.
      apply IZR_lt in Hg'. rewrite H2k in Hg'.
      split; [|lra]. apply Hlt. lra.
Qed.

Lemma located_shift (t : R) (q : Z) (l : location) :
  located t 0 l -> located (IZR q + t) q l.
Proof. destruct l as [|[| |]]; cbn -[IZR]; intros; lra. Qed.

Lemma div_core_spec (mx my : positive) (ex ey : Z) (q e' : Z) (l : location) :
  SFdiv_core_binary prec emax (Z.pos mx) ex (Z.pos my) ey = (q, e', l) ->
  (0 <= q)%Z
  /\ exists t, located t q l
       /\ t * bpow e' = IZR (Z.pos mx) * bpow ex / (IZR (Z.pos my) * bpow ey).
Proof.
  unfold SFdiv_core_binary.
  set (e0 := Z.min (fexp prec emax (Zdigits2 (Z.pos mx) + ex - (Zdigits2 (Z.pos my) + ey)))
                   (ex - ey)).
  set (sh := (ex - ey - e0)%Z).
  assert (Hsh : (0 <= sh)%Z) by (unfold sh, e0; lia).
  set (m' := match sh with
             | Z.pos _ => Z.shiftl (Z.pos mx) sh
             | 0%Z => Z.pos mx
             | Z.neg _ => 0%Z
             end).
  assert (Em : m' = (Z.pos mx * 2 ^ sh)%Z).
  { unfold m'. destruct sh as [|p|p]; [simpl; lia| |lia].
    apply Z.shiftl_mul_pow2. lia. }
  pose proof (Z_div_mod m' (Z.pos my) ltac:(lia)) as Hdm.
  destruct (Z.div_eucl m' (Z.pos my)) as [q0 r]. destruct Hdm as (Hdm & Hr).
  intros H. injection H as <- <- <-.
  assert (Hm0 : (0 <= m')%Z).
  { rewrite Em. apply Z.mul_nonneg_nonneg; [lia|]. apply Z.pow_nonneg. lia. }
  split; [nia|].
  exists (IZR q0 + IZR r / IZR (Z.pos my)). split.
  - apply located_shift, new_location_spec. exact Hr.
  - assert (Hmy : 0 < IZR (Z.pos my)) by (apply IZR_lt; lia).
    assert (E1 : IZR q0 + IZR r / IZR (Z.pos my) = IZR m' / IZR (Z.pos my)).
    { rewrite Hdm, plus_IZR, mult_IZR. field. lra. }
    assert (Hex : bpow ex = bpow sh * bpow e0 * bpow ey).
    { rewrite <- !bpow_add. f_equal. unfold sh. lia. }
    rewrite E1, Em, mult_IZR, <- (bpow_IZR sh), Hex by exact Hsh.
    pose proof (bpow_pos ey). pose proof (bpow_pos e0). pose proof (bpow_pos sh).
    field. split; lra.
Qed.

(** A quotient that is a normal number is the exact quotient up to the
    relative error [u64]. *)
Lemma div_error (x y : float) :
  normal (x / y) = true ->
  Rabs (B2R x / B2R y - B2R (x / y)) <= u64 * Rabs (B2R (x / y)).
Proof.
  intros Hn. destruct (normal_finite _ Hn) as (s & m & e & E & Hm).
  unfold B2R. rewrite E. rewrite FloatAxioms.div_spec in E. unfold SF64div, SFdiv in E.
  destruct (Prim2SF x) as [sx|sx| |sx mx ex]; destruct (Prim2SF y) as [sy|sy| |sy my ey];
    try discriminate E.
  destruct (SFdiv_core_binary prec emax (Z.pos mx) ex (Z.pos my) ey) as [[mz ez] lz] eqn:Ec.
  apply div_core_spec in Ec. destruct Ec as (Hq & t & Hloc & Et).
  destruct (binary_round_aux_spec _ _ _ _ t _ _ _ Hq Hloc E) as (Es & Hb).
  subst s. rewrite !SF2R_finite.
  assert (Hmy : 0 < IZR (Z.pos my)) by (apply IZR_lt; lia).
  pose proof (bpow_pos ey) as Hey.
  replace (sgnR sx * IZR (Z.pos mx) * bpow ex / (sgnR sy * IZR (Z.pos my) * bpow ey))
    with (sgnR (xorb sx sy) * (t * bpow ez)).
  - rewrite <- SF2R_finite. apply half_ulp_relative; assumption.
  - rewrite Et, sgnR_xorb. destruct sx, sy; unfold sgnR; field; lra.
Qed.

End Rounding.

(** *** The norm of a rescaled matrix *)

Lemma tab_ext_in (r c : nat) (f g : nat -> nat -> float) :
  (forall i j, i < r -> j < c -> f i j = g i j) -> tab r c f = tab r c g.
Proof.
  intros H. unfold tab. rewrite !flat_map_concat_map. f_equal.
  apply map_ext_in. intros i Hi. apply in_seq in Hi.
  apply map_ext_in. intros j Hj. apply in_seq in Hj. apply H; lia.
Qed.

Lemma tab_map (r c : nat) (h : float -> float) (f : nat -> nat -> float) :
  tab r c (fun i j => h (f i j)) = map h (tab r c f).
Proof.
  unfold tab. induction (seq 0 r) as [|i l IH]; simpl; [reflexivity|].
  rewrite map_app, map_map, IH. reflexivity.
Qed.

Lemma cells_scaled_eq (G G0 : Dense) (s : float) :
  rows G = rows G0 -> cols G = cols G0 ->
  (forall i j, i < rows G -> j < cols G -> DenseAt G i j = (s * DenseAt G0 i j)%float) ->
  cells G = map (PrimFloat.mul s) (cells G0).
Proof.
  intros Hr Hc H. unfold cells. rewrite <- tab_map, Hr, Hc.
  apply tab_ext_in. intros i j Hi Hj. apply H; [rewrite Hr|rewrite Hc]; assumption.
Qed.

Section ClipNorm.
Import SpecFloat.
Local Open Scope R_scope.

Lemma Rabs_le_inv (a b : R) : Rabs a <= b -> - b <= a <= b.
Proof. unfold Rabs. destruct (Rcase_abs a); lra. Qed.

Lemma u64_small : 0 < u64 <= / 16.
Proof.
  split; [apply bpow_pos|].
  unfold u64. apply Rle_trans with (bpow (-4)); [apply bpow_le; lia|].
  unfold bpow. simpl. lra.
Qed.

Lemma isZero_Prim2SF (x : float) : isZero x = true -> exists s, Prim2SF x = S754_zero s.
Proof.
  unfold isZero. rewrite classify_spec. unfold SF64classify, SFclassify.
  destruct (Prim2SF x) as [s|s| |s m e]; try (destruct s; discriminate); try discriminate.
  - intros _. exists s. reflexivity.
  - destruct s; destruct (Z.eqb _ _); discriminate.
Qed.

Lemma Prim2SF_isZero (x : float) s : Prim2SF x = S754_zero s -> isZero x = true.
Proof.
  intros E. unfold isZero. rewrite classify_spec. unfold SF64classify, SFclassify.
  rewrite E. destruct s; reflexivity.
Qed.

Lemma isZero_B2R (x : float) : isZero x = true -> B2R x = 0.
Proof. intros H. destruct (isZero_Prim2SF x H) as (s & E). unfold B2R. rewrite E. reflexivity. Qed.

Lemma finite_Prim2SF (x : float) :
  finite x = true ->
  (exists s, Prim2SF x = S754_zero s) \/ (exists s m e, Prim2SF x = S754_finite s m e).
Proof.
  unfold finite. rewrite classify_spec. unfold SF64classify, SFclassify.
  destruct (Prim2SF x) as [s|s| |s m e]; try (destruct s; discriminate); try discriminate;
    intros _; [left|right]; eauto.
Qed.

(** A normal number times a zero is a zero. *)
Lemma normal_mul_zero (s g : float) :
  normal s = true -> isZero g = true -> isZero (s * g) = true.
Proof.
  intros Hs Hg. destruct (normal_finite s Hs) as (ss & ms & es & Es & _).
  destruct (isZero_Prim2SF g Hg) as (sg & Eg).
  apply (Prim2SF_isZero _ (xorb ss sg)).
  rewrite FloatAxioms.mul_spec, Es, Eg. reflexivity.
Qed.

(** A zero times a finite number is a zero. *)
Lemma zero_mul_finite (s g : float) :
  isZero s = true -> finite g = true -> isZero (s * g) = true.
Proof.
  intros Hs Hg. destruct (isZero_Prim2SF s Hs) as (ss & Es).
  destruct (finite_Prim2SF g Hg) as [(sg & Eg)|(sg & mg & eg & Eg)];
    apply (Prim2SF_isZero _ (xorb ss sg));
    rewrite FloatAxioms.mul_spec, Es, Eg; reflexivity.
Qed.

Lemma Prim2SF_zero : Prim2SF 0 = S754_zero false.
Proof. reflexivity. Qed.

Lemma Prim2SF_infinity : Prim2SF infinity = S754_infinity false.
Proof. reflexivity. Qed.

(** A positive threshold below an infinite norm: the scalar is a zero. *)
Lemma div_by_infinity (c : float) :
  (0 <? c)%float = true -> (c <? infinity)%float = true -> isZero (c / infinity) = true.
Proof.
  rewrite !FloatAxioms.ltb_spec, Prim2SF_zero, Prim2SF_infinity. unfold SFltb, SFcompare.
  intros H0 H1.
  destruct (Prim2SF c) as [s|s| |s m e] eqn:Ec; try discriminate;
    try (destruct s; discriminate).
  apply (Prim2SF_isZero _ (xorb s false)).
  rewrite FloatAxioms.div_spec, Ec, Prim2SF_infinity. reflexivity.
Qed.

(** The threshold and the norm are positive real numbers when the quotient
    is a normal number. *)
Lemma clip_positive (c n : float) :
  (0 <? c)%float = true -> (c <? n)%float = true -> normal (c / n) = true ->
  0 < B2R c /\ 0 < B2R n.
Proof.
  rewrite !FloatAxioms.ltb_spec, Prim2SF_zero. unfold SFltb, SFcompare.
  intros H0 H1 Hn. destruct (normal_finite _ Hn) as (s & m & e & E & _).
  rewrite FloatAxioms.div_spec in E. unfold SF64div, SFdiv in E. unfold B2R.
  destruct (Prim2SF c) as [sc|sc| |sc mc ec]; try discriminate;
    destruct (Prim2SF n) as [sn|sn| |sn mn en]; try discriminate;
    try (destruct sc; discriminate).
  destruct sc; [discriminate|]. destruct sn; [discriminate|].
  rewrite !SF2R_finite. unfold sgnR.
  pose proof (bpow_pos ec). pose proof (bpow_pos en).
  assert (0 < IZR (Z.pos mc)) by (apply IZR_lt; lia).
  assert (0 < IZR (Z.pos mn)) by (apply IZR_lt; lia).
  split; rewrite Rmult_1_l; apply Rmult_lt_0_compat; assumption.
Qed.

(** One cell: the square of the scaled cell against the square of the
    exact product. *)
Lemma scaled_cell (s g : float) :
  normal s = true -> isZero g = true \/ normal (s * g) = true ->
  B2R (s * g) * B2R (s * g) * ((1 - u64) * (1 - u64))
  <= B2R s * B2R s * (B2R g * B2R g)
  <= B2R (s * g) * B2R (s * g) * ((1 + u64) * (1 + u64)).
Proof.
  intros Hs [Hz|Hn].
  - rewrite (isZero_B2R g Hz), (isZero_B2R _ (normal_mul_zero s g Hs Hz)). lra.
  - pose proof (mul_error s g Hn) as He. pose proof u64_small as Hu.
    set (p := B2R s * B2R g) in *. set (q := B2R (s * g)%float) in *.
    replace (B2R s * B2R s * (B2R g * B2R g)) with (p * p) by (unfold p; ring).
    assert (Hq : 0 <= Rabs q) by apply Rabs_pos.
    assert (Hp : 0 <= Rabs p) by apply Rabs_pos.
    assert (T1 : Rabs p <= Rabs (p - q) + Rabs q).
    { replace p with (p - q + q) at 1 by ring. apply Rabs_triang. }
    assert (T2 : Rabs q <= Rabs (q - p) + Rabs p).
    { replace q with (q - p + p) at 1 by ring. apply Rabs_triang. }
    rewrite (Rabs_minus_sym q p) in T2.
    assert (H1 : Rabs p <= Rabs q * (1 + u64)) by lra.
    assert (H2 : Rabs q * (1 - u64) <= Rabs p) by lra.
    assert (Ep : p * p = Rabs p * Rabs p).
    { unfold Rabs. destruct (Rcase_abs p); ring. }
    assert (Eq : q * q = Rabs q * Rabs q).
    { unfold Rabs. destruct (Rcase_abs q); ring. }
    assert (H0 : 0 <= Rabs q * (1 - u64)) by (apply Rmult_le_pos; lra).
    rewrite Ep, Eq. split.
    + replace (Rabs q * Rabs q * ((1 - u64) * (1 - u64)))
        with (Rabs q * (1 - u64) * (Rabs q * (1 - u64))) by ring.
      apply Rmult_le_compat; assumption.
    + replace (Rabs q * Rabs q * ((1 + u64) * (1 + u64)))
        with (Rabs q * (1 + u64) * (Rabs q * (1 + u64))) by ring.
      apply Rmult_le_compat; assumption.
Qed.

Lemma sumSquares_nonneg (l : list float) : 0 <= sumSquares l.
Proof.
  induction l as [|x l IH]; simpl; [lra|]. pose proof (Rle_0_sqr (B2R x)) as H.
  unfold Rsqr in H. lra.
Qed.

Lemma scaled_cells (s : float) (l : list float) :
  normal s = true ->
  Forall (fun g => isZero g = true \/ normal (s * g) = true) l ->
  sumSquares (map (PrimFloat.mul s) l) * ((1 - u64) * (1 - u64))
  <= B2R s * B2R s * sumSquares l
  <= sumSquares (map (PrimFloat.mul s) l) * ((1 + u64) * (1 + u64)).
Proof.
  intros Hs Hl. induction Hl as [|g l Hg Hl IH]; simpl; [lra|].
  pose proof (scaled_cell s g Hs Hg). lra.
Qed.

(** The arithmetic of the bound: a norm [N] known to [eps], the quotient
    [c/n] and the scaled norm [T] each rounded to [u]. *)
Lemma clip_bound (c n N sigma T u eps : R) :
  0 < c -> 0 < n -> 0 <= N -> 0 <= T -> 0 < u <= / 16 -> 0 <= eps <= / 4 ->
  Rabs (n - N) <= eps * N ->
  Rabs (c / n - sigma) <= u * Rabs sigma ->
  T * T * ((1 - u) * (1 - u)) <= sigma * sigma * (N * N)
                              <= T * T * ((1 + u) * (1 + u)) ->
  Rabs (T - c) <= (2 * eps + 4 * u) * c.
Proof.
  intros Hc Hn HN HT Hu He Hnorm Hs Hcells.
  set (a := c / n) in *.
  assert (Ha : 0 < a) by (unfold a; apply Rdiv_lt_0_compat; assumption).
  assert (Ean : a * n = c) by (unfold a; field; lra).
  (* the scalar is positive and within u of a *)
  assert (Hsig : 0 < sigma).
  { destruct (Rle_or_lt sigma 0) as [Hneg|]; [exfalso|assumption].
    rewrite (Rabs_left1 sigma Hneg) in Hs.
    rewrite Rabs_pos_eq in Hs by lra. nra. }
  rewrite (Rabs_pos_eq sigma) in Hs by lra.
  apply Rabs_le_inv in Hs. apply Rabs_le_inv in Hnorm.
  assert (H1a : sigma * (1 - u) <= a) by lra.
  assert (H1b : a <= sigma * (1 + u)) by lra.
  assert (H2a : N * (1 - eps) <= n) by lra.
  assert (H2b : n <= N * (1 + eps)) by lra.
  (* square roots of the cell bounds *)
  assert (H3a : T * (1 - u) <= sigma * N).
  { apply Rsqr_incr_0_var; [|nra]. unfold Rsqr. nra. }
  assert (H3b : sigma * N <= T * (1 + u)).
  { apply Rsqr_incr_0_var; [|nra]. unfold Rsqr. nra. }
  assert (HNpos : 0 < N) by nra.
  (* upper and lower products *)
  assert (Hup : T * ((1 - u) * (1 - u) * (1 - eps)) <= c).
  { rewrite <- Ean.
    apply Rle_trans with (sigma * N * ((1 - u) * (1 - eps))).
    - replace (T * ((1 - u) * (1 - u) * (1 - eps)))
        with (T * (1 - u) * ((1 - u) * (1 - eps))) by ring.
      apply Rmult_le_compat_r; [nra|exact H3a].
    - replace (sigma * N * ((1 - u) * (1 - eps)))
        with (sigma * (1 - u) * (N * (1 - eps))) by ring.
      apply Rmult_le_compat; nra. }
  assert (Hlo : c <= T * ((1 + u) * (1 + u) * (1 + eps))).
  { rewrite <- Ean.
    apply Rle_trans with (sigma * (1 + u) * (N * (1 + eps))).
    - apply Rmult_le_compat; nra.
    - replace (sigma * (1 + u) * (N * (1 + eps)))
        with (sigma * N * ((1 + u) * (1 + eps))) by ring.
      replace (T * ((1 + u) * (1 + u) * (1 + eps)))
        with (T * (1 + u) * ((1 + u) * (1 + eps))) by ring.
      apply Rmult_le_compat_r; [nra|exact H3b]. }
  assert (HP : 1 <= (1 + 2 * eps + 4 * u) * ((1 - u) * (1 - u) * (1 - eps))).
  { assert (HA : 1 - 2 * u <= (1 - u) * (1 - u)) by nra.
    assert (HB : 1 + 3 * u <= (1 + 2 * eps + 4 * u) * (1 - eps)) by nra.
    assert (HC : 1 <= (1 + 3 * u) * (1 - 2 * u)) by nra.
    replace ((1 + 2 * eps + 4 * u) * ((1 - u) * (1 - u) * (1 - eps)))
      with ((1 + 2 * eps + 4 * u) * (1 - eps) * ((1 - u) * (1 - u))) by ring.
    apply Rle_trans with (1 := HC). apply Rmult_le_compat; lra. }
  assert (HQ : (1 - 2 * eps - 4 * u) * ((1 + u) * (1 + u) * (1 + eps)) <= 1).
  { assert (HA : (1 + u) * (1 + u) <= 1 + 3 * u) by nra.
    assert (HB : (1 - 2 * eps - 4 * u) * (1 + eps) <= 1 - 4 * u) by nra.
    assert (HB0 : 0 <= (1 - 2 * eps - 4 * u) * (1 + eps)) by (apply Rmult_le_pos; lra).
    assert (HC : (1 - 4 * u) * (1 + 3 * u) <= 1) by nra.
    replace ((1 - 2 * eps - 4 * u) * ((1 + u) * (1 + u) * (1 + eps)))
      with ((1 - 2 * eps - 4 * u) * (1 + eps) * ((1 + u) * (1 + u))) by ring.
    apply Rle_trans with (2 := HC). apply Rmult_le_compat; nra. }
  apply Rabs_le. split.
  - assert (c * (1 - 2 * eps - 4 * u) <= T); [|lra].
    apply Rle_trans with (T * ((1 + u) * (1 + u) * (1 + eps)) * (1 - 2 * eps - 4 * u)).
    + apply Rmult_le_compat_r; [lra|exact Hlo].
    + rewrite Rmult_assoc, (Rmult_comm _ (1 - 2 * eps - 4 * u)).
      rewrite <- (Rmult_1_r T) at 2. apply Rmult_le_compat_l; [exact HT|exact HQ].
  - assert (T <= c * (1 + 2 * eps + 4 * u)); [|lra].
    apply Rle_trans with (T * ((1 + 2 * eps + 4 * u) * ((1 - u) * (1 - u) * (1 - eps)))).
    + rewrite <- (Rmult_1_r T) at 1. apply Rmult_le_compat_l; [exact HT|exact HP].
    + rewrite (Rmult_comm (1 + 2 * eps + 4 * u)), <- Rmult_assoc.
      apply Rmult_le_compat_r; [lra|exact Hup].
Qed.

End ClipNorm.

Lemma norm2R_sqr (G : Dense) : (norm2R G * norm2R G = sumSquares (cells G))%R.
Proof. unfold norm2R. apply sqrt_sqrt, sumSquares_nonneg. Qed.

(** C6, as the code has it.  With a positive clip threshold: when the
    gradient's norm does not exceed the threshold the layer, its gradient
    included, is left as it is; when it does, clipping succeeds, touches
    the gradient only, keeps its shape, and multiplies every cell by the
    one scalar threshold/norm.  The norm after clipping: when that scalar
    and every scaled cell that was not a zero are normal numbers (nothing
    overflowed or underflowed) and [mat.Norm] answered within the relative
    error [eps] of the exact L2 norm of the gradient, the exact L2 norm of
    the clipped gradient is within [(2 eps + 4 u64)] times the threshold
    of the threshold, [u64] = 2^-53 being the unit roundoff.  When the norm
    is +Inf, every finite cell becomes a zero. *)
Theorem clipGradient_identity_or_threshold_norm `{env : Collaborators}
    (regr : MLPRegressor.t) (L : Layer.t) (eps : R) :
  (0 <? MLPRegressor.GradientClipping regr)%float = true ->
  let clip := MLPRegressor.GradientClipping regr in
  let GNorm := Norm2 (M (Layer.Grad L)) in
  ((clip <? GNorm)%float = false -> clipGradient regr L = Ok L)
  /\ ((clip <? GNorm)%float = true ->
      exists G, clipGradient regr L = Ok (Layer.set_Grad G L)
        /\ rows G = rows (Layer.Grad L) /\ cols G = cols (Layer.Grad L)
        /\ (forall i j, i < rows G -> j < cols G ->
              DenseAt G i j = (clip / GNorm * DenseAt (Layer.Grad L) i j)%float)
        /\ (normal (clip / GNorm) = true ->
            forallb (fun g => isZero g || normal (clip / GNorm * g))
                    (cells (Layer.Grad L)) = true ->
            (0 <= eps <= / 4)%R ->
            (Rabs (B2R GNorm - norm2R (Layer.Grad L)) <= eps * norm2R (Layer.Grad L))%R ->
            (Rabs (norm2R G - B2R clip) <= (2 * eps + 4 * u64) * B2R clip)%R)
        /\ (GNorm = infinity ->
            forall i j, i < rows G -> j < cols G ->
              finite (DenseAt (Layer.Grad L) i j) = true ->
              isZero (DenseAt G i j) = true)).
Proof.
  intros Hpos clip GNorm. unfold clipGradient. rewrite Hpos.
  fold clip GNorm. split; intros Hc; rewrite Hc; [reflexivity|].
  destruct (Scale_self (Layer.Grad L) (clip / GNorm)) as (G & E & Hr & Hcl & Hat).
  rewrite E. simpl. exists G. split; [reflexivity|]. split; [assumption|].
  split; [assumption|].
  assert (Hat' : forall i j, i < rows G -> j < cols G ->
            DenseAt G i j = (clip / GNorm * DenseAt (Layer.Grad L) i j)%float).
  { intros i j Hi Hj. apply Hat; lia. }
  split; [exact Hat'|]. split.
  - intros Hs Hcells Heps Hnorm.
    destruct (clip_positive clip GNorm Hpos Hc Hs) as (Hcp & Hnp).
    apply (clip_bound (B2R clip) (B2R GNorm) (norm2R (Layer.Grad L))
                      (B2R (clip / GNorm)) (norm2R G) u64 eps);
      try assumption; try apply sqrt_pos; try apply u64_small.
    + apply div_error. exact Hs.
    + rewrite !norm2R_sqr, (cells_scaled_eq G (Layer.Grad L) (clip / GNorm) Hr Hcl Hat').
      apply scaled_cells; [exact Hs|].
      apply Forall_forall. intros g Hg.
      rewrite forallb_forall in Hcells. specialize (Hcells g Hg).
      apply orb_true_iff in Hcells. exact Hcells.
  - intros Hinf i j Hi Hj Hfin. rewrite Hat' by assumption.
    apply zero_mul_finite; [|exact Hfin].
    rewrite Hinf. apply div_by_infinity; [exact Hpos|].
    rewrite Hinf in Hc. exact Hc.
Qed.

(** ** The delta of a hidden layer *)

Lemma elementwise_spec op (m m' : Dense) (a b : Matrix) :
  elementwise op m a b = Ok m' ->
  rows m' = fst (Dims a) /\ cols m' = snd (Dims a)
  /\ fst (Dims b) = fst (Dims a) /\ snd (Dims b) = snd (Dims a)
  /\ forall i j, i < rows m' -> j < cols m' ->
       DenseAt m' i j = op (At a i j) (At b i j).
Proof.
  unfold elementwise, same_dims.
  destruct (Nat.eqb_spec (fst (Dims a)) (fst (Dims b))) as [Hr|]; [|discriminate].
  destruct (Nat.eqb_spec (snd (Dims a)) (snd (Dims b))) as [Hc|]; [|discriminate].
  simpl. intros H. inv_bind H as m1 E. injection H as <-.
  apply reuseAs_dims in E. destruct E as (Hr1 & Hc1). simpl.
  repeat split; auto.
  intros i j Hi Hj. apply fill_At; assumption.
Qed.

Lemma Mul_spec (m m' : Dense) (a b : Matrix) :
  Mul m a b = Ok m' ->
  rows m' = fst (Dims a) /\ cols m' = snd (Dims b)
  /\ forall i j, i < rows m' -> j < cols m' -> DenseAt m' i j = dot a b i j.
Proof.
  unfold Mul. destruct (snd (Dims a) =? fst (Dims b)); [|discriminate].
  intros H. inv_bind H as m1 E. injection H as <-.
  apply reuseAs_dims in E. destruct E as (Hr1 & Hc1). simpl.
  repeat split; auto.
  intros i j Hi Hj. apply fill_At; assumption.
Qed.

(** What the code computes for C1.  For a layer [l] that is not the output
    layer, when the two steps that set its error buffer return: the delta is the
    product of layer [l+1]'s delta buffer with layer [l+1]'s transposed
    weights, bias column dropped, multiplied cell by cell by the contents
    of layer [l]'s own activation-gradient buffer, as the last backward
    pass left it ([computeGrad] refreshes it only afterwards); the
    pseudo-target is [Ypred - delta]; and the square loss then leaves
    [Ypred - trueTarget] in the delta buffer, the running loss [J]
    unchanged. *)
Theorem hidden_layer_delta `{env : Collaborators}
    (regr : MLPRegressor.t) (l : nat) (L L1 L2 : Layer.t) (Y : Matrix)
    (nOutputs : nat) (miniBatchPart J J' : float) :
  l <> List.length (MLPRegressor.Layers regr) - 1 ->
  computeYdiff (MLPRegressor.Layers regr) l L Y = Ok L1 ->
  computeLoss regr l L1 nOutputs miniBatchPart J = Ok (L2, J') ->
  exists nextLayer nextYdiff hgrad ypred delta ytrue ydiff,
    nth_error (MLPRegressor.Layers regr) (l + 1) = Some nextLayer
    /\ Layer.Ydiff nextLayer = Some nextYdiff
    /\ Layer.Hgrad L = Some hgrad
    /\ Layer.Ypred L = Some ypred
    /\ Layer.Ydiff L1 = Some delta
    /\ Layer.Ytrue L1 = Some ytrue
    /\ Layer.Ydiff L2 = Some ydiff
    /\ J' = J
    /\ rows delta = rows nextYdiff
    /\ cols delta = rows (Layer.Theta nextLayer) - 1
    /\ forall i j, i < rows delta -> j < cols delta ->
         DenseAt delta i j
         = (dot (M nextYdiff)
                (MatFirstColumnRemoved (T (M (Layer.Theta nextLayer)))) i j
            * DenseAt hgrad i j)%float
         /\ DenseAt ytrue i j = (At ypred i j - DenseAt delta i j)%float
         /\ DenseAt ydiff i j = (At ypred i j - DenseAt ytrue i j)%float.
Proof.
  intros Hl H1 H2. unfold computeYdiff in H1.
  inv_bind H1 as Ytrue0 EYt. inv_bind H1 as Ydiff0 EYd. inv_bind H1 as ypred EYp.
  apply deref_Ok_inv in EYt, EYd, EYp.
  destruct (Nat.eqb_spec l (List.length (MLPRegressor.Layers regr) - 1)) as [|_];
    [contradiction|].
  inv_bind H1 as nextLayer En. inv_bind H1 as nextYdiff EnY.
  apply deref_Ok_inv in En, EnY.
  inv_bind H1 as Ydiff1 EM. inv_bind H1 as hgrad EH. apply deref_Ok_inv in EH.
  inv_bind H1 as delta ED. inv_bind H1 as ytrue ES. injection H1 as <-.
  unfold computeLoss in H2. simpl in H2.
  change (Layer.Ypred (Layer.set_Ydiff delta (Layer.set_Ytrue ytrue L)))
    with (Layer.Ypred L) in H2.
  rewrite EYp in H2. simpl in H2.
  destruct (Nat.eqb_spec l (List.length (MLPRegressor.Layers regr) - 1)) as [|_];
    [contradiction|].
  unfold NewLoss in H2. simpl in H2.
  inv_bind H2 as [Jl ydiff] EL. injection H2 as <- <-.
  inv_bind EL as G EG. injection EL as _ <-.
  unfold MatParallelMul in EM.
  apply Mul_spec in EM. destruct EM as (Mr & Mc & Mat).
  apply elementwise_spec in ED. destruct ED as (Dr & Dc & _ & _ & Dat).
  apply elementwise_spec in ES. destruct ES as (Sr & Sc & Sr' & Sc' & Sat).
  apply elementwise_spec in EG. destruct EG as (Gr & Gc & _ & _ & Gat).
  simpl in *.
  exists nextLayer, nextYdiff, hgrad, ypred, delta, ytrue, G.
  repeat (split; [first [assumption|reflexivity|congruence]|]).
  intros i j Hi Hj.
  assert (Hi1 : i < rows Ydiff1) by (rewrite <- Dr; assumption).
  assert (Hj1 : j < cols Ydiff1) by (rewrite <- Dc; assumption).
  assert (Hi2 : i < fst (Dims ypred)) by (rewrite <- Sr'; assumption).
  assert (Hj2 : j < snd (Dims ypred)) by (rewrite <- Sc'; assumption).
  split; [|split].
  - rewrite Dat, Mat by assumption. reflexivity.
  - apply Sat; [rewrite Sr|rewrite Sc]; assumption.
  - apply Gat; [rewrite Gr|rewrite Gc]; assumption.
Qed.

(** ** The shape law over a whole forward pass *)

Section ForwardShape.
Context `{env : Collaborators}.

Lemma initOutputs_inv (L L1 : Layer.t) (b c : nat) (prev : option Layer.t) :
  initOutputs L b c prev = Ok L1 ->
  Layer.Theta L1 = Layer.Theta L /\ Layer.Activation L1 = Layer.Activation L
  /\ shaped (Layer.Ytrue L1) b c /\ shaped (Layer.Z L1) b c
  /\ shaped (Layer.Ydiff L1) b c /\ shaped (Layer.Hgrad L1) b c
  /\ exists nx, Layer.NextX1 L1 = Some nx /\ rows nx = b /\ cols nx = 1 + c
       /\ forall i, i < b -> DenseAt nx i 0 = 1%float.
Proof.
  unfold initOutputs. intros E.
  destruct (NextX1_ones (Layer.NextX1 L) b c) as (nx & Hrun & Hr & Hc & Hones).
  rewrite Hrun in E. simpl in E. injection E as <-. simpl.
  split; [reflexivity|]. split; [reflexivity|].
  repeat (split; [apply mk_shaped|]).
  exists nx. split; [reflexivity|]. split; [assumption|]. split; [assumption|].
  exact Hones.
Qed.

Lemma writeYpred_keeps (nx : Dense) (f : nat -> nat -> float) :
  rows (writeYpred nx f) = rows nx /\ cols (writeYpred nx f) = cols nx
  /\ forall i, i < rows nx -> 0 < cols nx ->
       DenseAt (writeYpred nx f) i 0 = DenseAt nx i 0.
Proof.
  unfold writeYpred. simpl. repeat split.
  intros i Hi Hc. rewrite fill_At by assumption. reflexivity.
Qed.

Lemma forward_shapes (ls : list Layer.t) :
  forall X Zout prev ls' Zout',
    feeds (fst (Dims X)) prev ->
    forward X Zout prev ls = Ok (ls', Zout') ->
    Forall (forward_shaped (fst (Dims X))) ls'.
Proof.
  induction ls as [|L rest IH]; intros X Zout prev ls' Zout' Hprev H; simpl in H.
  - injection H as <- _. constructor.
  - inv_bind H as Xl EX. inv_bind H as L1 EI. inv_bind H as Zd EZ.
    inv_bind H as Z' EM. inv_bind H as nx EN. inv_bind H as [rest' Zo] ER.
    injection H as <- _.
    apply deref_Ok_inv in EZ, EN.
    apply initOutputs_inv in EI.
    destruct EI as (HT & _ & HYt & HZ & HYd & HHg & nx0 & Enx & Hr & Hc & Hones).
    rewrite Enx in EN. injection EN as <-.
    assert (HXl : fst (Dims Xl) = fst (Dims X)).
    { destruct prev as [p|]; simpl in EX.
      - destruct Hprev as (pnx & Ep & Hpr). unfold Layer.Ypred in EX.
        rewrite Ep in EX. simpl in EX. injection EX as <-. simpl. exact Hpr.
      - injection EX as <-. reflexivity. }
    apply Mul_spec in EM. destruct EM as (Mr & Mc & _). simpl in Mr, Mc.
    rewrite HXl in Mr.
    destruct (writeYpred_keeps nx0
                (fun i j => actF (NewActivation (Layer.Activation L1)) (DenseAt Z' i j)))
      as (Wr & Wc & W0).
    constructor.
    + unfold forward_shaped. simpl. rewrite HT.
      split; [assumption|].
      split; [exists Z'; rewrite Mr, Mc, HT; auto|].
      split; [assumption|]. split; [assumption|].
      eexists; split; [reflexivity|].
      split; [congruence|]. split; [rewrite Wc; exact Hc|].
      intros i Hi. rewrite W0 by lia. apply Hones. assumption.
    + eapply IH; [|eassumption]. simpl.
      eexists; split; [reflexivity|]. congruence.
Qed.

End ForwardShape.

(** The forward-pass shape law.  Whenever [predictZH] returns for an input
    of [b] rows, every layer's Ytrue, Z, Ydiff and Hgrad have [b] rows and
    as many columns as the layer has outputs, its augmented-input buffer has
    one column more, and column 0 of that buffer is 1.0 in every row. *)
Theorem predictZH_shape_law `{env : Collaborators}
    (regr regr' : MLPRegressor.t) (X : Matrix) (Zout Yout Zout' Yout' : option Dense)
    (fitting : bool) :
  predictZH regr X Zout Yout fitting = Ok (regr', Zout', Yout') ->
  Forall (forward_shaped (fst (Dims X))) (MLPRegressor.Layers regr').
Proof.
  unfold predictZH. intros H.
  inv_bind H as [ls Zo] EF. inv_bind H as Yo EY. injection H as <- _ _.
  simpl. eapply forward_shapes; [|eassumption]. exact I.
Qed.

(** ** The output layer's activation *)

Lemma lastLayer_snoc (ls : list Layer.t) (L : Layer.t) : lastLayer (ls ++ [L]) = Ok L.
Proof.
  unfold lastLayer. destruct (ls ++ [L]) as [|h t] eqn:E.
  - destruct ls; discriminate.
  - rewrite <- E. rewrite length_app. simpl.
    replace (List.length ls + 1 - 1) with (List.length ls) by lia.
    rewrite nth_error_app2 by lia. rewrite Nat.sub_diag. reflexivity.
Qed.

(** The output layer built by [allocLayers] is logistic exactly when the
    field [LossName] is "cross-entropy" or "log"; otherwise it has the
    activation of the hidden layers.  The field [Loss] plays no part. *)
Theorem allocLayers_output_activation `{env : Collaborators}
    (regr regr' : MLPRegressor.t) (nFeatures nOutputs : nat) (g g' : Rand) :
  allocLayers regr nFeatures nOutputs g = Ok (regr', g') ->
  exists L, lastLayer (MLPRegressor.Layers regr') = Ok L
    /\ Layer.Activation L
       = if String.eqb (MLPRegressor.LossName regr) "cross-entropy"
            || String.eqb (MLPRegressor.LossName regr) "log"
         then "logistic"%string else MLPRegressor.Activation regr.
Proof.
  unfold allocLayers. intros E.
  inv_bind E as [[[hl po] off] g0] E1. inv_bind E as o E2. inv_bind E as ts E3.
  inv_bind E as gs E4. inv_bind E as us E5. inv_bind E as [L g2] E6.
  injection E as <- _. simpl. exists L. split; [apply lastLayer_snoc|].
  unfold NewLayer in E6. inv_bind E6 as T0 F1.
  destruct (draws _ g0) as [w gw].
  inv_bind E6 as G0 F2. inv_bind E6 as U0 F3. injection E6 as <- _. reflexivity.
Qed.

(** ** The first-loss field *)

(** [fitEpoch] leaves its total loss in [J] at every epoch index, and in
    [JFirst] at epoch index 1 only: at any other index, 0 included,
    [JFirst] keeps the value it had. *)
Theorem fitEpoch_stores_JFirst_at_index_1 `{env : Collaborators}
    (s s' : FitState) (epoch : Z) (Jsum : float) :
  fitEpoch s epoch = Ok (s', Jsum) ->
  MLPRegressor.J (fs_regr s') = Jsum
  /\ MLPRegressor.JFirst (fs_regr s')
     = if (epoch =? 1)%Z then Jsum else MLPRegressor.JFirst (fs_regr s).
Proof.
  unfold fitEpoch, fitEpochGen. intros H.
  inv_bind H as [[Xf Yf] g] E1. inv_bind H as [r1 J1] E2.
  injection H as <- <-. simpl.
  assert (HJF : MLPRegressor.JFirst r1 = MLPRegressor.JFirst (fs_regr s)).
  { eapply only_layers_JFirst, miniBatches_frame, E2. }
  split.
  - destruct (epoch =? 1)%Z; reflexivity.
  - destruct (epoch =? 1)%Z; simpl; [reflexivity|assumption].
Qed.

(** ** The bias row and the penalty *)

Lemma tab_ext (r c : nat) (f g : nat -> nat -> float) :
  (forall i j, f i j = g i j) -> tab r c f = tab r c g.
Proof.
  intros H. unfold tab. apply flat_map_ext. intros i. apply map_ext. intros j. apply H.
Qed.

Lemma Sum_ext (a b : Matrix) :
  Dims a = Dims b -> (forall i j, At a i j = At b i j) -> Sum a = Sum b.
Proof. intros Hd H. unfold Sum. rewrite Hd, (tab_ext _ _ _ _ H). reflexivity. Qed.

Lemma elementwise_ext op (m : Dense) (a b b' : Matrix) :
  Dims b = Dims b' -> (forall i j, At b i j = At b' i j) ->
  elementwise op m a b = elementwise op m a b'.
Proof.
  intros Hd H. unfold elementwise, same_dims. rewrite Hd.
  destruct (_ && _); [|reflexivity].
  destruct (reuseAs m (fst (Dims a)) (snd (Dims a))) as [m'| |]; simpl; try reflexivity.
  unfold fill. f_equal. f_equal. f_equal. apply tab_ext. intros i j. rewrite H. reflexivity.
Qed.

(** The penalty never looks at the bias row: whatever the bias weights
    are, [regularize] adds the same amount to the loss and leaves the same
    gradient, for every Alpha and L1Ratio. *)
Theorem regularize_ignores_bias_row
    (regr : MLPRegressor.t) (nSamples : nat) (L : Layer.t) (J : float) (th' : Dense) :
  same_below_bias (Layer.Theta L) th' ->
  regularize regr nSamples (Layer.set_Theta th' L) J
  = '(L1, J1) <- regularize regr nSamples L J ;; Ok (Layer.set_Theta th' L1, J1).
Proof.
  intros (Hr & Hc & Hcells). unfold regularize.
  destruct (0 <? MLPRegressor.Alpha regr)%float; [|reflexivity].
  simpl Layer.Theta. simpl Layer.Grad.
  assert (Hd : forall f : float -> float,
             Dims (matApply (MatFirstRowZeroed (M th')) f)
             = Dims (matApply (MatFirstRowZeroed (M (Layer.Theta L))) f)).
  { intros f. simpl. rewrite Hr, Hc. reflexivity. }
  assert (Ha : forall i j,
             At (MatFirstRowZeroed (M th')) i j
             = At (MatFirstRowZeroed (M (Layer.Theta L))) i j).
  { intros [|i] j; simpl; [reflexivity|apply Hcells]. }
  rewrite (Sum_ext (matApply (MatFirstRowZeroed (M th')) PrimFloat.abs)
                   (matApply (MatFirstRowZeroed (M (Layer.Theta L))) PrimFloat.abs))
    by (try apply Hd; intros i j; simpl; f_equal; apply Ha).
  rewrite (Sum_ext (matMulElem (MatFirstRowZeroed (M th')) (MatFirstRowZeroed (M th')))
                   (matMulElem (MatFirstRowZeroed (M (Layer.Theta L)))
                               (MatFirstRowZeroed (M (Layer.Theta L)))))
    by (try apply (Hd (fun x => x)); intros i j; simpl; f_equal; apply Ha).
  unfold Add.
  rewrite (elementwise_ext PrimFloat.add (Layer.Grad L) (M (Layer.Grad L))
             (matScale (matApply (MatFirstRowZeroed (M th')) sgn)
                       (MLPRegressor.Alpha regr / float64 nSamples))
             (matScale (matApply (MatFirstRowZeroed (M (Layer.Theta L))) sgn)
                       (MLPRegressor.Alpha regr / float64 nSamples)))
    by (try apply (Hd sgn); intros i j; simpl; do 2 f_equal; apply Ha).
  destruct (0 <? MLPRegressor.L1Ratio regr)%float.
  - destruct (elementwise PrimFloat.add (Layer.Grad L) _ _) as [G1| |]; simpl;
      try reflexivity.
    destruct (MLPRegressor.L1Ratio regr <? 1)%float; simpl; [|reflexivity].
    rewrite (elementwise_ext PrimFloat.add G1 (M G1)
               (matScale (MatFirstRowZeroed (M th'))
                         (MLPRegressor.Alpha regr / float64 nSamples))
               (matScale (MatFirstRowZeroed (M (Layer.Theta L)))
                         (MLPRegressor.Alpha regr / float64 nSamples)))
      by (try apply (Hd (fun x => x)); intros i j; simpl; f_equal; apply Ha).
    destruct (elementwise PrimFloat.add G1 _ _) as [G2| |]; reflexivity.
  - simpl. destruct (MLPRegressor.L1Ratio regr <? 1)%float; simpl; [|reflexivity].
    rewrite (elementwise_ext PrimFloat.add (Layer.Grad L) (M (Layer.Grad L))
               (matScale (MatFirstRowZeroed (M th'))
                         (MLPRegressor.Alpha regr / float64 nSamples))
               (matScale (MatFirstRowZeroed (M (Layer.Theta L)))
                         (MLPRegressor.Alpha regr / float64 nSamples)))
      by (try apply (Hd (fun x => x)); intros i j; simpl; f_equal; apply Ha).
    destruct (elementwise PrimFloat.add (Layer.Grad L) _ _) as [G2| |]; reflexivity.
Qed.

(** * More of the engine, and the other packages *)

(** ** What [allocLayers] builds *)

Lemma skipn_repeat_zero {A} (x : A) (n k : nat) : skipn k (repeat x n) = repeat x (n - k).
Proof.
  revert k; induction n as [|n IH]; intros [|k]; simpl; auto.
Qed.

Lemma firstn_repeat_zero {A} (x : A) (n k : nat) : k <= n -> firstn k (repeat x n) = repeat x k.
Proof.
  revert k; induction n as [|n IH]; intros [|k] H; simpl; auto; try lia.
  f_equal. apply IH. lia.
Qed.

Lemma subslice_repeat (x : float) (n lo len : nat) :
  subslice (repeat x n) lo (lo + len)
  = if lo + len <=? n then Ok (repeat x len) else Panic.
Proof.
  unfold subslice. rewrite repeat_length.
  destruct (Nat.leb_spec lo (lo + len)) as [_|H]; [|lia]. simpl.
  destruct (Nat.leb_spec (lo + len) n) as [H|H]; [|reflexivity].
  replace (lo + len - lo) with len by lia.
  rewrite skipn_repeat_zero, firstn_repeat_zero by lia. reflexivity.
Qed.

Lemma last_cons {A : Type} (l : list A) : forall a d, last (a :: l) d = last l a.
Proof.
  induction l as [|b l IH]; intros a d; [reflexivity|].
  change (last (a :: b :: l) d) with (last (b :: l) d).
  rewrite (IH b d), (IH b a). reflexivity.
Qed.

Section Alloc.
Context `{env : Collaborators}.

Lemma draws_length (n : nat) : forall g, List.length (fst (draws n g)) = n.
Proof.
  induction n as [|n IH]; intros g; simpl; auto.
  destruct (NormFloat64 g) as [x g1]. specialize (IH g1).
  destruct (draws n g1) as [xs g2]. simpl in *. congruence.
Qed.

Lemma draws_app (a b : nat) : forall g,
  draws (a + b) g
  = (fst (draws a g) ++ fst (draws b (snd (draws a g))), snd (draws b (snd (draws a g)))).
Proof.
  induction a as [|a IH]; intros g; simpl.
  - destruct (draws b g); reflexivity.
  - destruct (NormFloat64 g) as [x g1]. rewrite IH.
    destruct (draws a g1) as [xs g2]. simpl.
    destruct (draws b g2) as [ys g3]. reflexivity.
Qed.

(** [NewLayer] on zeroed slices of the right length. *)
Lemma NewLayer_zeros (i o : nat) (act : string) (opt : Optimizer) (len : nat) (g : Rand) :
  NewLayer i o act opt (repeat 0%float len) (repeat 0%float len) (repeat 0%float len) g
  = if len =? i * o
    then Ok (Layer.mk act None None None None None (mkDense i o (fst (draws (i * o) g)))
                      (mkDense i o (repeat 0%float len)) (mkDense i o (repeat 0%float len)) opt,
             snd (draws (i * o) g))
    else Panic.
Proof.
  unfold NewLayer, NewDense. rewrite repeat_length.
  destruct (len =? i * o); simpl; [|reflexivity].
  destruct (draws (i * o) g); reflexivity.
Qed.

Lemma allocHidden_spec (regr : MLPRegressor.t) (c : OptimCreator) (n nOutputs : nat) :
  MLPRegressor.Optimizer regr = Some c ->
  forall hidden prev off g,
    off + thetaLenOf prev hidden nOutputs <= n ->
    exists Ls off',
      allocHidden regr (repeat 0%float n) hidden prev off g
      = Ok (Ls, last hidden prev, off', snd (draws (off' - off) g))
      /\ off <= off'
      /\ off' + inputs (last hidden prev) * nOutputs = off + thetaLenOf prev hidden nOutputs
      /\ map (fun L => shapeOf (Layer.Theta L)) Ls = layerShapes prev hidden
      /\ Forall fresh Ls
      /\ map Layer.Activation Ls
         = repeat (MLPRegressor.Activation regr) (List.length hidden)
      /\ Forall (fun L => Layer.Optimizer L = c tt) Ls
      /\ flat_map (fun L => data (Layer.Theta L)) Ls = fst (draws (off' - off) g).
Proof.
  intros Hc. induction hidden as [|outputs rest IH]; intros prev off g Hn.
  - exists [], off. simpl. rewrite Nat.sub_diag. simpl.
    repeat split; auto.
  - cbn [thetaLenOf] in Hn. cbn [allocHidden]. unfold newOptimizer. rewrite Hc. cbn [bind].
    rewrite subslice_repeat.
    destruct (Nat.leb_spec (off + inputs prev * outputs) n) as [_|H]; [|lia].
    cbn [bind]. rewrite NewLayer_zeros, Nat.eqb_refl. cbn [bind].
    destruct (IH outputs (off + inputs prev * outputs)
                 (snd (draws (inputs prev * outputs) g))) as
      (Ls & off' & E & Hle & Hoff & Hsh & Hfr & Hact & Hopt & Hth); [lia|].
    rewrite E. cbn [bind].
    rewrite last_cons.
    eexists; exists off'.
    replace (off' - off) with (inputs prev * outputs + (off' - (off + inputs prev * outputs)))
      by lia.
    rewrite draws_app. cbn [fst snd].
    split; [reflexivity|].
    split; [lia|]. split; [cbn [thetaLenOf]; lia|].
    split; [simpl; unfold shapeOf at 1; simpl; rewrite Hsh; reflexivity|].
    split.
    { constructor; [|assumption]. unfold fresh, shapeOf; simpl.
      rewrite draws_length. repeat split; reflexivity. }
    split; [simpl; rewrite Hact; reflexivity|].
    split; [constructor; [reflexivity|assumption]|].
    simpl. rewrite Hth. reflexivity.
Qed.

Lemma layerShapes_snoc (sizes : list nat) : forall prev nOutputs,
  layerShapes prev (sizes ++ [nOutputs])
  = layerShapes prev sizes ++ [(1 + last sizes prev, nOutputs)].
Proof.
  induction sizes as [|a rest IH]; intros prev nOutputs; [reflexivity|].
  cbn [app layerShapes]. rewrite IH, last_cons. reflexivity.
Qed.

Lemma allocLayers_spec (regr : MLPRegressor.t) (c : OptimCreator) (nFeatures nOutputs : nat)
    (g : Rand) :
  MLPRegressor.Optimizer regr = Some c ->
  let thetaLen := thetaLenOf nFeatures (MLPRegressor.HiddenLayerSizes regr) nOutputs in
  exists Ls L,
    allocLayers regr nFeatures nOutputs g
    = Ok (MLPRegressor.set_Layers (Ls ++ [L]) regr, snd (draws thetaLen g))
    /\ map (fun L => shapeOf (Layer.Theta L)) (Ls ++ [L])
       = layerShapes nFeatures (MLPRegressor.HiddenLayerSizes regr ++ [nOutputs])
    /\ Forall fresh (Ls ++ [L])
    /\ map Layer.Activation (Ls ++ [L])
       = repeat (MLPRegressor.Activation regr)
                (List.length (MLPRegressor.HiddenLayerSizes regr))
         ++ [lastActivationOf regr]
    /\ Forall (fun L => Layer.Optimizer L = c tt) (Ls ++ [L])
    /\ flat_map (fun L => data (Layer.Theta L)) (Ls ++ [L]) = fst (draws thetaLen g).
Proof.
  intros Hc thetaLen. unfold allocLayers. fold thetaLen.
  destruct (allocHidden_spec regr c thetaLen nOutputs Hc
              (MLPRegressor.HiddenLayerSizes regr) nFeatures 0 g (Nat.le_refl _))
    as (Ls & off' & E & _ & Hoff & Hsh & Hfr & Hact & Hopt & Hth).
  fold thetaLen in Hoff. rewrite Nat.add_0_l in Hoff.
  rewrite E. cbn [bind]. unfold newOptimizer. rewrite Hc. cbn [bind].
  rewrite subslice_repeat.
  destruct (Nat.leb_spec (off' + inputs (last (MLPRegressor.HiddenLayerSizes regr) nFeatures)
                                 * nOutputs) thetaLen) as [_|H].
  2:{ lia. }
  cbn [bind]. change (1 + last (MLPRegressor.HiddenLayerSizes regr) nFeatures)
    with (inputs (last (MLPRegressor.HiddenLayerSizes regr) nFeatures)).
  rewrite NewLayer_zeros, Nat.eqb_refl. cbn [bind].
  rewrite Nat.sub_0_r in *.
  replace thetaLen
    with (off' + inputs (last (MLPRegressor.HiddenLayerSizes regr) nFeatures) * nOutputs)
    by lia.
  rewrite draws_app. cbn [fst snd].
  eexists; eexists. split; [reflexivity|].
  split.
  { rewrite map_app, Hsh, layerShapes_snoc. reflexivity. }
  split.
  { apply Forall_app. split; [assumption|]. constructor; [|constructor].
    unfold fresh, shapeOf; simpl. rewrite draws_length. repeat split; reflexivity. }
  split; [rewrite map_app, Hact; reflexivity|].
  split; [apply Forall_app; split; [assumption|constructor; [reflexivity|constructor]]|].
  rewrite flat_map_app, Hth. simpl. rewrite app_nil_r. reflexivity.
Qed.

Lemma allocLayers_no_optimizer (regr : MLPRegressor.t) (nFeatures nOutputs : nat) (g : Rand) :
  MLPRegressor.Optimizer regr = None -> allocLayers regr nFeatures nOutputs g = Panic.
Proof.
  intros Hc. unfold allocLayers.
  destruct (MLPRegressor.HiddenLayerSizes regr) as [|a rest]; cbn [allocHidden bind];
    unfold newOptimizer; rewrite Hc; reflexivity.
Qed.

End Alloc.

(** The architecture [allocLayers] builds.  Whenever it returns there is
    one layer per hidden size and the output layer; the weights of each have
    one row per output of the layer before (per feature, for the first) plus
    the bias row, and one column per output of the layer; the hidden layers
    have the regressor's activation and the output layer the one chosen from
    [LossName]; gradient and update have the shape of the weights. *)
Theorem allocLayers_architecture `{env : Collaborators}
    (regr regr' : MLPRegressor.t) (nFeatures nOutputs : nat) (g g' : Rand) :
  allocLayers regr nFeatures nOutputs g = Ok (regr', g') ->
  map (fun L => shapeOf (Layer.Theta L)) (MLPRegressor.Layers regr')
  = layerShapes nFeatures (MLPRegressor.HiddenLayerSizes regr ++ [nOutputs])
  /\ map Layer.Activation (MLPRegressor.Layers regr')
     = repeat (MLPRegressor.Activation regr)
              (List.length (MLPRegressor.HiddenLayerSizes regr))
       ++ [lastActivationOf regr]
  /\ Forall (fun L => shapeOf (Layer.Grad L) = shapeOf (Layer.Theta L)
                      /\ shapeOf (Layer.Update L) = shapeOf (Layer.Theta L))
            (MLPRegressor.Layers regr').
Proof.
  intros E.
  destruct (MLPRegressor.Optimizer regr) as [c|] eqn:Hc;
    [|rewrite allocLayers_no_optimizer in E by assumption; discriminate].
  destruct (allocLayers_spec regr c nFeatures nOutputs g Hc)
    as (Ls & L & E' & Hsh & Hfr & Hact & _).
  rewrite E' in E. injection E as <- _.
  cbn [MLPRegressor.Layers MLPRegressor.set_Layers].
  split; [assumption|]. split; [assumption|].
  eapply Forall_impl; [|exact Hfr]. intros L0 (_ & _ & _ & _ & _ & HG & HU & _). auto.
Qed.

(** The values [allocLayers] starts from.  The weights of all layers,
    layer after layer and row after row, are [thetaLen] consecutive draws
    of [rnd], not one more and not one less; every gradient and update is
    zero and no scratch buffer is allocated yet. *)
Theorem allocLayers_initial_values `{env : Collaborators}
    (regr regr' : MLPRegressor.t) (nFeatures nOutputs : nat) (g g' : Rand) :
  allocLayers regr nFeatures nOutputs g = Ok (regr', g') ->
  let thetaLen := thetaLenOf nFeatures (MLPRegressor.HiddenLayerSizes regr) nOutputs in
  MLPRegressor.thetaSlice regr' = fst (draws thetaLen g)
  /\ g' = snd (draws thetaLen g)
  /\ Forall fresh (MLPRegressor.Layers regr').
Proof.
  intros E thetaLen.
  destruct (MLPRegressor.Optimizer regr) as [c|] eqn:Hc;
    [|rewrite allocLayers_no_optimizer in E by assumption; discriminate].
  destruct (allocLayers_spec regr c nFeatures nOutputs g Hc)
    as (Ls & L & E' & _ & Hfr & _ & _ & Hth).
  rewrite E' in E. injection E as <- <-.
  unfold MLPRegressor.thetaSlice. cbn [MLPRegressor.Layers MLPRegressor.set_Layers].
  auto.
Qed.

(** For positive layer sizes whose weights fit one Go slice (the arena
    length [thetaLen] is at most [maxSliceLen], so that no [int] wraps and
    [make] accepts it), [allocLayers] returns as soon as an optimizer
    creator is set: the slices it cuts from its arenas are in range and
    exactly as long as the matrices need.  Without a creator it panics. *)
Theorem allocLayers_returns `{env : Collaborators}
    (regr : MLPRegressor.t) (nFeatures nOutputs : nat) (g : Rand) :
  Forall (fun n => 0 < n) (MLPRegressor.HiddenLayerSizes regr) -> 0 < nOutputs ->
  (Z.of_nat (thetaLenOf nFeatures (MLPRegressor.HiddenLayerSizes regr) nOutputs)
   <= maxSliceLen)%Z ->
  match MLPRegressor.Optimizer regr with
  | Some _ => exists regr' g', allocLayers regr nFeatures nOutputs g = Ok (regr', g')
  | None => allocLayers regr nFeatures nOutputs g = Panic
  end.
Proof.
  intros _ _ _. destruct (MLPRegressor.Optimizer regr) as [c|] eqn:Hc.
  - destruct (allocLayers_spec regr c nFeatures nOutputs g Hc) as (Ls & L & E & _).
    eauto.
  - apply allocLayers_no_optimizer. assumption.
Qed.

(** ** What the forward pass computes, and what it leaves *)

Section Forward.
Context `{env : Collaborators}.

Lemma initOutputs_trainedPart (L L1 : Layer.t) (b c : nat) (prev : option Layer.t) :
  initOutputs L b c prev = Ok L1 -> trainedPart L1 = trainedPart L.
Proof.
  unfold initOutputs. intros E. inv_bind E as nx E1. injection E as <-. reflexivity.
Qed.

Lemma forward_trainedPart (ls : list Layer.t) :
  forall X Zout prev ls' Zout',
    forward X Zout prev ls = Ok (ls', Zout') ->
    map trainedPart ls' = map trainedPart ls.
Proof.
  induction ls as [|L rest IH]; intros X Zout prev ls' Zout' H; simpl in H.
  - injection H as <- _. reflexivity.
  - inv_bind H as Xl EX. inv_bind H as L1 EI. inv_bind H as Zd EZ.
    inv_bind H as Z' EM. inv_bind H as nx EN. inv_bind H as [rest' Zo] ER.
    injection H as <- _.
    apply initOutputs_trainedPart in EI. apply IH in ER.
    simpl. rewrite ER. f_equal. rewrite <- EI. reflexivity.
Qed.

Lemma forward_computes (ls : list Layer.t) :
  forall X Xl Zout prev ls' Zout',
    feeds (fst (Dims X)) prev ->
    match prev with None => Ok X | Some p => deref (Layer.Ypred p) end = Ok Xl ->
    forward X Zout prev ls = Ok (ls', Zout') ->
    forward_chain Xl ls'.
Proof.
  induction ls as [|L rest IH]; intros X Xl Zout prev ls' Zout' Hprev HXl H; simpl in H.
  - injection H as <- _. exact I.
  - rewrite HXl in H. cbn [bind] in H.
    inv_bind H as L1 EI. inv_bind H as Zd EZ.
    inv_bind H as Z' EM. inv_bind H as nx EN. inv_bind H as [rest' Zo] ER.
    injection H as <- _.
    apply deref_Ok_inv in EZ, EN.
    pose proof (initOutputs_trainedPart _ _ _ _ _ EI) as HTP.
    apply initOutputs_inv in EI.
    destruct EI as (HT & HA & _ & _ & _ & _ & nx0 & Enx & Hr & Hc & _).
    rewrite Enx in EN. injection EN as <-.
    assert (HXr : fst (Dims Xl) = fst (Dims X)).
    { destruct prev as [p|]; simpl in HXl.
      - destruct Hprev as (pnx & Ep & Hpr). unfold Layer.Ypred in HXl.
        rewrite Ep in HXl. simpl in HXl. injection HXl as <-. simpl. exact Hpr.
      - injection HXl as <-. reflexivity. }
    assert (Hin : rows (Layer.Theta L1) = 1 + snd (Dims Xl)).
    { unfold Mul in EM. cbn [Dims onesAddedMat M fst snd] in EM.
      destruct (Nat.eqb_spec (1 + snd (Dims Xl)) (rows (Layer.Theta L1))) as [e|];
        [|discriminate EM].
      symmetry. exact e. }
    apply Mul_spec in EM. destruct EM as (Mr & Mc & Mat). simpl in Mr, Mc.
    set (act := NewActivation (Layer.Activation L1)) in *.
    set (nx' := writeYpred nx0 (fun i j => actF act (DenseAt Z' i j))) in *.
    cbn [forward_chain]. split.
    + unfold forward_law. simpl. split; [exact Hin|].
      exists Z', nx'. split; [reflexivity|]. split; [reflexivity|].
      intros i j Hi Hj. split.
      * apply Mat; [rewrite Mr|rewrite Mc]; assumption.
      * unfold nx', writeYpred. rewrite HT in Hj. rewrite fill_At by lia. reflexivity.
    + unfold Layer.Ypred at 1. simpl.
      eapply IH; [| |exact ER].
      * simpl. exists nx'. split; [reflexivity|]. unfold nx', writeYpred. simpl. congruence.
      * reflexivity.
Qed.
End Forward.

(** The forward pass does not train.  Whenever [predictZH] returns (hence
    [Predict], the classifier's [Predict] and the forward half of a
    minibatch), every layer has the activation, weights, gradient, update
    and optimizer it had. *)
Theorem predictZH_keeps_weights `{env : Collaborators}
    (regr regr' : MLPRegressor.t) (X : Matrix) (Zout Yout Zout' Yout' : option Dense)
    (fitting : bool) :
  predictZH regr X Zout Yout fitting = Ok (regr', Zout', Yout') ->
  map trainedPart (MLPRegressor.Layers regr') = map trainedPart (MLPRegressor.Layers regr).
Proof.
  unfold predictZH. intros H.
  inv_bind H as [ls Zo] EF. inv_bind H as Yo EY. injection H as <- _ _.
  simpl. eapply forward_trainedPart, EF.
Qed.

(** What the forward pass computes.  Whenever [predictZH] returns, every
    layer's [Z] is its input, with the column of ones added, times its
    weights, and its prediction is the activation of [Z], cell by cell;
    the input of the first layer is [X], the input of every other one the
    prediction of the layer before; and the weights have one row per input
    column plus one. *)
Theorem predictZH_computes `{env : Collaborators}
    (regr regr' : MLPRegressor.t) (X : Matrix) (Zout Yout Zout' Yout' : option Dense)
    (fitting : bool) :
  predictZH regr X Zout Yout fitting = Ok (regr', Zout', Yout') ->
  forward_chain X (MLPRegressor.Layers regr').
Proof.
  unfold predictZH. intros H.
  inv_bind H as [ls Zo] EF. inv_bind H as Yo EY. injection H as <- _ _.
  simpl. eapply (forward_computes _ X X Zout None); [exact I|reflexivity|exact EF].
Qed.

(** ** The architecture under training *)

Lemma map_set_nth {A B : Type} (f : A -> B) (x y : A) (l : list A) :
  forall n, nth_error l n = Some y -> f x = f y -> map f (set_nth n x l) = map f l.
Proof.
  induction l as [|h t IH]; intros [|n] Hn Hf; simpl in *; try discriminate.
  - injection Hn as ->. rewrite Hf. reflexivity.
  - rewrite (IH n Hn Hf). reflexivity.
Qed.

Section Backward.
Context `{env : Collaborators}.
Variable skipReg : bool.

Lemma trainedPart_arch (ls ls' : list Layer.t) :
  map trainedPart ls' = map trainedPart ls -> map archOf ls' = map archOf ls.
Proof.
  revert ls'; induction ls as [|L ls IH]; intros [|L' ls'] H; simpl in *;
    try discriminate; auto.
  injection H as HA HT HG HU HO Hrest. unfold archOf at 1 3. rewrite HA, HT.
  f_equal. apply IH. assumption.
Qed.

Lemma computeYdiff_arch layers l L Y L1 :
  computeYdiff layers l L Y = Ok L1 -> archOf L1 = archOf L.
Proof.
  unfold computeYdiff. intros H.
  inv_bind H as a1 E1. inv_bind H as a2 E2. inv_bind H as a3 E3.
  destruct (l =? List.length layers - 1).
  - inv_bind H as u E4. inv_bind H as a5 E5. injection H as <-. reflexivity.
  - inv_bind H as a4 E4. inv_bind H as a5 E5. inv_bind H as a6 E6. inv_bind H as a7 E7.
    inv_bind H as a8 E8. inv_bind H as a9 E9. injection H as <-. reflexivity.
Qed.

Lemma computeLoss_arch regr l L nOutputs mbp J L2 J' :
  computeLoss regr l L nOutputs mbp J = Ok (L2, J') -> archOf L2 = archOf L.
Proof.
  unfold computeLoss. intros H.
  inv_bind H as a1 E1. inv_bind H as a2 E2. inv_bind H as a3 E3.
  destruct (l =? List.length (MLPRegressor.Layers regr) - 1);
    inv_bind H as [Jl Yd] E4; injection H as <- _; reflexivity.
Qed.

Lemma computeGrad_arch L Xl L3 : computeGrad L Xl = Ok L3 -> archOf L3 = archOf L.
Proof.
  unfold computeGrad. intros H.
  inv_bind H as a1 E1. inv_bind H as a2 E2. inv_bind H as a3 E3. inv_bind H as a4 E4.
  inv_bind H as a5 E5. inv_bind H as a6 E6. injection H as <-. reflexivity.
Qed.

Lemma regularize_arch regr nSamples L J L4 J' :
  regularize regr nSamples L J = Ok (L4, J') -> archOf L4 = archOf L.
Proof.
  unfold regularize. intros H.
  destruct (0 <? MLPRegressor.Alpha regr)%float; [|injection H as <- _; reflexivity].
  inv_bind H as [R1 G1] E1. inv_bind H as [R2 G2] E2. injection H as <- _. reflexivity.
Qed.

Lemma clipGradient_arch regr L L5 : clipGradient regr L = Ok L5 -> archOf L5 = archOf L.
Proof.
  unfold clipGradient. intros H.
  destruct (0 <? MLPRegressor.GradientClipping regr)%float; [|injection H as <-; reflexivity].
  destruct (_ <? _)%float; [|injection H as <-; reflexivity].
  inv_bind H as G E. injection H as <-. reflexivity.
Qed.

Lemma applyUpdate_arch L L6 : applyUpdate L = Ok L6 -> archOf L6 = archOf L.
Proof.
  unfold applyUpdate. intros H.
  inv_bind H as [o U] E1. inv_bind H as Th E2. injection H as <-.
  apply elementwise_spec in E2. destruct E2 as (Hr & Hc & _).
  unfold archOf, shapeOf. simpl in *. rewrite Hr, Hc. reflexivity.
Qed.

Lemma backpropLayer_arch regr X Y mbp nSamples l J regr' J' :
  backpropLayer skipReg regr X Y mbp nSamples l J = Ok (regr', J') ->
  map archOf (MLPRegressor.Layers regr') = map archOf (MLPRegressor.Layers regr).
Proof.
  unfold backpropLayer. intros H.
  inv_bind H as L E1. inv_bind H as Xl E2. inv_bind H as L1 E3.
  inv_bind H as [L2 J1] E4. inv_bind H as L3 E5. inv_bind H as [L4 J2] E6.
  inv_bind H as L5 E7. inv_bind H as L6 E8. injection H as <- _.
  apply deref_Ok_inv in E1.
  apply computeYdiff_arch in E3. apply computeLoss_arch in E4.
  apply computeGrad_arch in E5. apply clipGradient_arch in E7. apply applyUpdate_arch in E8.
  assert (H46 : archOf L4 = archOf L3).
  { destruct skipReg; [injection E6 as <- _; reflexivity|].
    eapply regularize_arch; eassumption. }
  simpl. apply (map_set_nth archOf L6 L _ l E1). congruence.
Qed.

Lemma backpropFrom_arch n :
  forall regr X Y mbp nSamples J regr' J',
    backpropFrom skipReg n regr X Y mbp nSamples J = Ok (regr', J') ->
    map archOf (MLPRegressor.Layers regr') = map archOf (MLPRegressor.Layers regr).
Proof.
  induction n as [|l IH]; simpl; intros regr X Y mbp nSamples J regr' J' H.
  - injection H as <- _. reflexivity.
  - inv_bind H as [r1 J1] E1. apply backpropLayer_arch in E1. apply IH in H. congruence.
Qed.

Lemma fitMiniBatch_arch regr Xm Ym epoch len nSamples regr' J' :
  fitMiniBatchGen skipReg regr Xm Ym epoch len nSamples = Ok (regr', J') ->
  map archOf (MLPRegressor.Layers regr') = map archOf (MLPRegressor.Layers regr).
Proof.
  unfold fitMiniBatchGen, backpropGen. intros H.
  inv_bind H as [[r1 Zo] Yo] E1.
  apply backpropFrom_arch in H. rewrite H.
  apply trainedPart_arch.
  unfold predictZH in E1. inv_bind E1 as [ls Z1] EF. inv_bind E1 as Y1 EY.
  injection E1 as <- _ _. simpl. eapply forward_trainedPart, EF.
Qed.

Lemma miniBatches_arch fuel :
  forall regr Xf Yf epoch nS nF nO st en Jsum regr' Jsum',
    miniBatches skipReg fuel regr Xf Yf epoch nS nF nO st en Jsum = Ok (regr', Jsum') ->
    map archOf (MLPRegressor.Layers regr') = map archOf (MLPRegressor.Layers regr).
Proof.
  induction fuel as [|fuel IH];
    intros regr Xf Yf epoch nS nF nO st en Jsum regr' Jsum' H; simpl in H;
    destruct (st <? nS); try discriminate;
    try (injection H as <- _; reflexivity).
  inv_bind H as Xm E1. inv_bind H as Ym E2. inv_bind H as [r1 Jm] E3.
  apply fitMiniBatch_arch in E3. apply IH in H. congruence.
Qed.

Lemma fitEpoch_arch s epoch s' Jsum :
  fitEpochGen skipReg s epoch = Ok (s', Jsum) ->
  map archOf (MLPRegressor.Layers (fs_regr s')) = map archOf (MLPRegressor.Layers (fs_regr s)).
Proof.
  unfold fitEpochGen. intros H.
  inv_bind H as [[Xf Yf] g] E1. inv_bind H as [r1 J1] E2.
  injection H as <- _. apply miniBatches_arch in E2. rewrite <- E2.
  simpl. destruct (epoch =? 1)%Z; reflexivity.
Qed.

Lemma epochsLoop_arch fuel :
  forall s epoch s' Js,
    epochsLoop skipReg fuel s epoch = Ok (s', Js) ->
    map archOf (MLPRegressor.Layers (fs_regr s')) = map archOf (MLPRegressor.Layers (fs_regr s)).
Proof.
  induction fuel as [|fuel IH]; intros s epoch s' Js H; simpl in H;
    destruct (epoch <? MLPRegressor.Epochs (fs_regr s))%Z; try discriminate;
    try (injection H as <- _; reflexivity).
  inv_bind H as [s1 J1] E1. inv_bind H as [s2 Js2] E2. injection H as <- _.
  apply fitEpoch_arch in E1. apply IH in E2. congruence.
Qed.

End Backward.

(** Training keeps the architecture.  Whenever [Fit] returns, whatever
    the epochs and minibatches it ran, the network has one weight matrix
    per hidden size and one for the output, of the shapes [allocLayers] gave
    them for the columns of [X] and [Y], with the activations it gave
    them. *)
Theorem Fit_keeps_architecture `{env : Collaborators}
    (regr : MLPRegressor.t) (X Y : Dense) (g : Rand) (s : FitState) (Js : list float) :
  Fit regr X Y g = Ok (s, Js) ->
  map (fun L => shapeOf (Layer.Theta L)) (MLPRegressor.Layers (fs_regr s))
  = layerShapes (cols X) (MLPRegressor.HiddenLayerSizes regr ++ [cols Y])
  /\ map Layer.Activation (MLPRegressor.Layers (fs_regr s))
     = repeat (MLPRegressor.Activation regr)
              (List.length (MLPRegressor.HiddenLayerSizes regr))
       ++ [lastActivationOf regr].
Proof.
  intros H. unfold Fit, FitGen in H.
  inv_bind H as [r1 g1] E1.
  destruct (MLPRegressor.Optimizer regr) as [c|] eqn:Hc;
    [|rewrite allocLayers_no_optimizer in E1 by assumption; discriminate].
  destruct (allocLayers_spec regr c (cols X) (cols Y) g Hc)
    as (Ls & L & E' & Hsh & _ & Hact & _).
  rewrite E' in E1. injection E1 as <- <-.
  inv_bind H as r3 E3.
  assert (HL : MLPRegressor.Layers r3 = Ls ++ [L]).
  { destruct (_ <=? 0)%Z; [inv_bind E3 as e E4|]; injection E3 as <-; reflexivity. }
  apply epochsLoop_arch in H. simpl in H. rewrite HL in H.
  split.
  - rewrite <- Hsh, <- (map_map archOf snd), H, map_map. reflexivity.
  - rewrite <- Hact, <- (map_map archOf fst), H, map_map. reflexivity.
Qed.

(** ** The loss fields after a run *)

Section LossFields.
Context `{env : Collaborators}.
Variable skipReg : bool.

Lemma fitEpochGen_loss_fields (s s' : FitState) (epoch : Z) (Jsum : float) :
  fitEpochGen skipReg s epoch = Ok (s', Jsum) ->
  MLPRegressor.J (fs_regr s') = Jsum
  /\ MLPRegressor.JFirst (fs_regr s')
     = if (epoch =? 1)%Z then Jsum else MLPRegressor.JFirst (fs_regr s).
Proof.
  unfold fitEpochGen. intros H.
  inv_bind H as [[Xf Yf] g] E1. inv_bind H as [r1 J1] E2.
  injection H as <- <-. simpl.
  assert (HJF : MLPRegressor.JFirst r1 = MLPRegressor.JFirst (fs_regr s)).
  { eapply only_layers_JFirst, miniBatches_frame, E2. }
  split.
  - destruct (epoch =? 1)%Z; reflexivity.
  - destruct (epoch =? 1)%Z; simpl; [reflexivity|assumption].
Qed.

(** After the epochs from index [epoch] on, [J] is the loss of the last
    one, and [JFirst] the loss of the epoch of index 1 if it was among them. *)
Lemma epochsLoop_loss_fields fuel :
  forall s epoch s' Js,
    (0 <= epoch)%Z ->
    epochsLoop skipReg fuel s epoch = Ok (s', Js) ->
    MLPRegressor.J (fs_regr s') = last Js (MLPRegressor.J (fs_regr s))
    /\ MLPRegressor.JFirst (fs_regr s')
       = if (epoch <=? 1)%Z
         then nth (Z.to_nat (1 - epoch)) Js (MLPRegressor.JFirst (fs_regr s))
         else MLPRegressor.JFirst (fs_regr s).
Proof.
  assert (Hstop : forall (s : FitState) epoch,
             MLPRegressor.J (fs_regr s) = last [] (MLPRegressor.J (fs_regr s))
             /\ MLPRegressor.JFirst (fs_regr s)
                = if (epoch <=? 1)%Z
                  then nth (Z.to_nat (1 - epoch)) [] (MLPRegressor.JFirst (fs_regr s))
                  else MLPRegressor.JFirst (fs_regr s)).
  { intros s epoch. split; [reflexivity|].
    destruct (epoch <=? 1)%Z; [destruct (Z.to_nat (1 - epoch))|]; reflexivity. }
  induction fuel as [|fuel IH]; intros s epoch s' Js He H; simpl in H;
    destruct (epoch <? MLPRegressor.Epochs (fs_regr s))%Z; try discriminate;
    try (injection H as <- <-; apply Hstop).
  inv_bind H as [s1 J1] E1. inv_bind H as [s2 Js2] E2. injection H as <- <-.
  apply fitEpochGen_loss_fields in E1. destruct E1 as (HJ & HJF).
  apply IH in E2; [|lia]. destruct E2 as (HJ2 & HJF2).
  rewrite HJ in HJ2. rewrite HJF in HJF2.
  split; [rewrite last_cons; exact HJ2|].
  rewrite HJF2.
  destruct (Z.eqb_spec epoch 1) as [->|Hne1].
  - reflexivity.
  - destruct (Z.leb_spec epoch 1) as [Hle|Hgt].
    + assert (epoch = 0)%Z as -> by lia. reflexivity.
    + destruct (Z.leb_spec (epoch + 1) 1); [lia|reflexivity].
Qed.

End LossFields.

(** The loss fields after [Fit], [Js] being the values the calls of
    [fitEpoch] returned, in order: [J] is the loss of the last epoch run,
    +Inf if none was; [JFirst] is the loss of the epoch of index 1 (the
    second one), and the value it had before the call if fewer than two
    epochs were run. *)
Theorem Fit_loss_fields `{env : Collaborators}
    (regr : MLPRegressor.t) (X Y : Dense) (g : Rand) (s : FitState) (Js : list float) :
  Fit regr X Y g = Ok (s, Js) ->
  MLPRegressor.J (fs_regr s) = last Js infinity
  /\ MLPRegressor.JFirst (fs_regr s) = nth 1 Js (MLPRegressor.JFirst regr).
Proof.
  intros H. unfold Fit, FitGen in H.
  inv_bind H as [r1 g1] E1. apply allocLayers_frame in E1.
  inv_bind H as r3 E3.
  assert (H3 : MLPRegressor.J r3 = infinity
               /\ MLPRegressor.JFirst r3 = MLPRegressor.JFirst regr).
  { rewrite <- (only_layers_JFirst _ _ E1).
    destruct (_ <=? 0)%Z; [inv_bind E3 as e E4|]; injection E3 as <-; split; reflexivity. }
  destruct H3 as (HJ & HJF).
  apply epochsLoop_loss_fields in H; [|lia]. simpl in H.
  rewrite HJ, HJF in H. exact H.
Qed.

(** With the epoch count unset and more than a million samples, the
    default count is 0: once the layers are allocated [Fit] returns at
    once, no epoch run, the weights as allocated, [J] at +Inf, [Epochs]
    at 0. *)
Theorem Fit_beyond_a_million_samples `{env : Collaborators}
    (regr regr1 : MLPRegressor.t) (X Y : Dense) (g g1 : Rand) :
  (MLPRegressor.Epochs regr <= 0)%Z ->
  (1000000 < Z.of_nat (rows X))%Z ->
  allocLayers regr (cols X) (cols Y) g = Ok (regr1, g1) ->
  Fit regr X Y g
  = Ok (mkFitState (MLPRegressor.set_Epochs 0 (MLPRegressor.set_J infinity regr1)) X Y g1, []).
Proof.
  intros HE Hn Ha. unfold Fit, FitGen. rewrite Ha. cbn [bind].
  pose proof (allocLayers_frame _ _ _ _ _ _ Ha) as Hf.
  apply only_layers_settings in Hf. destruct Hf as (_ & _ & _ & _ & HE1 & _).
  cbn [MLPRegressor.Epochs MLPRegressor.set_J]. rewrite HE1.
  destruct (Z.leb_spec (MLPRegressor.Epochs regr) 0) as [_|]; [|lia].
  unfold defaultEpochs.
  destruct (Nat.eqb_spec (rows X) 0) as [H0|_]; [lia|].
  cbn [bind].
  rewrite Z.quot_small by lia.
  reflexivity.
Qed.

(** ** The loss a backward pass returns *)

Section BackwardLoss.
Context `{env : Collaborators}.

Lemma computeLoss_hidden regr l L nOutputs mbp J L2 J' :
  l <> List.length (MLPRegressor.Layers regr) - 1 ->
  computeLoss regr l L nOutputs mbp J = Ok (L2, J') -> J' = J.
Proof.
  unfold computeLoss. intros Hl H.
  inv_bind H as a1 E1. inv_bind H as a2 E2. inv_bind H as a3 E3.
  destruct (Nat.eqb_spec l (List.length (MLPRegressor.Layers regr) - 1)); [contradiction|].
  inv_bind H as [Jl Yd] E4. injection H as _ <-. reflexivity.
Qed.

Lemma backpropLayer_hidden regr X Y mbp nSamples l J regr' J' :
  (0 <? MLPRegressor.Alpha regr)%float = false ->
  l <> List.length (MLPRegressor.Layers regr) - 1 ->
  backpropLayer false regr X Y mbp nSamples l J = Ok (regr', J') -> J' = J.
Proof.
  unfold backpropLayer. intros HA Hl H.
  inv_bind H as L E1. inv_bind H as Xl E2. inv_bind H as L1 E3.
  inv_bind H as [L2 J1] E4. inv_bind H as L3 E5. inv_bind H as [L4 J2] E6.
  inv_bind H as L5 E7. inv_bind H as L6 E8. injection H as _ <-.
  rewrite regularize_off in E6 by assumption. injection E6 as _ <-.
  eapply computeLoss_hidden; eassumption.
Qed.

Lemma backpropFrom_hidden n :
  forall regr X Y mbp nSamples J regr' J',
    (0 <? MLPRegressor.Alpha regr)%float = false ->
    n < List.length (MLPRegressor.Layers regr) ->
    backpropFrom false n regr X Y mbp nSamples J = Ok (regr', J') -> J' = J.
Proof.
  induction n as [|l IH]; simpl; intros regr X Y mbp nSamples J regr' J' HA Hn H.
  - injection H as _ <-. reflexivity.
  - inv_bind H as [r1 J1] E1.
    pose proof (backpropLayer_arch _ _ _ _ _ _ _ _ _ _ E1) as Harch.
    apply (f_equal (@List.length _)) in Harch. rewrite !length_map in Harch.
    pose proof (backpropLayer_settings _ _ _ _ _ _ _ _ _ _ E1) as (_ & HA1 & _).
    apply backpropLayer_hidden in E1; [|assumption|lia]. subst J1.
    eapply IH; [| |exact H]; [rewrite HA1; assumption|lia].
Qed.

End BackwardLoss.

(** The loss a backward pass returns when [Alpha] is not positive: the
    value the loss function gives for the output layer (the "log" loss
    read as "cross-entropy" when there is one output column), times
    [miniBatchLen / nSamples].  The square losses of the hidden layers are
    computed for their gradients only and add nothing. *)
Theorem backprop_loss_is_output_layer_loss `{env : Collaborators}
    (regr regr' : MLPRegressor.t) (X Y : Matrix) (epoch : Z) (miniBatchLen nSamples : nat)
    (J : float) :
  (0 <? MLPRegressor.Alpha regr)%float = false ->
  0 < List.length (MLPRegressor.Layers regr) ->
  backprop regr X Y epoch miniBatchLen nSamples = Ok (regr', J) ->
  exists L L1 yt yp yd Jl G,
    lastLayer (MLPRegressor.Layers regr) = Ok L
    /\ computeYdiff (MLPRegressor.Layers regr)
                    (List.length (MLPRegressor.Layers regr) - 1) L Y = Ok L1
    /\ Layer.Ytrue L1 = Some yt /\ Layer.Ypred L1 = Some yp /\ Layer.Ydiff L1 = Some yd
    /\ Loss (NewLoss (if String.eqb (MLPRegressor.Loss regr) "log" && (snd (Dims Y) =? 1)
                      then "cross-entropy"%string else MLPRegressor.Loss regr))
            (M yt) yp yd = Ok (Jl, G)
    /\ J = (Jl * (float64 miniBatchLen / float64 nSamples))%float.
Proof.
  intros HA Hlen H. unfold backprop, backpropGen in H.
  destruct (List.length (MLPRegressor.Layers regr)) as [|l] eqn:El; [lia|].
  cbn [backpropFrom] in H. inv_bind H as [r1 J1] E1.
  pose proof (backpropLayer_arch _ _ _ _ _ _ _ _ _ _ E1) as Harch.
  apply (f_equal (@List.length _)) in Harch. rewrite !length_map in Harch.
  pose proof (backpropLayer_settings _ _ _ _ _ _ _ _ _ _ E1) as (_ & HA1 & _).
  apply backpropFrom_hidden in H; [|rewrite HA1; assumption|lia]. subst J1.
  unfold backpropLayer in E1.
  inv_bind E1 as L F1. inv_bind E1 as Xl F2. inv_bind E1 as L1 F3.
  inv_bind E1 as [L2 J1] F4. inv_bind E1 as L3 F5. inv_bind E1 as [L4 J2] F6.
  inv_bind E1 as L5 F7. inv_bind E1 as L6 F8. injection E1 as _ <-.
  rewrite regularize_off in F6 by assumption. injection F6 as _ <-.
  replace (S l - 1) with l by lia.
  unfold computeLoss in F4.
  inv_bind F4 as yt G1. inv_bind F4 as yd G2. inv_bind F4 as yp G3.
  apply deref_Ok_inv in G1, G2, G3.
  rewrite El in F4. replace (S l - 1) with l in F4 by lia. rewrite Nat.eqb_refl in F4.
  inv_bind F4 as [Jl G] G4. injection F4 as _ <-.
  exists L, L1, yt, yp, yd, Jl, G.
  split.
  { unfold lastLayer. destruct (MLPRegressor.Layers regr) as [|a r]; [discriminate El|].
    rewrite El. replace (S l - 1) with l by lia. exact F1. }
  repeat (split; [assumption|]). reflexivity.
Qed.

(** ** The weight gradient and the weight step *)

(** The weight gradient of a layer.  Whenever [computeGrad] returns:
    the activation-gradient buffer holds the derivative of the activation
    at every cell, the delta buffer is multiplied by it cell by cell, and
    the gradient is the transposed input, with its column of ones, times
    that product; it has one row per input column plus one and one column
    per output.  The batch must have as many rows as the delta buffer. *)
Theorem computeGrad_formula `{env : Collaborators} (L L' : Layer.t) (Xl : Matrix) :
  computeGrad L Xl = Ok L' ->
  exists Zd ypred ydiff hgrad' ydiff',
    Layer.Z L = Some Zd /\ Layer.Ypred L = Some ypred /\ Layer.Ydiff L = Some ydiff
    /\ Layer.Hgrad L' = Some hgrad' /\ Layer.Ydiff L' = Some ydiff'
    /\ Layer.Theta L' = Layer.Theta L
    /\ rows ydiff = fst (Dims Xl)
    /\ shapeOf hgrad' = shapeOf ydiff /\ shapeOf ydiff' = shapeOf ydiff
    /\ shapeOf (Layer.Grad L') = (1 + snd (Dims Xl), cols ydiff)
    /\ (forall i j, i < rows ydiff -> j < cols ydiff ->
          DenseAt hgrad' i j
          = actG (NewActivation (Layer.Activation L)) (DenseAt Zd i j) (At ypred i j)
          /\ DenseAt ydiff' i j = (DenseAt ydiff i j * DenseAt hgrad' i j)%float)
    /\ (forall k j, k < 1 + snd (Dims Xl) -> j < cols ydiff ->
          DenseAt (Layer.Grad L') k j = dot (T (onesAddedMat Xl)) (M ydiff') k j).
Proof.
  unfold computeGrad. intros H.
  inv_bind H as Zd E1. inv_bind H as ypred E2. inv_bind H as hgrad E3.
  inv_bind H as ydiff E4. apply deref_Ok_inv in E1, E2, E3, E4.
  inv_bind H as ydiff' E5. inv_bind H as Grad' E6. injection H as <-.
  set (hgrad' := fill hgrad (fun i j => actG (NewActivation (Layer.Activation L))
                                             (DenseAt Zd i j) (At ypred i j))) in *.
  assert (Hrows : fst (Dims Xl) = rows ydiff').
  { unfold Mul in E6. cbn [Dims onesAddedMat T M fst snd] in E6.
    destruct (Nat.eqb_spec (fst (Dims Xl)) (rows ydiff')) as [e|]; [exact e|discriminate E6]. }
  apply elementwise_spec in E5. destruct E5 as (Hr & Hc & Hr' & Hc' & Hat).
  apply Mul_spec in E6. destruct E6 as (Gr & Gc & Gat).
  cbn [Dims onesAddedMat T M fst snd] in *.
  exists Zd, ypred, ydiff, hgrad', ydiff'. simpl.
  repeat (split; [first [assumption|reflexivity|congruence]|]).
  split; [unfold shapeOf; rewrite Hr', Hc'; reflexivity|].
  split; [unfold shapeOf; rewrite Hr, Hc; reflexivity|].
  split; [unfold shapeOf; rewrite Gr, Gc, Hc; reflexivity|].
  split.
  - intros i j Hi Hj. split.
    + assert (Hr0 : rows hgrad = rows ydiff) by exact Hr'.
      assert (Hc0 : cols hgrad = cols ydiff) by exact Hc'.
      unfold hgrad'. apply fill_At; [rewrite Hr0|rewrite Hc0]; assumption.
    + apply Hat; [rewrite Hr|rewrite Hc]; assumption.
  - intros k j Hk Hj. apply Gat; [rewrite Gr|rewrite Gc, Hc]; assumption.
Qed.

(** The weight step.  Whenever [applyUpdate] returns, the optimizer has
    been asked once, with the layer's update and gradient; what it answered
    is the layer's new update, has the shape of the weights, and has been
    added to the weights cell by cell (the optimizer returns the step, sign
    included); the gradient is left as it was. *)
Theorem applyUpdate_adds_the_update (L L' : Layer.t) :
  applyUpdate L = Ok L' ->
  exists o U,
    GetUpdate (Layer.Optimizer L) (Layer.Update L) (Layer.Grad L) = Ok (o, U)
    /\ Layer.Update L' = U /\ Layer.Optimizer L' = o /\ Layer.Grad L' = Layer.Grad L
    /\ shapeOf U = shapeOf (Layer.Theta L)
    /\ shapeOf (Layer.Theta L') = shapeOf (Layer.Theta L)
    /\ forall i j, i < rows (Layer.Theta L) -> j < cols (Layer.Theta L) ->
         DenseAt (Layer.Theta L') i j
         = (DenseAt (Layer.Theta L) i j + DenseAt U i j)%float.
Proof.
  unfold applyUpdate. intros H.
  inv_bind H as [o U] E1. inv_bind H as Th E2. injection H as <-.
  apply elementwise_spec in E2. destruct E2 as (Hr & Hc & Hr' & Hc' & Hat).
  simpl in *. exists o, U.
  repeat (split; [first [assumption|reflexivity]|]).
  split; [unfold shapeOf; congruence|]. split; [unfold shapeOf; congruence|].
  intros i j Hi Hj. apply Hat; [rewrite Hr|rewrite Hc]; assumption.
Qed.

(** ** The models the constructors build *)

Lemma repeat_snoc {A : Type} (x : A) (n : nat) : repeat x n ++ [x] = repeat x (S n).
Proof. induction n as [|n IH]; simpl; [reflexivity|]. rewrite IH. reflexivity. Qed.

(** The models the constructors build never force the output layer to
    logistic.  Whenever [allocLayers] returns for the regressor of
    [NewMLPRegressor] or the classifier of [NewMLPClassifier], every layer,
    the output layer included, has the activation asked for ("relu" when
    none was): [LossName] is empty, while [Loss] is "log" for the
    classifier and, for the regressor, "square" with the identity
    activation and "log" otherwise. *)
Theorem constructed_output_layer_activation `{env : Collaborators}
    (hiddenLayerSizes : list nat) (activation solver : string) (Alpha : float)
    (classifier : bool) (nFeatures nOutputs : nat) (g g' : Rand) (r : MLPRegressor.t) :
  let regr := if classifier
              then embedded (NewMLPClassifier hiddenLayerSizes activation solver Alpha)
              else NewMLPRegressor hiddenLayerSizes activation solver Alpha in
  let act := if String.eqb activation "" then "relu"%string else activation in
  allocLayers regr nFeatures nOutputs g = Ok (r, g') ->
  map Layer.Activation (MLPRegressor.Layers r)
  = repeat act (S (List.length hiddenLayerSizes))
  /\ MLPRegressor.LossName r = ""%string
  /\ MLPRegressor.Loss r
     = if classifier then "log"%string
       else if String.eqb act "identity" then "square"%string else "log"%string.
Proof.
  intros regr act E.
  assert (Hf : MLPRegressor.LossName regr = ""%string
               /\ MLPRegressor.Activation regr = act
               /\ MLPRegressor.HiddenLayerSizes regr = hiddenLayerSizes
               /\ MLPRegressor.Loss regr
                  = if classifier then "log"%string
                    else if String.eqb act "identity" then "square"%string else "log"%string).
  { unfold regr, NewMLPClassifier, NewMLPRegressor. fold act.
    destruct classifier; destruct (String.eqb act "identity"); simpl; auto. }
  destruct Hf as (HLN & HAct & HH & HLoss).
  pose proof (allocLayers_frame _ _ _ _ _ _ E) as Hfr.
  destruct (MLPRegressor.Optimizer regr) as [c|] eqn:Hc;
    [|rewrite allocLayers_no_optimizer in E by assumption; discriminate].
  destruct (allocLayers_spec regr c nFeatures nOutputs g Hc)
    as (Ls & L & E' & _ & _ & Hact & _).
  rewrite E' in E. injection E as <- _.
  cbn [MLPRegressor.Layers MLPRegressor.set_Layers MLPRegressor.LossName MLPRegressor.Loss].
  split; [|split; assumption].
  rewrite Hact. unfold lastActivationOf. rewrite HLN, HAct, HH. simpl.
  apply repeat_snoc.
Qed.

(** ** Termination of the minibatch loop *)

Lemma terminates_bind {A B : Type} (m : result A) (k : A -> result B) :
  terminates m -> (forall a, m = Ok a -> terminates (k a)) -> terminates (bind m k).
Proof. destruct m; simpl; auto. Qed.

Lemma terminates_deref {A : Type} (o : option A) : terminates (deref o).
Proof. destruct o; exact I. Qed.

Lemma terminates_reuseAs m r c : terminates (reuseAs m r c).
Proof. unfold reuseAs. repeat (destruct (_ : bool); try exact I). Qed.

Lemma terminates_elementwise op m a b : terminates (elementwise op m a b).
Proof.
  unfold elementwise. destruct (same_dims a b); [|exact I].
  apply terminates_bind; [apply terminates_reuseAs|intros; exact I].
Qed.

Lemma terminates_Mul m a b : terminates (Mul m a b).
Proof.
  unfold Mul. destruct (_ =? _); [|exact I].
  apply terminates_bind; [apply terminates_reuseAs|intros; exact I].
Qed.

Lemma terminates_Scale m f a : terminates (Scale m f a).
Proof.
  unfold Scale. apply terminates_bind; [apply terminates_reuseAs|intros; exact I].
Qed.

Lemma terminates_Slice m i k j l : terminates (Slice m i k j l).
Proof. unfold Slice. destruct (_ : bool); exact I. Qed.

Section Terminates.
Context `{env : Collaborators}.
Hypothesis Hloss : lossesTerminate.

Lemma terminates_setOnes n : forall nx from, terminates (setOnes nx from n).
Proof.
  induction n as [|n IH]; intros nx from; simpl; [exact I|].
  apply terminates_bind; [|intros; apply IH].
  unfold Set_. destruct (_ : bool); exact I.
Qed.

Lemma terminates_initOutputs L b c prev : terminates (initOutputs L b c prev).
Proof.
  unfold initOutputs. apply terminates_bind; [apply terminates_setOnes|intros; exact I].
Qed.

Lemma terminates_forward ls : forall X Zout prev, terminates (forward X Zout prev ls).
Proof.
  induction ls as [|L rest IH]; intros X Zout prev; simpl; [exact I|].
  apply terminates_bind; [destruct prev; [apply terminates_deref|exact I]|intros Xl _].
  apply terminates_bind; [apply terminates_initOutputs|intros L1 _].
  apply terminates_bind; [apply terminates_deref|intros Zd _].
  apply terminates_bind; [apply terminates_Mul|intros Z' _].
  apply terminates_bind; [apply terminates_deref|intros nx _].
  apply terminates_bind; [apply IH|intros [r z] _; exact I].
Qed.

Lemma terminates_predictZH regr X Zout Yout fitting :
  terminates (predictZH regr X Zout Yout fitting).
Proof.
  unfold predictZH.
  apply terminates_bind; [apply terminates_forward|intros [ls z] _].
  apply terminates_bind; [|intros; exact I].
  destruct Yout; [|exact I].
  apply terminates_bind; [unfold lastLayer; destruct ls; [exact I|apply terminates_deref]|].
  intros L _. apply terminates_bind; [apply terminates_deref|intros; exact I].
Qed.

Lemma terminates_NewLoss name Ytrue Ypred G : terminates (Loss (NewLoss name) Ytrue Ypred G).
Proof.
  unfold NewLoss. destruct (String.eqb name "square"); [|apply Hloss].
  simpl. apply terminates_bind; [apply terminates_elementwise|intros; exact I].
Qed.

Lemma terminates_computeYdiff layers l L Y : terminates (computeYdiff layers l L Y).
Proof.
  unfold computeYdiff.
  apply terminates_bind; [apply terminates_deref|intros Ytrue _].
  apply terminates_bind; [apply terminates_deref|intros Ydiff _].
  apply terminates_bind; [apply terminates_deref|intros Ypred _].
  destruct (l =? _).
  - apply terminates_bind; [unfold MatDimsCheck; destruct (_ : bool); exact I|intros _ _].
    apply terminates_bind; [apply terminates_elementwise|intros; exact I].
  - apply terminates_bind; [apply terminates_deref|intros nl _].
    apply terminates_bind; [apply terminates_deref|intros ny _].
    apply terminates_bind; [apply terminates_Mul|intros Y1 _].
    apply terminates_bind; [apply terminates_deref|intros hg _].
    apply terminates_bind; [apply terminates_elementwise|intros Y2 _].
    apply terminates_bind; [apply terminates_elementwise|intros; exact I].
Qed.

Lemma terminates_computeLoss regr l L nOutputs mbp J :
  terminates (computeLoss regr l L nOutputs mbp J).
Proof.
  unfold computeLoss.
  apply terminates_bind; [apply terminates_deref|intros Ytrue _].
  apply terminates_bind; [apply terminates_deref|intros Ydiff _].
  apply terminates_bind; [apply terminates_deref|intros Ypred _].
  destruct (l =? _);
    (apply terminates_bind; [apply terminates_NewLoss|intros [Jl Yd] _; exact I]).
Qed.

Lemma terminates_computeGrad L Xl : terminates (computeGrad L Xl).
Proof.
  unfold computeGrad.
  apply terminates_bind; [apply terminates_deref|intros Zd _].
  apply terminates_bind; [apply terminates_deref|intros Ypred _].
  apply terminates_bind; [apply terminates_deref|intros Hgrad _].
  apply terminates_bind; [apply terminates_deref|intros Ydiff _].
  apply terminates_bind; [apply terminates_elementwise|intros Yd _].
  apply terminates_bind; [apply terminates_Mul|intros; exact I].
Qed.

Lemma terminates_regularize regr nSamples L J : terminates (regularize regr nSamples L J).
Proof.
  unfold regularize. destruct (0 <? MLPRegressor.Alpha regr)%float; [|exact I].
  apply terminates_bind.
  - destruct (0 <? _)%float; [|exact I].
    apply terminates_bind; [apply terminates_elementwise|intros; exact I].
  - intros [R1 G1] _. apply terminates_bind; [|intros [R2 G2] _; exact I].
    destruct (_ <? 1)%float; [|exact I].
    apply terminates_bind; [apply terminates_elementwise|intros; exact I].
Qed.

Lemma terminates_clipGradient regr L : terminates (clipGradient regr L).
Proof.
  unfold clipGradient. destruct (0 <? _)%float; [|exact I].
  destruct (_ <? _)%float; [|exact I].
  apply terminates_bind; [apply terminates_Scale|intros; exact I].
Qed.

Lemma terminates_applyUpdate L :
  optimizerTerminates (Layer.Optimizer L) -> terminates (applyUpdate L).
Proof.
  intros Ho. unfold applyUpdate.
  apply terminates_bind.
  - unfold GetUpdate. apply terminates_bind; [apply Ho|intros [s u] _; exact I].
  - intros [o U] _. apply terminates_bind; [apply terminates_elementwise|intros; exact I].
Qed.

(** The steps of the backward pass keep a layer's optimizer, and
    [applyUpdate] keeps its step function. *)
Lemma computeYdiff_optimizer layers l L Y L1 :
  computeYdiff layers l L Y = Ok L1 -> Layer.Optimizer L1 = Layer.Optimizer L.
Proof.
  unfold computeYdiff. intros H.
  inv_bind H as a1 E1. inv_bind H as a2 E2. inv_bind H as a3 E3.
  destruct (l =? List.length layers - 1).
  - inv_bind H as u E4. inv_bind H as a5 E5. injection H as <-. reflexivity.
  - inv_bind H as a4 E4. inv_bind H as a5 E5. inv_bind H as a6 E6. inv_bind H as a7 E7.
    inv_bind H as a8 E8. inv_bind H as a9 E9. injection H as <-. reflexivity.
Qed.

Lemma computeLoss_optimizer regr l L nOutputs mbp J L2 J' :
  computeLoss regr l L nOutputs mbp J = Ok (L2, J') -> Layer.Optimizer L2 = Layer.Optimizer L.
Proof.
  unfold computeLoss. intros H.
  inv_bind H as a1 E1. inv_bind H as a2 E2. inv_bind H as a3 E3.
  destruct (l =? List.length (MLPRegressor.Layers regr) - 1);
    inv_bind H as [Jl Yd] E4; injection H as <- _; reflexivity.
Qed.

Lemma computeGrad_optimizer L Xl L3 :
  computeGrad L Xl = Ok L3 -> Layer.Optimizer L3 = Layer.Optimizer L.
Proof.
  unfold computeGrad. intros H.
  inv_bind H as a1 E1. inv_bind H as a2 E2. inv_bind H as a3 E3. inv_bind H as a4 E4.
  inv_bind H as a5 E5. inv_bind H as a6 E6. injection H as <-. reflexivity.
Qed.

Lemma regularize_optimizer regr nSamples L J L4 J' :
  regularize regr nSamples L J = Ok (L4, J') -> Layer.Optimizer L4 = Layer.Optimizer L.
Proof.
  unfold regularize. intros H.
  destruct (0 <? MLPRegressor.Alpha regr)%float; [|injection H as <- _; reflexivity].
  inv_bind H as [R1 G1] E1. inv_bind H as [R2 G2] E2. injection H as <- _. reflexivity.
Qed.

Lemma clipGradient_optimizer regr L L5 :
  clipGradient regr L = Ok L5 -> Layer.Optimizer L5 = Layer.Optimizer L.
Proof.
  unfold clipGradient. intros H.
  destruct (0 <? MLPRegressor.GradientClipping regr)%float; [|injection H as <-; reflexivity].
  destruct (_ <? _)%float; [|injection H as <-; reflexivity].
  inv_bind H as G E. injection H as <-. reflexivity.
Qed.

Lemma applyUpdate_optimizer L L6 :
  applyUpdate L = Ok L6 -> optimizerTerminates (Layer.Optimizer L) ->
  optimizerTerminates (Layer.Optimizer L6).
Proof.
  unfold applyUpdate, GetUpdate. intros H Ho.
  inv_bind H as [o U] E1. inv_bind H as Th E2. injection H as <-.
  inv_bind E1 as [s u] E3. injection E1 as <- _. simpl.
  intros s' up gr. apply Ho.
Qed.

Lemma Forall_set_nth {A : Type} (P : A -> Prop) (x : A) (l : list A) :
  forall n, Forall P l -> P x -> Forall P (set_nth n x l).
Proof.
  induction l as [|h t IH]; intros n Hl Hx; destruct n; simpl; auto;
    inversion Hl; subst; constructor; auto.
Qed.

Variable skipReg : bool.

Lemma backpropLayer_terminates regr X Y mbp nSamples l J :
  optimizersTerminate regr ->
  terminates (backpropLayer skipReg regr X Y mbp nSamples l J)
  /\ forall regr' J', backpropLayer skipReg regr X Y mbp nSamples l J = Ok (regr', J') ->
       optimizersTerminate regr'.
Proof.
  intros Hall. unfold backpropLayer.
  assert (HL : forall L, deref (nth_error (MLPRegressor.Layers regr) l) = Ok L ->
                         optimizerTerminates (Layer.Optimizer L)).
  { intros L E. apply deref_Ok_inv in E. apply nth_error_In in E.
    unfold optimizersTerminate in Hall. rewrite Forall_forall in Hall. apply Hall, E. }
  assert (Hreg : forall L3 J1 L4 J2,
             (if skipReg then Ok (L3, J1) else regularize regr nSamples L3 J1) = Ok (L4, J2) ->
             Layer.Optimizer L4 = Layer.Optimizer L3).
  { intros L3 J1 L4 J2 E. destruct skipReg; [injection E as <- _; reflexivity|].
    eapply regularize_optimizer, E. }
  split.
  - apply terminates_bind; [apply terminates_deref|intros L EL].
    apply terminates_bind.
    { destruct (l =? 0); [exact I|].
      apply terminates_bind; [apply terminates_deref|intros; apply terminates_deref]. }
    intros Xl _.
    apply terminates_bind; [apply terminates_computeYdiff|intros L1 E1].
    apply terminates_bind; [apply terminates_computeLoss|intros [L2 J1] E2].
    apply terminates_bind; [apply terminates_computeGrad|intros L3 E3].
    apply terminates_bind;
      [destruct skipReg; [exact I|apply terminates_regularize]|intros [L4 J2] E4].
    apply terminates_bind; [apply terminates_clipGradient|intros L5 E5].
    apply terminates_bind; [|intros; exact I].
    apply terminates_applyUpdate.
    apply computeYdiff_optimizer in E1. apply computeLoss_optimizer in E2.
    apply computeGrad_optimizer in E3. apply Hreg in E4.
    apply clipGradient_optimizer in E5.
    rewrite E5, E4, E3, E2, E1. apply HL, EL.
  - intros regr' J' H.
    inv_bind H as L EL. inv_bind H as Xl EX. inv_bind H as L1 E1.
    inv_bind H as [L2 J1] E2. inv_bind H as L3 E3. inv_bind H as [L4 J2] E4.
    inv_bind H as L5 E5. inv_bind H as L6 E6. injection H as <- _.
    unfold optimizersTerminate. simpl. apply Forall_set_nth; [exact Hall|].
    eapply applyUpdate_optimizer; [exact E6|].
    apply computeYdiff_optimizer in E1. apply computeLoss_optimizer in E2.
    apply computeGrad_optimizer in E3. apply Hreg in E4.
    apply clipGradient_optimizer in E5.
    rewrite E5, E4, E3, E2, E1. apply HL, EL.
Qed.

Lemma backpropFrom_terminates n :
  forall regr X Y mbp nSamples J,
    optimizersTerminate regr ->
    terminates (backpropFrom skipReg n regr X Y mbp nSamples J)
    /\ forall regr' J', backpropFrom skipReg n regr X Y mbp nSamples J = Ok (regr', J') ->
         optimizersTerminate regr'.
Proof.
  induction n as [|l IH]; intros regr X Y mbp nSamples J Hall; simpl.
  - split; [exact I|]. intros regr' J' H. injection H as <- _. exact Hall.
  - destruct (backpropLayer_terminates regr X Y mbp nSamples l J Hall) as (Ht & Hk).
    split.
    + apply terminates_bind; [exact Ht|]. intros [r1 J1] E1.
      apply (IH r1 X Y mbp nSamples J1), (Hk _ _ E1).
    + intros regr' J' H. inv_bind H as [r1 J1] E1.
      eapply (proj2 (IH r1 X Y mbp nSamples J1 (Hk _ _ E1))), H.
Qed.

Lemma predictZH_optimizers regr X Zout Yout fitting regr' Zout' Yout' :
  predictZH regr X Zout Yout fitting = Ok (regr', Zout', Yout') ->
  optimizersTerminate regr -> optimizersTerminate regr'.
Proof.
  unfold predictZH. intros H Hall.
  inv_bind H as [ls Zo] EF. inv_bind H as Yo EY. injection H as <- _ _.
  apply forward_trainedPart in EF.
  unfold optimizersTerminate in *. simpl.
  revert EF Hall. generalize (MLPRegressor.Layers regr) as l0. clear.
  induction ls as [|L ls IH]; intros [|L0 l0] E Hall; simpl in E; try discriminate;
    [constructor|].
  injection E as _ _ _ _ HO Hrest. inversion Hall; subst.
  constructor; [rewrite HO; assumption|]. eapply IH; eassumption.
Qed.

Lemma fitMiniBatch_terminates regr Xm Ym epoch len nSamples :
  optimizersTerminate regr ->
  terminates (fitMiniBatchGen skipReg regr Xm Ym epoch len nSamples)
  /\ forall regr' J', fitMiniBatchGen skipReg regr Xm Ym epoch len nSamples = Ok (regr', J') ->
       optimizersTerminate regr'.
Proof.
  intros Hall. unfold fitMiniBatchGen, backpropGen. split.
  - apply terminates_bind; [apply terminates_predictZH|]. intros [[r1 Zo] Yo] E1.
    apply backpropFrom_terminates. eapply predictZH_optimizers; eassumption.
  - intros regr' J' H. inv_bind H as [[r1 Zo] Yo] E1.
    eapply (proj2 (backpropFrom_terminates _ _ _ _ _ _ _
                     (predictZH_optimizers _ _ _ _ _ _ _ _ E1 Hall))), H.
Qed.

Lemma miniBatches_enough_fuel fuel :
  forall regr Xf Yf epoch nS nF nO st en Jsum,
    optimizersTerminate regr -> nS - st <= fuel ->
    terminates (miniBatches skipReg fuel regr Xf Yf epoch nS nF nO st en Jsum).
Proof.
  induction fuel as [|fuel IH]; intros regr Xf Yf epoch nS nF nO st en Jsum Hall Hf;
    simpl; destruct (Nat.ltb_spec st nS) as [Hlt|Hge]; try exact I; try lia.
  unfold Slice at 1.
  destruct ((st <? rows Xf) && (0 <? cols Xf) && (st <? en) && (en <=? rows Xf)
            && (0 <? nF) && (nF <=? cols Xf)) eqn:Es; [|exact I].
  cbn [bind].
  apply terminates_bind; [apply terminates_Slice|intros Ym _].
  destruct (fitMiniBatch_terminates regr
              (mkDense (en - st) (nF - 0)
                 (tab (en - st) (nF - 0) (fun a b => DenseAt Xf (st + a) (0 + b))))
              Ym epoch (en - st) nS Hall) as (Ht & Hk).
  apply terminates_bind; [exact Ht|]. intros [r1 Jm] E.
  assert (Hlen : st < en).
  { rewrite !andb_true_iff in Es. destruct Es as (((((_ & _) & H) & _) & _) & _).
    apply Nat.ltb_lt in H. exact H. }
  apply IH; [eapply Hk, E|lia].
Qed.

End Terminates.

(** The minibatch loop of [fitEpoch] terminates.  When the optimizers of
    the layers and the losses return or panic, as Go calls do, the loop
    started at [miniBatchStart] has returned or panicked after at most
    [nSamples - miniBatchStart] turns: with that much fuel the result is
    not [OutOfFuel], and more fuel gives the same result. *)
Theorem miniBatches_terminates `{env : Collaborators}
    (skipReg : bool) (fuel : nat) (regr : MLPRegressor.t) (Xfull Yfull : Dense) (epoch : Z)
    (nSamples nFeatures nOutputs miniBatchStart miniBatchEnd : nat) (Jsum : float) :
  lossesTerminate -> optimizersTerminate regr ->
  nSamples - miniBatchStart <= fuel ->
  terminates (miniBatches skipReg fuel regr Xfull Yfull epoch nSamples nFeatures nOutputs
                          miniBatchStart miniBatchEnd Jsum)
  /\ forall fuel', nSamples - miniBatchStart <= fuel' ->
       miniBatches skipReg fuel' regr Xfull Yfull epoch nSamples nFeatures nOutputs
                   miniBatchStart miniBatchEnd Jsum
       = miniBatches skipReg fuel regr Xfull Yfull epoch nSamples nFeatures nOutputs
                     miniBatchStart miniBatchEnd Jsum.
Proof.
  intros Hl Ho Hf. split.
  - apply miniBatches_enough_fuel; assumption.
  - intros fuel' Hf'. apply miniBatches_fuel; assumption.
Qed.

(** ** Models that were never fitted *)

Section Unfitted.
Context `{env : Collaborators}.

Lemma predictZH_no_layers (regr : MLPRegressor.t) (X : Matrix) (Zout : option Dense) (Y : Dense)
    (fitting : bool) :
  MLPRegressor.Layers regr = [] -> predictZH regr X Zout (Some Y) fitting = Panic.
Proof. intros H. unfold predictZH. rewrite H. reflexivity. Qed.

Lemma NewMLPRegressor_no_layers (h : list nat) (a s : string) (al : float) :
  MLPRegressor.Layers (NewMLPRegressor h a s al) = [].
Proof. unfold NewMLPRegressor. destruct (negb _); reflexivity. Qed.

End Unfitted.

Lemma set_Layers_same (r : MLPRegressor.t) :
  MLPRegressor.set_Layers (MLPRegressor.Layers r) r = r.
Proof. destruct r; reflexivity. Qed.

(** A model that was never fitted has no layer.  On it [Predict] returns,
    changing nothing, when its output pointer [Y] is nil (the loop runs
    over no layer and the copy is guarded by [Y != nil]), and panics for
    every other [Y], reading the last layer; [Score] and the classifier's
    [Predict] panic for every [Y], nil or not. *)
Theorem unfitted_model_returns_only_for_nil_Y `{env : Collaborators}
    (hiddenLayerSizes : list nat) (activation solver : string) (Alpha : float) (X : Dense) :
  PredictNilable (NewMLPRegressor hiddenLayerSizes activation solver Alpha) X None
  = Ok (NewMLPRegressor hiddenLayerSizes activation solver Alpha, None)
  /\ (forall Y : Dense,
        PredictNilable (NewMLPRegressor hiddenLayerSizes activation solver Alpha) X (Some Y)
        = Panic
        /\ Predict (NewMLPRegressor hiddenLayerSizes activation solver Alpha) X Y = Panic)
  /\ (forall Y : option Dense,
        ScoreNilable (NewMLPRegressor hiddenLayerSizes activation solver Alpha) X Y = Panic)
  /\ (forall Y : option Dense,
        MLPClassifier_PredictNilable
          (NewMLPClassifier hiddenLayerSizes activation solver Alpha) X Y = Panic).
Proof.
  pose proof (NewMLPRegressor_no_layers hiddenLayerSizes activation solver Alpha) as H.
  unfold NewMLPClassifier.
  generalize dependent (NewMLPRegressor hiddenLayerSizes activation solver Alpha).
  intros regr H.
  assert (HP : forall Y, Predict regr X Y = Panic).
  { intros Y. unfold Predict. rewrite predictZH_no_layers by assumption. reflexivity. }
  split.
  { unfold PredictNilable, predictZH. rewrite H. cbn [forward bind].
    rewrite <- H. rewrite set_Layers_same. reflexivity. }
  split.
  { intros Y. split; [|apply HP].
    unfold PredictNilable. rewrite predictZH_no_layers by assumption. reflexivity. }
  split.
  { intros [Y|]; [|reflexivity]. unfold ScoreNilable, Score. cbn [deref bind].
    rewrite HP. reflexivity. }
  intros [Y|]; unfold MLPClassifier_PredictNilable.
  - rewrite predictZH_no_layers; [reflexivity|]. exact H.
  - unfold predictZH. cbn [embedded].
    change (MLPRegressor.Layers (MLPRegressor.set_Loss "log" regr))
      with (MLPRegressor.Layers regr).
    rewrite H. reflexivity.
Qed.

(** The minibatch size of an epoch: the configured size capped by the
    number of samples, or, when none is configured, 200 capped by the
    number of samples.  It never exceeds the number of samples and is 0
    only when there is no sample. *)
Theorem miniBatchSizeOf_closed_form (regr : MLPRegressor.t) (nSamples : nat) :
  Z.of_nat (miniBatchSizeOf regr nSamples)
  = (if (0 <? MLPRegressor.MiniBatchSize regr)%Z
     then Z.min (MLPRegressor.MiniBatchSize regr) (Z.of_nat nSamples)
     else Z.min 200 (Z.of_nat nSamples))
  /\ miniBatchSizeOf regr nSamples <= nSamples
  /\ (miniBatchSizeOf regr nSamples = 0 <-> nSamples = 0).
Proof.
  unfold miniBatchSizeOf.
  destruct (Z.ltb_spec 0 (MLPRegressor.MiniBatchSize regr)) as [Hp|Hn];
    destruct (Z.leb_spec (MLPRegressor.MiniBatchSize regr) (Z.of_nat nSamples));
    destruct (Z.ltb_spec (Z.of_nat nSamples) (MLPRegressor.MiniBatchSize regr));
    destruct (Nat.ltb_spec 200 nSamples); cbn [andb]; lia.
Qed.

(** After [SetOptimizer], whenever [allocLayers] returns, the creator is
    still the one installed and every layer owns an optimizer made by it. *)
Theorem SetOptimizer_feeds_every_layer `{env : Collaborators}
    (creator : OptimCreator) (regr r : MLPRegressor.t) (nFeatures nOutputs : nat)
    (g g' : Rand) :
  allocLayers (SetOptimizer creator regr) nFeatures nOutputs g = Ok (r, g') ->
  MLPRegressor.Optimizer r = Some creator
  /\ Forall (fun L => Layer.Optimizer L = creator tt) (MLPRegressor.Layers r).
Proof.
  intros H.
  destruct (allocLayers_spec (SetOptimizer creator regr) creator nFeatures nOutputs g eq_refl)
    as (Ls & L & E & _ & _ & _ & Hopt & _).
  rewrite E in H. injection H as <- _. split; [reflexivity|exact Hopt].
Qed.

(** ** The linear model's helpers *)

Section LinearModel.
Import linear_model.

Lemma zipInto_length op (dst s r : list float) :
  floats.zipInto op dst s = Ok r ->
  List.length s = List.length dst /\ List.length r = List.length dst
  /\ forall j, j < List.length dst ->
       nth j r 0%float = op (nth j dst 0%float) (nth j s 0%float).
Proof.
  unfold floats.zipInto. destruct (Nat.eqb_spec (List.length dst) (List.length s)) as [e|];
    [|discriminate].
  intros H. injection H as <-. split; [auto|].
  split; [rewrite length_map, length_combine; lia|].
  intros j Hj.
  rewrite (nth_indep _ 0%float (op 0%float 0%float))
    by (rewrite length_map, length_combine; lia).
  rewrite (map_nth (fun p => op (fst p) (snd p)) (combine dst s) (0%float, 0%float)).
  rewrite combine_nth by assumption. reflexivity.
Qed.

Lemma zipInto_runs op (dst s : list float) :
  List.length s = List.length dst -> exists r, floats.zipInto op dst s = Ok r.
Proof.
  intros H. unfold floats.zipInto. rewrite H, Nat.eqb_refl. eauto.
Qed.

Lemma zipInto_panics op (dst s : list float) :
  List.length s <> List.length dst -> floats.zipInto op dst s = Panic.
Proof.
  intros H. unfold floats.zipInto.
  destruct (Nat.eqb_spec (List.length dst) (List.length s)); [congruence|reflexivity].
Qed.

(** ** [DecisionFunction] *)

Lemma index_Ok (s : list float) (j : nat) :
  j < List.length s -> index s j = Ok (nth j s 0%float).
Proof.
  intros H. unfold index. rewrite (nth_error_nth' s 0%float H). reflexivity.
Qed.

Lemma index_Panic (s : list float) (j : nat) : List.length s <= j -> index s j = Panic.
Proof.
  intros H. unfold index. apply nth_error_None in H. rewrite H. reflexivity.
Qed.

Lemma rowValue_runs (Coef : list float) : forall Xi j y,
  j + List.length Coef <= List.length Xi -> exists v, rowValue Coef Xi j y = Ok v.
Proof.
  induction Coef as [|c rest IH]; intros Xi j y H; simpl in *; [eauto|].
  rewrite index_Ok by lia. cbn [bind]. apply IH. lia.
Qed.

Lemma rowValue_panics (Coef : list float) : forall Xi j y,
  List.length Xi < j + List.length Coef -> Coef <> [] -> rowValue Coef Xi j y = Panic.
Proof.
  induction Coef as [|c rest IH]; intros Xi j y H Hne; [congruence|]. simpl in *.
  destruct (Nat.lt_ge_cases j (List.length Xi)) as [Hj|Hj].
  - rewrite index_Ok by assumption. cbn [bind]. apply IH; [lia|].
    destruct rest; [simpl in H; lia|discriminate].
  - rewrite index_Panic by assumption. reflexivity.
Qed.

Lemma rowValue_firstn (Coef : list float) : forall Xi n j y,
  j + List.length Coef <= n -> rowValue Coef (firstn n Xi) j y = rowValue Coef Xi j y.
Proof.
  induction Coef as [|c rest IH]; intros Xi n j y H; simpl in *; [reflexivity|].
  assert (Hi : index (firstn n Xi) j = index Xi j).
  { unfold index. rewrite nth_error_firstn.
    destruct (Nat.ltb_spec j n); [reflexivity|lia]. }
  rewrite Hi. destruct (index Xi j); simpl; try reflexivity. apply IH. lia.
Qed.

(** The linear model's output: one value per row; a row shorter than the
    coefficients panics, longer rows are read up to the coefficients; with
    no coefficient every value is the intercept, so that the model of
    [NewLinearRegression], not fitted yet, predicts 0 for every row. *)
Theorem DecisionFunction_rows (self : LinearModel) (X : list (list float)) :
  ((exists y, DecisionFunction self X = Ok y)
   <-> Forall (fun Xi => List.length (Coef_ self) <= List.length Xi) X)
  /\ (forall y, DecisionFunction self X = Ok y -> List.length y = List.length X)
  /\ DecisionFunction self (map (firstn (List.length (Coef_ self))) X)
     = DecisionFunction self X
  /\ (Coef_ self = [] -> DecisionFunction self X
                         = Ok (repeat (Intercept_ self) (List.length X)))
  /\ Predict NewLinearRegression X = Ok (repeat 0%float (List.length X)).
Proof.
  unfold Predict, DecisionFunction. repeat split.
  - intros (y & H). revert y H. induction X as [|Xi rest IH]; intros y H; [constructor|].
    simpl in H. inv_bind H as yi E1. inv_bind H as ys E2.
    constructor; [|eapply IH; exact E2].
    destruct (Nat.le_gt_cases (List.length (Coef_ self)) (List.length Xi)) as [|Hlt];
      [assumption|].
    rewrite rowValue_panics in E1; [discriminate|simpl; lia|].
    destruct (Coef_ self); [simpl in Hlt; lia|discriminate].
  - induction 1 as [|Xi rest Hi Hrest IH]; simpl; [eauto|].
    destruct (rowValue_runs (Coef_ self) Xi 0 (Intercept_ self)) as (v & ->); [simpl; lia|].
    destruct IH as (ys & ->). simpl. eauto.
  - revert X. induction X as [|Xi rest IH]; intros y H; simpl in H.
    + injection H as <-. reflexivity.
    + inv_bind H as yi E1. inv_bind H as ys E2. injection H as <-.
      simpl. f_equal. apply IH. assumption.
  - induction X as [|Xi rest IH]; simpl; [reflexivity|].
    rewrite rowValue_firstn by (simpl; lia). rewrite IH. reflexivity.
  - intros Hc. induction X as [|Xi rest IH]; simpl; [reflexivity|].
    rewrite Hc, IH. reflexivity.
  - induction X as [|Xi rest IH]; simpl; [reflexivity|].
    rewrite IH. reflexivity.
Qed.

(** ** [_set_intercept] *)

Lemma sumxoffsetcoef_runs (X_offset : list float) : forall Coef j s,
  j + List.length X_offset <= List.length Coef ->
  exists v, sumxoffsetcoef X_offset Coef j s = Ok v.
Proof.
  induction X_offset as [|x rest IH]; intros Coef j s H; simpl in *; [eauto|].
  rewrite index_Ok by lia. cbn [bind]. apply IH. lia.
Qed.

Lemma sumxoffsetcoef_panics (X_offset : list float) : forall Coef j s,
  List.length Coef < j + List.length X_offset -> X_offset <> [] ->
  sumxoffsetcoef X_offset Coef j s = Panic.
Proof.
  induction X_offset as [|x rest IH]; intros Coef j s H Hne; [congruence|]. simpl in *.
  destruct (Nat.lt_ge_cases j (List.length Coef)) as [Hj|Hj].
  - rewrite index_Ok by assumption. cbn [bind]. apply IH; [lia|].
    destruct rest; [simpl in H; lia|discriminate].
  - rewrite index_Panic by assumption. reflexivity.
Qed.

(** With [FitIntercept] the coefficients are divided by the scales, cell
    by cell, and the intercept is the target offset minus the running sum of
    offset times coefficient; the call returns exactly when there are as
    many scales as coefficients and no more offsets than coefficients.
    Without it the intercept is 0 and nothing else changes. *)
Theorem set_intercept_spec (self : LinearModel) (X_offset : list float) (y_offset : float)
    (X_scale : list float) :
  if FitIntercept self then
    ((exists m, _set_intercept self X_offset y_offset X_scale = Ok m)
     <-> List.length X_scale = List.length (Coef_ self)
         /\ List.length X_offset <= List.length (Coef_ self))
    /\ forall m, _set_intercept self X_offset y_offset X_scale = Ok m ->
         List.length (Coef_ m) = List.length (Coef_ self)
         /\ (forall j, j < List.length (Coef_ self) ->
               nth j (Coef_ m) 0%float
               = (nth j (Coef_ self) 0 / nth j X_scale 0)%float)
         /\ (exists s, sumxoffsetcoef X_offset (Coef_ m) 0 0%float = Ok s
                       /\ Intercept_ m = (y_offset - s)%float)
         /\ X_offset_ m = X_offset_ self /\ X_scale_ m = X_scale_ self
  else
    _set_intercept self X_offset y_offset X_scale
    = Ok (mkLinearModel (X_offset_ self) (X_scale_ self) (Coef_ self) 0%float
                        false (Normalize self)).
Proof.
  unfold _set_intercept. destruct (FitIntercept self) eqn:HF; [|reflexivity].
  split; [split|].
  - intros (m & H). inv_bind H as Coef E1. inv_bind H as s E2.
    apply zipInto_length in E1. destruct E1 as (Hl & Hl' & _).
    split; [assumption|].
    destruct (Nat.le_gt_cases (List.length X_offset) (List.length (Coef_ self))) as [|Hlt];
      [assumption|].
    rewrite sumxoffsetcoef_panics in E2; [discriminate|simpl; lia|].
    destruct X_offset; [simpl in Hlt; lia|discriminate].
  - intros (Hs & Ho).
    destruct (zipInto_runs PrimFloat.div (Coef_ self) X_scale Hs) as (Coef & E).
    unfold floats.Div. rewrite E. cbn [bind].
    apply zipInto_length in E. destruct E as (_ & Hl & _).
    destruct (sumxoffsetcoef_runs X_offset Coef 0 0%float) as (s & ->); [simpl; lia|].
    cbn [bind]. eauto.
  - intros m H. inv_bind H as Coef E1. inv_bind H as s E2. injection H as <-. simpl.
    apply zipInto_length in E1. destruct E1 as (_ & Hl & Hat).
    split; [assumption|]. split; [assumption|]. split; [eauto|]. auto.
Qed.

(** ** [preprocess_data] *)

Lemma floats_Scale_length c l : List.length (floats.Scale c l) = List.length l.
Proof. apply length_map. Qed.

Lemma addRows_spec (X : list (list float)) : forall acc,
  (forall r, addRows acc X = Ok r ->
     List.length r = List.length acc
     /\ Forall (fun Xi => List.length Xi = List.length acc) X)
  /\ (Forall (fun Xi => List.length Xi = List.length acc) X ->
      exists r, addRows acc X = Ok r).
Proof.
  induction X as [|Xi rest IH]; intros acc; simpl.
  - split; [intros r H; injection H as <-; auto|eauto].
  - split.
    + intros r H. inv_bind H as acc' E.
      apply zipInto_length in E. destruct E as (Hl & Hl' & _).
      destruct (IH acc') as (IH1 & _). apply IH1 in H. destruct H as (Hr & HF).
      split; [congruence|]. constructor; [assumption|].
      eapply Forall_impl; [|exact HF]. simpl. intros a Ha. congruence.
    + intros HF. inversion HF as [|a l Ha Hl]; subst a l.
      destruct (zipInto_runs PrimFloat.add acc Xi Ha) as (acc' & E).
      unfold floats.Add. rewrite E. cbn [bind].
      apply zipInto_length in E. destruct E as (_ & Hl' & _).
      destruct (IH acc') as (_ & IH2). apply IH2.
      eapply Forall_impl; [|exact Hl]. simpl. intros a Ha'. congruence.
Qed.

Lemma varRows_runs (X : list (list float)) : forall X_var X_offset n,
  List.length X_var = n -> List.length X_offset = n ->
  Forall (fun Xi => List.length Xi = n) X ->
  exists r, varRows X_var X_offset n X = Ok r /\ List.length r = n.
Proof.
  induction X as [|Xi rest IH]; intros X_var X_offset n Hv Ho HF; simpl; [eauto|].
  inversion HF as [|a l Ha Hl]; subst a l.
  destruct (zipInto_runs PrimFloat.add (repeat 0%float n) Xi) as (t1 & E1);
    [rewrite repeat_length; assumption|].
  unfold floats.Add at 1. rewrite E1. cbn [bind].
  apply zipInto_length in E1. destruct E1 as (_ & L1 & _). rewrite repeat_length in L1.
  destruct (zipInto_runs PrimFloat.sub t1 X_offset) as (t2 & E2); [congruence|].
  unfold floats.Sub. rewrite E2. cbn [bind].
  apply zipInto_length in E2. destruct E2 as (_ & L2 & _).
  destruct (zipInto_runs PrimFloat.mul t2 t2 eq_refl) as (t3 & E3).
  unfold floats.Mul. rewrite E3. cbn [bind].
  apply zipInto_length in E3. destruct E3 as (_ & L3 & _).
  destruct (zipInto_runs PrimFloat.add X_var t3) as (v & E4); [congruence|].
  unfold floats.Add. rewrite E4. cbn [bind].
  apply zipInto_length in E4. destruct E4 as (_ & L4 & _).
  apply IH; [congruence|assumption|assumption].
Qed.

Lemma centerRows_spec (X : list (list float)) : forall X_offset X_scale n,
  List.length X_offset = n -> List.length X_scale = n ->
  (Forall (fun Xi => List.length Xi = n) X ->
   exists r, centerRows X_offset X_scale n X = Ok r)
  /\ (forall r, centerRows X_offset X_scale n X = Ok r ->
        Forall2 (centred X_offset X_scale) X r).
Proof.
  induction X as [|Xi rest IH]; intros X_offset X_scale n Ho Hs; simpl.
  - split; [eauto|]. intros r H. injection H as <-. constructor.
  - destruct (IH X_offset X_scale n Ho Hs) as (IH1 & IH2). split.
    + intros HF. inversion HF as [|a l Ha Hl]; subst a l.
      destruct (zipInto_runs PrimFloat.add (repeat 0%float n) Xi) as (t1 & E1);
        [rewrite repeat_length; assumption|].
      unfold floats.Add. rewrite E1. cbn [bind].
      apply zipInto_length in E1. destruct E1 as (_ & L1 & _). rewrite repeat_length in L1.
      destruct (zipInto_runs PrimFloat.sub t1 X_offset) as (t2 & E2); [congruence|].
      unfold floats.Sub. rewrite E2. cbn [bind].
      apply zipInto_length in E2. destruct E2 as (_ & L2 & _).
      destruct (zipInto_runs PrimFloat.div t2 X_scale) as (t3 & E3); [congruence|].
      unfold floats.Div. rewrite E3. cbn [bind].
      destruct (IH1 Hl) as (rs & ->). cbn [bind]. eauto.
    + intros r H. inv_bind H as t1 E1. inv_bind H as t2 E2. inv_bind H as t3 E3.
      inv_bind H as rs E4. injection H as <-.
      apply zipInto_length in E1. destruct E1 as (K1 & L1 & A1).
      apply zipInto_length in E2. destruct E2 as (K2 & L2 & A2).
      apply zipInto_length in E3. destruct E3 as (K3 & L3 & A3).
      rewrite repeat_length in *.
      constructor; [|apply IH2; assumption].
      split; [congruence|]. intros j Hj.
      rewrite A3 by lia. rewrite A2 by lia. rewrite A1 by lia.
      rewrite nth_repeat_lt by lia. reflexivity.
Qed.

(** [preprocess_data] returns exactly when there is a first row and, with
    [fit_intercept], every row has the length of the first one and there is
    one target per row. *)
Theorem preprocess_data_returns_iff
    (X : list (list float)) (y : list float) (fit_intercept normalize : bool) :
  (exists r, preprocess_data X y fit_intercept normalize = Ok r)
  <-> (0 < List.length X
       /\ (fit_intercept = true ->
           Forall (fun Xi => List.length Xi = List.length (hd [] X)) X
           /\ List.length y = List.length X)).
Proof.
  unfold preprocess_data. destruct X as [|X0 Xs]; [split; [intros (r & H); discriminate|
                                                          intros (H & _); simpl in H; lia]|].
  set (X := X0 :: Xs). cbn [hd].
  destruct fit_intercept.
  2:{ split; [intros _; split; [simpl; lia|discriminate]|eauto]. }
  split.
  - intros (r & H). split; [simpl; lia|]. intros _.
    inv_bind H as off E1.
    destruct (addRows_spec X (repeat 0%float (List.length X0))) as (A1 & _).
    apply A1 in E1. destruct E1 as (_ & HF). rewrite repeat_length in HF.
    split; [assumption|].
    inv_bind H as sc E2. inv_bind H as Xout E3. inv_bind H as yout E4.
    apply zipInto_length in E4. destruct E4 as (K & _). rewrite repeat_length in K.
    exact K.
  - intros (_ & H). destruct (H eq_refl) as (HF & Hy).
    destruct (addRows_spec X (repeat 0%float (List.length X0))) as (A1 & A2).
    destruct A2 as (off & E1); [rewrite repeat_length; assumption|].
    rewrite E1. cbn [bind].
    apply A1 in E1. destruct E1 as (Lo & _). rewrite repeat_length in Lo.
    set (off' := floats.Scale (1 / float64 (List.length X)) off).
    assert (Lo' : List.length off' = List.length X0)
      by (unfold off'; rewrite floats_Scale_length; assumption).
    assert (Hsc : exists sc,
               (if normalize
                then X_var <- varRows (repeat 0%float (List.length X0)) off'
                                      (List.length X0) X ;;
                     Ok (map PrimFloat.sqrt
                             (floats.Scale (1 / float64 (List.length X)) X_var))
                else Ok (repeat 1%float (List.length X0))) = Ok sc
               /\ List.length sc = List.length X0).
    { destruct normalize.
      - destruct (varRows_runs X (repeat 0%float (List.length X0)) off' (List.length X0))
          as (v & E & Lv); [apply repeat_length|assumption|assumption|].
        rewrite E. cbn [bind]. eexists; split; [reflexivity|].
        rewrite length_map, floats_Scale_length. assumption.
      - eexists; split; [reflexivity|]. apply repeat_length. }
    destruct Hsc as (sc & -> & Ls). cbn [bind].
    destruct (centerRows_spec X off' sc (List.length X0) Lo' Ls) as (C1 & _).
    destruct (C1 HF) as (Xout & ->). cbn [bind].
    destruct (zipInto_runs PrimFloat.add (repeat 0%float (List.length X)) y) as (yout & E);
      [rewrite repeat_length; assumption|].
    unfold floats.Add. rewrite E. cbn [bind]. eauto.
Qed.

(** With [fit_intercept] and without [normalize], when [preprocess_data]
    returns: the scales are all 1, the target offset is the sum of the
    targets over the number of samples, every feature cell is the cell of
    [X] added to zero, minus the feature's offset, divided by 1, and every
    target is the target added to zero plus the negated offset. *)
Theorem preprocess_data_centres
    (X Xout : list (list float)) (y yout X_offset X_scale : list float) (y_offset : float) :
  preprocess_data X y true false = Ok (Xout, yout, X_offset, y_offset, X_scale) ->
  X_scale = repeat 1%float (List.length (hd [] X))
  /\ List.length X_offset = List.length (hd [] X)
  /\ y_offset = (floats.Sum y / float64 (List.length X))%float
  /\ Forall2 (centred X_offset X_scale) X Xout
  /\ List.length yout = List.length y
  /\ forall i, i < List.length y ->
       nth i yout 0%float = (0 + nth i y 0 + - y_offset)%float.
Proof.
  unfold preprocess_data. destruct X as [|X0 Xs]; [discriminate|].
  set (X := X0 :: Xs). cbn [hd]. intros H.
  inv_bind H as off E1. inv_bind H as sc E2. injection E2 as <-.
  inv_bind H as Xo E3. inv_bind H as yo E4. injection H as <- <- <- <- <-.
  destruct (addRows_spec X (repeat 0%float (List.length X0))) as (A1 & _).
  apply A1 in E1. destruct E1 as (Lo & _). rewrite repeat_length in Lo.
  assert (Lo' : List.length (floats.Scale (1 / float64 (List.length X)) off)
                = List.length X0) by (rewrite floats_Scale_length; assumption).
  destruct (centerRows_spec X (floats.Scale (1 / float64 (List.length X)) off)
              (repeat 1%float (List.length X0)) (List.length X0) Lo'
              (repeat_length _ _)) as (_ & C2).
  apply C2 in E3.
  apply zipInto_length in E4. destruct E4 as (K & L & A). rewrite repeat_length in *.
  split; [reflexivity|]. split; [assumption|]. split; [reflexivity|].
  split; [assumption|].
  split; [unfold floats.AddConst; rewrite length_map; congruence|].
  intros i Hi. unfold floats.AddConst.
  rewrite (nth_indep _ 0%float ((fun x => (x + - (floats.Sum y / float64 (List.length X)))%float)
                                  0%float)) by (rewrite length_map; lia).
  rewrite (map_nth (fun x => (x + - (floats.Sum y / float64 (List.length X)))%float)).
  rewrite A by lia. rewrite nth_repeat_lt by lia. reflexivity.
Qed.

Lemma copy_same_length {A : Type} (dst src : list A) :
  List.length src = List.length dst -> copy dst src = src.
Proof.
  intros H. unfold copy. rewrite <- H, firstn_all, H, skipn_all, app_nil_r. reflexivity.
Qed.

(** Without [fit_intercept] nothing is computed: the rows (even of
    different lengths) and the targets come back as they are, whatever
    [normalize] says, with zero offsets and unit scales. *)
Theorem preprocess_data_without_intercept
    (X0 : list float) (Xs : list (list float)) (y : list float) (normalize : bool) :
  List.length y = S (List.length Xs) ->
  preprocess_data (X0 :: Xs) y false normalize
  = Ok (X0 :: Xs, y, repeat 0%float (List.length X0), 0%float,
        repeat 1%float (List.length X0)).
Proof.
  intros H. unfold preprocess_data.
  rewrite copy_same_length by (rewrite repeat_length; exact H). reflexivity.
Qed.

End LinearModel.

(** ** The area under a curve *)

Lemma AUCfrom_runs (fpr : list float) : forall tpr i auc xp yp,
  i + List.length fpr <= List.length tpr ->
  exists a, metrics.AUCfrom fpr tpr i auc xp yp = Ok a.
Proof.
  induction fpr as [|x rest IH]; intros tpr i auc xp yp H; simpl in *; [eauto|].
  rewrite index_Ok by lia. cbn [bind]. apply IH. lia.
Qed.

Lemma AUCfrom_panics (fpr : list float) : forall tpr i auc xp yp,
  List.length tpr < i + List.length fpr -> fpr <> [] ->
  metrics.AUCfrom fpr tpr i auc xp yp = Panic.
Proof.
  induction fpr as [|x rest IH]; intros tpr i auc xp yp H Hne; [congruence|]. simpl in *.
  destruct (Nat.lt_ge_cases i (List.length tpr)) as [Hi|Hi].
  - rewrite index_Ok by assumption. cbn [bind]. apply IH; [lia|].
    destruct rest; [simpl in H; lia|discriminate].
  - rewrite index_Panic by assumption. reflexivity.
Qed.

Lemma AUCfrom_firstn (fpr : list float) : forall tpr n i auc xp yp,
  i + List.length fpr <= n ->
  metrics.AUCfrom fpr (firstn n tpr) i auc xp yp = metrics.AUCfrom fpr tpr i auc xp yp.
Proof.
  induction fpr as [|x rest IH]; intros tpr n i auc xp yp H; simpl in *; [reflexivity|].
  assert (Hi : index (firstn n tpr) i = index tpr i).
  { unfold index. rewrite nth_error_firstn.
    destruct (Nat.ltb_spec i n); [reflexivity|lia]. }
  rewrite Hi. destruct (index tpr i); simpl; try reflexivity. apply IH. lia.
Qed.

Lemma AUCfrom_snoc (fpr : list float) (x y : float) : forall tpr i auc xp yp a,
  i + List.length fpr = List.length tpr ->
  metrics.AUCfrom fpr tpr i auc xp yp = Ok a ->
  metrics.AUCfrom (fpr ++ [x]) (tpr ++ [y]) i auc xp yp
  = Ok (a + (x - last fpr xp) * (y + last (skipn i tpr) yp) / 2)%float.
Proof.
  induction fpr as [|x0 rest IH]; intros tpr i auc xp yp a Hl H.
  - simpl in *. injection H as <-.
    unfold index. rewrite nth_error_app2 by lia.
    replace (i - List.length tpr) with 0 by lia. simpl.
    rewrite skipn_all2 by lia. reflexivity.
  - cbn [app metrics.AUCfrom List.length] in *.
    assert (Hi : i < List.length tpr) by lia.
    rewrite index_Ok in H by assumption. cbn [bind] in H.
    unfold index at 1. rewrite nth_error_app1 by assumption.
    fold (index tpr i). rewrite index_Ok by assumption. cbn [bind].
    rewrite (IH tpr (S i) _ x0 (nth i tpr 0%float) a) by (assumption || lia).
    assert (Hs : skipn i tpr = nth i tpr 0%float :: skipn (S i) tpr).
    { clear - Hi. revert i Hi. induction tpr as [|t tpr IHt]; intros [|i] Hi; simpl in *;
        try lia; [reflexivity|]. apply IHt. lia. }
    rewrite (last_cons rest x0 xp), Hs, last_cons. reflexivity.
Qed.

(** [AUC] returns exactly when there is a [tpr] value for every [fpr]
    value; values of [tpr] beyond are never read; no point gives 0. *)
Theorem AUC_returns_iff (fpr tpr : list float) :
  ((exists a, metrics.AUC fpr tpr = Ok a) <-> List.length fpr <= List.length tpr)
  /\ metrics.AUC fpr (firstn (List.length fpr) tpr) = metrics.AUC fpr tpr
  /\ metrics.AUC [] tpr = Ok 0%float.
Proof.
  unfold metrics.AUC. split; [split|split].
  - intros (a & H).
    destruct (Nat.le_gt_cases (List.length fpr) (List.length tpr)) as [|Hlt]; [assumption|].
    rewrite AUCfrom_panics in H; [discriminate|simpl; lia|].
    destruct fpr; [simpl in Hlt; lia|discriminate].
  - intros H. apply AUCfrom_runs. simpl. lia.
  - apply AUCfrom_firstn. simpl. lia.
  - reflexivity.
Qed.

(** The trapezoid rule, one point at a time: a further point [(x, y)]
    adds the trapezoid between the last point, or the origin if there is
    none, and [(x, y)]. *)
Theorem AUC_trapezoid_step (fpr tpr : list float) (x y a : float) :
  List.length fpr = List.length tpr ->
  metrics.AUC fpr tpr = Ok a ->
  metrics.AUC (fpr ++ [x]) (tpr ++ [y])
  = Ok (a + (x - last fpr 0) * (y + last tpr 0) / 2)%float.
Proof.
  unfold metrics.AUC. intros Hl H.
  apply (AUCfrom_snoc fpr x y tpr 0 _ _ _ a Hl H).
Qed.

(** ** The ROC curve *)

Section Roc.
Variable sortSlice : (nat -> nat -> bool) -> list nat -> list nat.

Lemma accumulate_lengths (Ytrue Yscore : Dense) (posLabel : float)
    (sampleWeight : option (list float)) (ds : list nat) :
  forall tpw fpw w fps tps ths,
    metrics.accumulate Ytrue Yscore posLabel sampleWeight tpw fpw w ds = Ok (fps, tps, ths) ->
    List.length fps = List.length ds /\ List.length tps = List.length ds
    /\ List.length ths = List.length ds.
Proof.
  induction ds as [|i rest IH]; intros tpw fpw w fps tps ths H; simpl in H.
  - injection H as <- <- <-. auto.
  - inv_bind H as w' E1. inv_bind H as yt E2. inv_bind H as th E3.
    inv_bind H as [[f t] h] E4. injection H as <- <- <-.
    apply IH in E4. simpl. destruct E4 as (? & ? & ?). auto.
Qed.

End Roc.

(** Whenever [ROCCurve] returns, its three results have the same length,
    at least 1. *)
Theorem ROCCurve_lengths (sortSlice : (nat -> nat -> bool) -> list nat -> list nat)
    (Ytrue Yscore : Dense) (posLabel : float) (sampleWeight : option (list float))
    (fpr tpr thresholds : list float) :
  metrics.ROCCurve sortSlice Ytrue Yscore posLabel sampleWeight = Ok (fpr, tpr, thresholds) ->
  List.length fpr = List.length thresholds
  /\ List.length tpr = List.length thresholds
  /\ 0 < List.length thresholds.
Proof.
  unfold metrics.ROCCurve, metrics.binaryClfScore. intros H.
  inv_bind H as [[fps tps] ths] E1. inv_bind E1 as ds E0.
  apply accumulate_lengths in E1. destruct E1 as (L1 & L2 & L3).
  inv_bind H as extra E2. inv_bind H as [[fps' tps'] ths'] E3.
  inv_bind H as fpmax E4. inv_bind H as tpmax E5. injection H as <- <- <-.
  assert (HL : List.length fps' = List.length ths' /\ List.length tps' = List.length ths'
               /\ 0 < List.length ths').
  { destruct extra.
    - inv_bind E3 as th0 E6. injection E3 as <- <- <-. simpl. repeat split; lia.
    - injection E3 as <- <- <-.
      destruct (Nat.eqb_spec (List.length tps) 0) as [e|ne]; [discriminate E2|].
      repeat split; lia. }
  destruct HL as (K1 & K2 & K3).
  destruct (fpmax <=? 0)%float, (tpmax <=? 0)%float;
    unfold floats.Scale; rewrite ?length_map; auto.
Qed.

(** Without a sample the curve cannot be drawn: [ROCCurve] panics on the
    first threshold. *)
Theorem ROCCurve_no_sample_panics (sortSlice : (nat -> nat -> bool) -> list nat -> list nat)
    (Ytrue Yscore : Dense) (posLabel : float) (sampleWeight : option (list float)) :
  (forall less l, Permutation l (sortSlice less l)) ->
  rows Ytrue = 0 ->
  metrics.ROCCurve sortSlice Ytrue Yscore posLabel sampleWeight = Panic.
Proof.
  intros Hperm Hm. unfold metrics.ROCCurve, metrics.binaryClfScore. rewrite Hm. simpl seq.
  rewrite (Permutation_nil (Hperm _ [])). reflexivity.
Qed.

(** ** Ties *)

Lemma SFcompare_refl_not_Lt (a : SpecFloat.spec_float) :
  SpecFloat.SFcompare a a <> Some Lt.
Proof.
  destruct a as [s|s| |s m e]; simpl; intros H; try discriminate H.
  - destruct s; discriminate H.
  - destruct s; rewrite Z.compare_refl, Pos.compare_cont_refl in H; discriminate H.
Qed.

Lemma ltb_irrefl (x : float) : (x <? x)%float = false.
Proof.
  rewrite FloatAxioms.ltb_spec. unfold SpecFloat.SFltb.
  pose proof (SFcompare_refl_not_Lt (Prim2SF x)) as H.
  destruct (SpecFloat.SFcompare (Prim2SF x) (Prim2SF x)) as [[ | | ]|]; congruence.
Qed.

Lemma AtP_Ok (m : Dense) (i j : nat) :
  i < rows m -> j < cols m -> metrics.AtP m i j = Ok (DenseAt m i j).
Proof.
  intros Hi Hj. unfold metrics.AtP.
  destruct (Nat.ltb_spec i (rows m)); [|lia]. destruct (Nat.ltb_spec j (cols m)); [|lia].
  reflexivity.
Qed.

Lemma distinctFrom_ties (Yscore : Dense) (s : float) (rest : list nat) : forall prev,
  0 < cols Yscore -> prev < rows Yscore ->
  Forall (fun i => i < rows Yscore) rest ->
  (forall i, i < rows Yscore -> DenseAt Yscore i 0 = s) ->
  metrics.distinctFrom Yscore prev rest = Ok [].
Proof.
  induction rest as [|i rest IH]; intros prev Hc Hp HF Hs; simpl; [reflexivity|].
  inversion HF as [|a l Hi Hl]; subst a l.
  rewrite !AtP_Ok by assumption. cbn [bind].
  rewrite (IH i) by assumption. cbn [bind].
  rewrite (Hs i Hi), (Hs prev Hp), ltb_irrefl. reflexivity.
Qed.

(** When every sample has the same score, [binaryClfScore] counts one
    sample, the one the sort puts first, and drops all the others: its
    result is the single point of that sample, with weight 1. *)
Theorem binaryClfScore_ties_count_once
    (sortSlice : (nat -> nat -> bool) -> list nat -> list nat)
    (Ytrue Yscore : Dense) (posLabel s : float) :
  (forall less l, Permutation l (sortSlice less l)) ->
  0 < rows Ytrue -> 0 < cols Ytrue ->
  rows Ytrue <= rows Yscore -> 0 < cols Yscore ->
  (forall i, i < rows Yscore -> DenseAt Yscore i 0 = s) ->
  exists i0, i0 < rows Ytrue
    /\ metrics.binaryClfScore sortSlice Ytrue Yscore posLabel None
       = Ok (if (DenseAt Ytrue i0 0 =? posLabel)%float
             then ([0%float], [(0 + 1)%float], [s])
             else ([(0 + 1)%float], [0%float], [s])).
Proof.
  intros Hperm Hm Hn Hr Hc Hs. unfold metrics.binaryClfScore.
  set (less := fun a b => (DenseAt Yscore b 0 <? DenseAt Yscore a 0)%float).
  pose proof (Hperm less (seq 0 (rows Ytrue))) as HP.
  assert (Hin : Forall (fun i => i < rows Ytrue) (sortSlice less (seq 0 (rows Ytrue)))).
  { apply Forall_forall. intros i Hi.
    apply (Permutation_in _ (Permutation_sym HP)) in Hi. apply in_seq in Hi. lia. }
  destruct (sortSlice less (seq 0 (rows Ytrue))) as [|i0 rest] eqn:El.
  { apply Permutation_length in HP. rewrite length_seq in HP. simpl in HP. lia. }
  inversion Hin as [|a l Hi0 Hrest]; subst a l.
  exists i0. split; [assumption|].
  unfold metrics.distinctValueIndices.
  rewrite (distinctFrom_ties Yscore s rest i0); try assumption; try lia.
  2:{ eapply Forall_impl; [|exact Hrest]. simpl. intros; lia. }
  cbn [bind metrics.accumulate].
  rewrite !AtP_Ok by lia. cbn [bind].
  rewrite (Hs i0) by lia.
  destruct (DenseAt Ytrue i0 0 =? posLabel)%float; reflexivity.
Qed.

(** * The engine run on concrete inputs *)

Import Demo.

Lemma afterOutputLayer_runs : afterOutputLayer = Ok (regrH1, JH1).
Proof. vm_compute. reflexivity. Qed.

Lemma hiddenL_is_layer_0 : nth_error (MLPRegressor.Layers regrH1) 0 = Some hiddenL.
Proof. vm_compute. reflexivity. Qed.

Lemma hiddenL1_runs :
  computeYdiff (MLPRegressor.Layers regrH1) 0 hiddenL (M Yh) = Ok hiddenL1.
Proof. vm_compute. reflexivity. Qed.

Lemma hiddenL2_runs : computeLoss regrH1 0 hiddenL1 1 1%float JH1 = Ok (hiddenL2, JH1).
Proof. vm_compute. reflexivity. Qed.

Lemma hiddenDelta_runs : hiddenDeltaObserved = Ok (0%float, 0.125%float).
Proof. vm_compute. reflexivity. Qed.

Lemma hiddenL3_runs : computeGrad hiddenL2 (M Xh) = Ok hiddenL3.
Proof. vm_compute. reflexivity. Qed.

(** C1, the code on the network 1-1-1 with identity activations, square
    loss, weights [[1/2],[-1/4]] in both layers, first minibatch X = [[2]],
    Y = [[1]].  When the backward pass reaches the hidden layer, its
    activation-gradient buffer still holds the zero of its allocation, and
    the delta the code leaves in the delta buffer is 0; the next layer's
    delta times its weights times the next layer's activation gradient, as
    the claim has it, is 1/8.  [computeGrad] sets the buffer to the
    derivative 1 of this pass only afterwards, and the weights of the
    hidden layer receive a zero gradient. *)
Lemma hidden_delta_uses_stale_activation_gradient :
  afterOutputLayer = Ok (regrH1, JH1)
  /\ nth_error (MLPRegressor.Layers regrH1) 0 = Some hiddenL
  /\ Layer.Hgrad hiddenL = Some (mkDense 1 1 [0]%float)
  /\ computeYdiff (MLPRegressor.Layers regrH1) 0 hiddenL (M Yh) = Ok hiddenL1
  /\ computeLoss regrH1 0 hiddenL1 1 1%float JH1 = Ok (hiddenL2, JH1)
  /\ hiddenDeltaObserved = Ok (0%float, 0.125%float)
  /\ (0 =? 0.125)%float = false
  /\ computeGrad hiddenL2 (M Xh) = Ok hiddenL3
  /\ Layer.Hgrad hiddenL3 = Some (mkDense 1 1 [1]%float)
  /\ data (Layer.Grad hiddenL3) = [0; 0]%float.
Proof.
  split; [exact afterOutputLayer_runs|]. split; [exact hiddenL_is_layer_0|].
  split; [vm_compute; reflexivity|].
  split; [exact hiddenL1_runs|]. split; [exact hiddenL2_runs|].
  split; [exact hiddenDelta_runs|]. split; [reflexivity|].
  split; [exact hiddenL3_runs|]. split; vm_compute; reflexivity.
Qed.

(** C2, the code at Alpha = 1, L1Ratio = 1/2, one sample, weight 2 (bias
    0), zero gradient: [regularize] adds 3 = 1*sign(2) + 1*2 to the
    gradient cell of the weight, where the elastic-net formulas give
    3/2 = (1/2)*sign(2) + (1/2)*2; the loss receives 2, as they give. *)
Lemma regularize_gradient_ignores_L1Ratio :
  regularizeObserved = Ok (3%float, 1.5%float, 2%float, 2%float).
Proof. vm_compute. reflexivity. Qed.

(** C3, the code on the classifier of [NewMLPClassifier [4] "relu" "" 0]:
    its loss is "log", its [LossName] is empty, and the output layer
    [allocLayers] builds has the hidden activation "relu". *)
Lemma classifier_head_is_not_logistic :
  classifierHead = Ok ("log"%string, ""%string, "relu"%string).
Proof. vm_compute. reflexivity. Qed.

(** C5, the code on a three-sample set: after a one-epoch [Fit] the loss of
    the first pass is 5.2265625 and [JFirst] is still 0; after a two-epoch
    [Fit], [JFirst] is the loss of the second pass. *)
Lemma JFirst_is_the_second_pass :
  runSummary (Fit (regrE 1) X3 Y3 0)
  = Ok (1%Z, 0%float, 5.2265625%float, [5.2265625%float])
  /\ runSummary (Fit (regrE 2) X3 Y3 0)
     = Ok (2%Z, 0.464263916015625%float, 0.464263916015625%float,
           [5.2265625%float; 0.464263916015625%float]).
Proof. split; vm_compute; reflexivity. Qed.

Lemma B2R_integer (x : float) (m : positive) (e k : Z) :
  Prim2SF x = SpecFloat.S754_finite false m e -> (e <= 0)%Z -> Z.pos m = (k * 2 ^ (- e))%Z ->
  B2R x = IZR k.
Proof.
  intros E He Hm. unfold B2R. rewrite E, SF2R_finite, Hm, mult_IZR.
  rewrite <- (bpow_IZR (- e)) by lia. unfold sgnR.
  rewrite Rmult_1_l, Rmult_assoc, <- bpow_add.
  replace (- e + e)%Z with 0%Z by lia. rewrite bpow_0. ring.
Qed.

Lemma B2R_1 : B2R 1 = 1%R.
Proof. apply (B2R_integer 1 4503599627370496 (-52) 1); [reflexivity|lia|reflexivity]. Qed.
Lemma B2R_3 : B2R 3 = 3%R.
Proof. apply (B2R_integer 3 6755399441055744 (-51) 3); [reflexivity|lia|reflexivity]. Qed.
Lemma B2R_4 : B2R 4 = 4%R.
Proof. apply (B2R_integer 4 4503599627370496 (-50) 4); [reflexivity|lia|reflexivity]. Qed.
Lemma B2R_5 : B2R 5 = 5%R.
Proof. apply (B2R_integer 5 5629499534213120 (-50) 5); [reflexivity|lia|reflexivity]. Qed.

Lemma norm34 : Norm2 (M (Layer.Grad (layerG 3 4))) = 5%float.
Proof. vm_compute. reflexivity. Qed.

Lemma norm2R_34 : norm2R (Layer.Grad (layerG 3 4)) = 5%R.
Proof.
  unfold norm2R. cbn [cells tab layerG Layer.Grad rows cols seq flat_map map app DenseAt data
                      nth Nat.mul Nat.add sumSquares fold_right].
  rewrite B2R_3, B2R_4.
  replace (3 * 3 + (4 * 4 + 0))%R with (5 * 5)%R by ring.
  apply sqrt_square. lra.
Qed.

(** C6, refuted as stated: the 2x1 gradient [[3/2 * 2^1023], [3/2 * 2^1023]]
    has the L2 norm 3/2 * 2^1023 * sqrt 2, beyond the largest [float64]:
    its norm is +Inf.  Clipped at threshold 1, every cell is multiplied by
    1/Inf = 0: the clipped gradient is all zeros and its norm is 0, not 1. *)
Lemma clipped_to_zero_not_to_threshold :
  (0 <? MLPRegressor.GradientClipping regrC)%float = true
  /\ MLPRegressor.GradientClipping regrC = 1%float
  /\ clipObserved2 0x1.8p1023 0x1.8p1023 = Ok (infinity, [0; 0]%float, 0%float)
  /\ (1 <? infinity)%float = true
  /\ (0 =? 1)%float = false.
Proof. repeat split; vm_compute; reflexivity. Qed.

(** A witness of [clipGradient_identity_or_threshold_norm]: the gradient
    [[3],[4]] of norm 5, clipped at 1; the norm is exact, [eps] = 0. *)
Lemma clipGradient_identity_or_threshold_norm_witness :
  (0 <? MLPRegressor.GradientClipping regrC)%float = true
  /\ exists G, clipGradient regrC (layerG 3 4) = Ok (Layer.set_Grad G (layerG 3 4))
       /\ DenseAt G 1 0 = (1 / 5 * 4)%float
       /\ (Rabs (norm2R G - 1) <= 4 * u64)%R.
Proof.
  split; [reflexivity|].
  destruct (clipGradient_identity_or_threshold_norm regrC (layerG 3 4) 0%R eq_refl) as [_ H].
  destruct (H eq_refl) as (G & E & Hr & Hc & Hat & Hnorm & _).
  exists G. split; [exact E|]. split.
  - rewrite (Hat 1 0); [|rewrite Hr; simpl; lia|rewrite Hc; simpl; lia].
    rewrite norm34. reflexivity.
  - assert (Hb : (Rabs (norm2R G - B2R (MLPRegressor.GradientClipping regrC))
                  <= (2 * 0 + 4 * u64) * B2R (MLPRegressor.GradientClipping regrC))%R).
    { apply Hnorm.
      - rewrite norm34. reflexivity.
      - rewrite norm34. reflexivity.
      - lra.
      - rewrite norm34, norm2R_34, B2R_5.
        rewrite Rminus_diag, Rabs_R0. lra. }
    change (MLPRegressor.GradientClipping regrC) with 1%float in Hb.
    rewrite B2R_1 in Hb. lra.
Defined.

(** A witness of [Alpha_zero_is_no_regularization]: a two-epoch run. *)
Lemma Alpha_zero_is_no_regularization_witness :
  MLPRegressor.Alpha (regrE 2) = 0%float
  /\ Fit (regrE 2) X3 Y3 0 = Fit_noreg (regrE 2) X3 Y3 0.
Proof.
  split; [reflexivity|].
  exact (proj1 (Alpha_zero_is_no_regularization (regrE 2) X3 Y3 0 eq_refl)).
Defined.

Lemma classifier_demo_runs : classifierObserved = Ok [1; 0; 1]%float.
Proof. vm_compute. reflexivity. Qed.

(** A witness of [classifier_predict_hard_labels]: raw outputs 1/2, 1/4 and
    3/2 become 1, 0 and 1. *)
Lemma classifier_predict_hard_labels_witness :
  exists clf' Y',
    MLPClassifier_Predict clf0 Xc Yc = Ok (clf', Y')
    /\ data Y' = [1; 0; 1]%float
    /\ forall i j, i < rows Y' -> j < cols Y' ->
         DenseAt Y' i j = 0%float \/ DenseAt Y' i j = 1%float.
Proof.
  pose proof classifier_demo_runs as H. unfold classifierObserved in H.
  destruct (MLPClassifier_Predict clf0 Xc Yc) as [[clf' Y']| |] eqn:E;
    simpl in H; try discriminate H.
  exists clf', Y'. split; [reflexivity|]. split; [congruence|].
  destruct (classifier_predict_hard_labels clf0 clf' Xc Yc Y' E)
    as (Zo & Yraw & _ & _ & _ & Hcells).
  intros i j Hi Hj. exact (proj1 (Hcells i j Hi Hj)).
Defined.

Lemma score_demo_runs : scoreObserved = Ok (0%float, [0.5; 0.25; 1.5]%float).
Proof. vm_compute. reflexivity. Qed.

(** A witness of [Score_overwrites_Y_and_scores_zeros]: the caller's
    [[7],[7],[7]] comes back as the predictions [[1/2],[1/4],[3/2]]. *)
Lemma Score_overwrites_Y_and_scores_zeros_witness :
  exists s regr' Y',
    Score (embedded clf0) Xc Yc = Ok (s, regr', Y')
    /\ data Y' = [0.5; 0.25; 1.5]%float
    /\ Predict (embedded clf0) Xc Yc = Ok (regr', Y')
    /\ s = AccuracyScore Y' (NewDenseNil (rows Yc) (cols Yc)).
Proof.
  pose proof score_demo_runs as H. unfold scoreObserved in H.
  destruct (Score (embedded clf0) Xc Yc) as [[[s regr'] Y']| |] eqn:E;
    simpl in H; try discriminate H.
  exists s, regr', Y'. split; [reflexivity|]. split; [congruence|].
  destruct (Score_overwrites_Y_and_scores_zeros (embedded clf0) regr' Xc Yc Y' s E)
    as (HP & _ & _ & Hs).
  split; [exact HP|exact Hs].
Defined.

(** ** The default run on three samples returns

    The epochs of this run are followed with the cells of the buffers left
    symbolic: the shapes decide every branch, so each epoch returns. *)

(** Evaluate the left-hand side of the goal. *)
Ltac run_lhs :=
  match goal with
  | |- ?l = _ => let r := eval vm_compute in l in change l with r
  end.

Lemma Fit_demo_default :
  Fit (regrE 0) X3 Y3 0
  = epochsLoop false (Z.to_nat 333333) (untrainedState 333333) 0.
Proof.
  unfold Fit, FitGen.
  assert (Ha : allocLayers (regrE 0) (cols X3) (cols Y3) 0
               = Ok (fs_regr (demoState (demoLayer None None None None None
                        [0.5; -0.25]%float [0; 0]%float [0; 0]%float) 0%float 0%float 0), 2)).
  { vm_compute. reflexivity. }
  rewrite Ha. cbn [bind]. reflexivity.
Qed.

Lemma first_epoch (E : Z) :
  exists ytrue z nx yd hg th gr up J,
    sized ytrue z nx yd hg th gr up
    /\ fitEpochGen false (untrainedState E) 0
       = Ok (trainedState ytrue z nx yd hg th gr up J 0%float E, J).
Proof.
  do 9 eexists. split.
  2:{ unfold fitEpochGen. cbn [Z.eqb]. run_lhs. reflexivity. }
  repeat split.
Qed.

Lemma later_epoch_cells
    a1 a2 a3 b1 b2 b3 c1 c2 c3 c4 c5 c6 d1 d2 d3 e1 e2 e3 t1 t2 g1 g2 u1 u2 J JF E epoch :
  exists ytrue z nx yd hg th gr up J' JF',
    sized ytrue z nx yd hg th gr up
    /\ fitEpochGen false
         (trainedState [a1; a2; a3] [b1; b2; b3] [c1; c2; c3; c4; c5; c6] [d1; d2; d3]
                       [e1; e2; e3] [t1; t2] [g1; g2] [u1; u2] J JF E) epoch
       = Ok (trainedState ytrue z nx yd hg th gr up J' JF' E, J').
Proof.
  destruct (epoch =? 1)%Z eqn:He.
  - do 10 eexists. split.
    2:{ unfold fitEpochGen. rewrite He. run_lhs. reflexivity. }
    repeat split.
  - do 10 eexists. split.
    2:{ unfold fitEpochGen. rewrite He. run_lhs. reflexivity. }
    repeat split.
Qed.

Lemma length2_inv (l : list float) : List.length l = 2 -> exists a b, l = [a; b].
Proof. destruct l as [|a [|b [|c l]]]; simpl; intros H; try discriminate. eauto. Qed.

Lemma length3_inv (l : list float) : List.length l = 3 -> exists a b c, l = [a; b; c].
Proof.
  destruct l as [|a [|b [|c [|d l]]]]; simpl; intros H; try discriminate. eauto.
Qed.

Lemma length6_inv (l : list float) :
  List.length l = 6 -> exists a b c d e f, l = [a; b; c; d; e; f].
Proof.
  destruct l as [|a [|b [|c [|d [|e [|f [|g l]]]]]]]; simpl; intros H;
    try discriminate.
  do 6 eexists; reflexivity.
Qed.

Lemma later_epoch ytrue z nx yd hg th gr up J JF E epoch :
  sized ytrue z nx yd hg th gr up ->
  exists ytrue' z' nx' yd' hg' th' gr' up' J' JF',
    sized ytrue' z' nx' yd' hg' th' gr' up'
    /\ fitEpochGen false (trainedState ytrue z nx yd hg th gr up J JF E) epoch
       = Ok (trainedState ytrue' z' nx' yd' hg' th' gr' up' J' JF' E, J').
Proof.
  intros (H1 & H2 & H3 & H4 & H5 & H6 & H7 & H8).
  destruct (length3_inv _ H1) as (? & ? & ? & ->).
  destruct (length3_inv _ H2) as (? & ? & ? & ->).
  destruct (length6_inv _ H3) as (? & ? & ? & ? & ? & ? & ->).
  destruct (length3_inv _ H4) as (? & ? & ? & ->).
  destruct (length3_inv _ H5) as (? & ? & ? & ->).
  destruct (length2_inv _ H6) as (? & ? & ->).
  destruct (length2_inv _ H7) as (? & ? & ->).
  destruct (length2_inv _ H8) as (? & ? & ->).
  apply later_epoch_cells.
Qed.

(** From a trained state the epoch loop runs to the bound. *)
Lemma trained_loop (k : nat) :
  forall ytrue z nx yd hg th gr up J JF E epoch,
    sized ytrue z nx yd hg th gr up ->
    (E - epoch <= Z.of_nat k)%Z ->
    exists s Js,
      epochsLoop false k (trainedState ytrue z nx yd hg th gr up J JF E) epoch = Ok (s, Js).
Proof.
  induction k as [|k IH]; intros ytrue z nx yd hg th gr up J JF E epoch Hs Hk.
  - simpl. destruct (Z.ltb_spec epoch E); [lia|]. eauto.
  - simpl. destruct (Z.ltb_spec epoch E) as [Hlt|Hge]; [|eauto].
    destruct (later_epoch ytrue z nx yd hg th gr up J JF E epoch Hs)
      as (ytrue' & z' & nx' & yd' & hg' & th' & gr' & up' & J' & JF' & Hs' & ->).
    cbn [bind].
    destruct (IH ytrue' z' nx' yd' hg' th' gr' up' J' JF' E (epoch + 1)%Z Hs')
      as (s & Js & ->); [lia|].
    cbn [bind]. eauto.
Qed.

Lemma epochsLoop_S (b : bool) (k : nat) (s : FitState) (epoch : Z) :
  epochsLoop b (S k) s epoch
  = if (epoch <? MLPRegressor.Epochs (fs_regr s))%Z
    then '(s1, Jsum) <- fitEpochGen b s epoch ;;
         '(s2, Js) <- epochsLoop b k s1 (epoch + 1)%Z ;;
         Ok (s2, Jsum :: Js)
    else Ok (s, []).
Proof. reflexivity. Qed.

Lemma default_run_on_three_samples :
  exists s Js, Fit (regrE 0) X3 Y3 0 = Ok (s, Js)
               /\ Z.of_nat (List.length Js) = 333333%Z.
Proof.
  assert (Hrun : exists s Js, Fit (regrE 0) X3 Y3 0 = Ok (s, Js)).
  { rewrite Fit_demo_default.
    rewrite (epochsLoop_fuel false (Z.to_nat 333333) (S (Z.to_nat 333332)))
      by (cbn [untrainedState demoState fs_regr MLPRegressor.Epochs]; lia).
    remember (Z.to_nat 333332) as k eqn:Hk.
    rewrite epochsLoop_S.
    assert (Hc : (0 <? MLPRegressor.Epochs (fs_regr (untrainedState 333333)))%Z = true)
      by reflexivity.
    rewrite Hc.
    destruct (first_epoch 333333)
      as (ytrue & z & nx & yd & hg & th & gr & up & J & Hs & ->).
    cbn [bind].
    destruct (trained_loop k ytrue z nx yd hg th gr up J 0%float 333333 (0 + 1)%Z Hs)
      as (s & Js & ->); [lia|].
    cbn [bind]. eauto. }
  destruct Hrun as (s & Js & E). exists s, Js. split; [exact E|].
  pose proof E as E'. rewrite Fit_demo_default in E'.
  apply epochsLoop_count in E'. destruct E' as (Hn & _).
  change (MLPRegressor.Epochs (fs_regr (untrainedState 333333))) with 333333%Z in Hn.
  lia.
Qed.

(** C4, refuted as stated: with the epoch count unset and three samples,
    [Fit] returns after exactly 333333 epochs, one short of the ceiling
    of 1000000/3, 333334. *)
Lemma default_epochs_is_not_the_ceiling :
  (MLPRegressor.Epochs (regrE 0) <= 0)%Z
  /\ rows X3 = 3
  /\ (exists s Js, Fit (regrE 0) X3 Y3 0 = Ok (s, Js)
                   /\ Z.of_nat (List.length Js) = 333333%Z)
  /\ ((1000000 + 3 - 1) / 3 = 333334)%Z.
Proof.
  split; [simpl; lia|]. split; [reflexivity|]. split; [|reflexivity].
  exact default_run_on_three_samples.
Qed.

(** A witness of [Fit_default_epochs_floor]: the same run. *)
Lemma Fit_default_epochs_floor_witness :
  (MLPRegressor.Epochs (regrE 0) <= 0)%Z
  /\ exists s Js,
       Fit (regrE 0) X3 Y3 0 = Ok (s, Js)
       /\ 0 < rows X3
       /\ MLPRegressor.Epochs (fs_regr s) = (1000000 / Z.of_nat (rows X3))%Z
       /\ Z.of_nat (List.length Js) = (1000000 / Z.of_nat (rows X3))%Z.
Proof.
  assert (Hle : (MLPRegressor.Epochs (regrE 0) <= 0)%Z) by (simpl; lia).
  split; [exact Hle|].
  destruct default_run_on_three_samples as (s & Js & E & _).
  exists s, Js. split; [exact E|].
  exact (Fit_default_epochs_floor (regrE 0) X3 Y3 0 s Js Hle E).
Defined.

Lemma classifier_head_demo_runs : classifierHeadRuns = Ok tt.
Proof. vm_compute. reflexivity. Qed.

Lemma forward_demo_runs : forwardObserved = Ok 1.
Proof. vm_compute. reflexivity. Qed.

(** A witness of [predictZH_shape_law]: one layer, three rows. *)
Lemma predictZH_shape_law_witness :
  exists regr' Zout' Yout',
    predictZH (embedded clf0) (M Xc) None None false = Ok (regr', Zout', Yout')
    /\ Forall (forward_shaped 3) (MLPRegressor.Layers regr').
Proof.
  pose proof forward_demo_runs as H. unfold forwardObserved in H.
  destruct (predictZH (embedded clf0) (M Xc) None None false)
    as [[[regr' Zo] Yo]| |] eqn:E; simpl in H; try discriminate H.
  exists regr', Zo, Yo. split; [reflexivity|].
  exact (predictZH_shape_law (embedded clf0) regr' (M Xc) None None Zo Yo false E).
Defined.

(** A witness of [allocLayers_output_activation]: the relu classifier. *)
Lemma allocLayers_output_activation_witness :
  exists regr' g' L,
    allocLayers (embedded (NewMLPClassifier [4] "relu" "" 0%float)) 2 1 0 = Ok (regr', g')
    /\ lastLayer (MLPRegressor.Layers regr') = Ok L
    /\ Layer.Activation L = "relu"%string.
Proof.
  pose proof classifier_head_demo_runs as H. unfold classifierHeadRuns in H.
  destruct (allocLayers (env:=env) (embedded (NewMLPClassifier [4] "relu" "" 0%float)) 2 1 0)
    as [[regr' g']| |] eqn:E; simpl in H; try discriminate H.
  destruct (allocLayers_output_activation (env:=env)
              (embedded (NewMLPClassifier [4] "relu" "" 0%float)) regr' 2 1 0 g' E)
    as (L & EL & EA).
  exists regr', g', L. split; [reflexivity|]. split; [exact EL|exact EA].
Defined.

(** A witness of [fitEpoch_stores_JFirst_at_index_1]: the first epoch (index
    0) of the three-sample run leaves [JFirst] at 0. *)
Lemma fitEpoch_stores_JFirst_at_index_1_witness :
  exists s' Jsum,
    fitEpoch (untrainedState 2) 0 = Ok (s', Jsum)
    /\ MLPRegressor.J (fs_regr s') = Jsum
    /\ MLPRegressor.JFirst (fs_regr s') = 0%float.
Proof.
  destruct (first_epoch 2) as (ytrue & z & nx & yd & hg & th & gr & up & J & _ & E).
  eexists; exists J. split; [exact E|].
  exact (fitEpoch_stores_JFirst_at_index_1 (untrainedState 2) _ 0 J E).
Defined.

(** A witness of [regularize_ignores_bias_row]: the layer of weights
    [[0],[2]] with its bias set to 5. *)
Lemma regularize_ignores_bias_row_witness :
  same_below_bias (Layer.Theta layerR) (mkDense 2 1 [5; 2]%float)
  /\ regularize regrR 1 (Layer.set_Theta (mkDense 2 1 [5; 2]%float) layerR) 0%float
     = '(L1, J1) <- regularize regrR 1 layerR 0%float ;;
       Ok (Layer.set_Theta (mkDense 2 1 [5; 2]%float) L1, J1).
Proof.
  assert (H : same_below_bias (Layer.Theta layerR) (mkDense 2 1 [5; 2]%float)).
  { split; [reflexivity|]. split; [reflexivity|].
    intros i j. unfold DenseAt. simpl. reflexivity. }
  split; [exact H|].
  exact (regularize_ignores_bias_row regrR 1 layerR 0%float _ H).
Defined.

Lemma demo_losses_terminate : lossesTerminate.
Proof.
  intros name Ytrue Ypred G. simpl.
  apply terminates_bind; [apply terminates_elementwise|intros; exact I].
Qed.

Lemma sgd_terminates : optimizerTerminates sgd.
Proof.
  intros s u g. simpl.
  apply terminates_bind; [apply terminates_Scale|intros; exact I].
Qed.

Lemma untrained_optimizers_terminate : optimizersTerminate (fs_regr (untrainedState 1)).
Proof. repeat constructor. exact sgd_terminates. Qed.

(** A witness of [miniBatches_terminates]: three samples in one
    minibatch, fuel 3. *)
Lemma miniBatches_terminates_witness :
  lossesTerminate /\ optimizersTerminate (fs_regr (untrainedState 1)) /\ 3 - 0 <= 3
  /\ terminates (miniBatches false 3 (fs_regr (untrainedState 1)) X3 Y3 0 3 1 1 0 3 0%float).
Proof.
  split; [exact demo_losses_terminate|]. split; [exact untrained_optimizers_terminate|].
  split; [lia|].
  exact (proj1 (miniBatches_terminates false 3 (fs_regr (untrainedState 1)) X3 Y3 0 3 1 1 0 3
                  0%float demo_losses_terminate untrained_optimizers_terminate (le_n 3))).
Defined.

(** ** Runs and witnesses for the rest of the package *)

Lemma clfAlloc_runs :
  allocLayers (embedded (NewMLPClassifier [4] "relu" "" 0%float)) 2 1 0
  = Ok (fst clfAlloc, snd clfAlloc).
Proof. vm_compute. reflexivity. Qed.

Lemma clf0Forward_runs :
  predictZH (embedded clf0) (M Xc) None None false
  = Ok (fst (fst clf0Forward), snd (fst clf0Forward), snd clf0Forward).
Proof. vm_compute. reflexivity. Qed.

Lemma backprop_demo_runs :
  backprop regrF (M Xh) (M Yh) 0 1 1 = Ok (fst regrB, snd regrB).
Proof. vm_compute. reflexivity. Qed.

Lemma backprop_demo_loss : snd regrB = 0.125%float.
Proof. vm_compute. reflexivity. Qed.

Lemma computeGrad_demo_runs : computeGrad hiddenL2 (M Xh) = Ok hiddenL3.
Proof. vm_compute. reflexivity. Qed.

Lemma applyUpdate_demo_runs : applyUpdate (layerC 49) = Ok layerC'.
Proof. vm_compute. reflexivity. Qed.

Lemma allocE_runs : allocLayers (regrE 0) 1 1 0 = Ok (allocatedE, 2).
Proof. vm_compute. reflexivity. Qed.

Lemma setOptimizer_demo_runs :
  allocLayers (SetOptimizer (fun _ => sgd) regrH) 1 1 0 = Ok (fst regrS, snd regrS).
Proof. vm_compute. reflexivity. Qed.

Lemma hidden_run : Fit regrH Xh Yh 0 = Ok (fst fitH, snd fitH).
Proof. vm_compute. reflexivity. Qed.

Lemma two_epoch_run : Fit (regrE 2) X3 Y3 0 = Ok (fst fitE2, snd fitE2).
Proof. vm_compute. reflexivity. Qed.

Lemma two_epoch_losses : snd fitE2 = [5.2265625%float; 0.464263916015625%float].
Proof. vm_compute. reflexivity. Qed.

(** A witness of [allocLayers_architecture]: the classifier with one hidden layer of four units, two features, one output. *)
Lemma allocLayers_architecture_witness :
  allocLayers (embedded (NewMLPClassifier [4] "relu" "" 0%float)) 2 1 0
  = Ok (fst clfAlloc, snd clfAlloc)
  /\ map (fun L => shapeOf (Layer.Theta L)) (MLPRegressor.Layers (fst clfAlloc))
     = [(3, 4); (5, 1)]
  /\ map Layer.Activation (MLPRegressor.Layers (fst clfAlloc)) = ["relu"; "relu"]%string.
Proof.
  split; [exact clfAlloc_runs|].
  destruct (allocLayers_architecture (env:=env) _ _ _ _ _ _ clfAlloc_runs) as (Hs & Ha & _).
  split; [exact Hs|exact Ha].
Defined.

(** A witness of [allocLayers_returns]: the same classifier, 17 weights. *)
Lemma allocLayers_returns_witness :
  Forall (fun n => 0 < n) [4] /\ 0 < 1
  /\ (Z.of_nat (thetaLenOf 2%nat [4%nat] 1%nat) <= maxSliceLen)%Z
  /\ exists regr' g',
       allocLayers (embedded (NewMLPClassifier [4] "relu" "" 0%float)) 2 1 0 = Ok (regr', g').
Proof.
  assert (H1 : Forall (fun n => 0 < n) [4]) by (repeat constructor).
  assert (H2 : 0 < 1) by lia.
  assert (H3 : (Z.of_nat (thetaLenOf 2%nat [4%nat] 1%nat) <= maxSliceLen)%Z)
    by (vm_compute; discriminate).
  split; [exact H1|]. split; [exact H2|]. split; [exact H3|].
  exact (allocLayers_returns (env:=env) (embedded (NewMLPClassifier [4] "relu" "" 0%float))
                             2 1 0 H1 H2 H3).
Defined.

(** A witness of [allocLayers_initial_values]: the same classifier, 3*4 + 5*1 = 17 weights. *)
Lemma allocLayers_initial_values_witness :
  allocLayers (embedded (NewMLPClassifier [4] "relu" "" 0%float)) 2 1 0
  = Ok (fst clfAlloc, snd clfAlloc)
  /\ MLPRegressor.thetaSlice (fst clfAlloc) = fst (draws 17 0)
  /\ snd clfAlloc = snd (draws 17 0)
  /\ Forall fresh (MLPRegressor.Layers (fst clfAlloc)).
Proof.
  split; [exact clfAlloc_runs|].
  exact (allocLayers_initial_values (env:=env) _ _ _ _ _ _ clfAlloc_runs).
Defined.

(** A witness of [predictZH_keeps_weights]: one identity layer over three rows. *)
Lemma predictZH_keeps_weights_witness :
  predictZH (embedded clf0) (M Xc) None None false
  = Ok (fst (fst clf0Forward), snd (fst clf0Forward), snd clf0Forward)
  /\ map trainedPart (MLPRegressor.Layers (fst (fst clf0Forward)))
     = map trainedPart (MLPRegressor.Layers (embedded clf0)).
Proof.
  split; [exact clf0Forward_runs|].
  exact (predictZH_keeps_weights _ _ _ _ _ _ _ _ clf0Forward_runs).
Defined.

(** A witness of [predictZH_computes]: the same forward pass. *)
Lemma predictZH_computes_witness :
  predictZH (embedded clf0) (M Xc) None None false
  = Ok (fst (fst clf0Forward), snd (fst clf0Forward), snd clf0Forward)
  /\ forward_chain (M Xc) (MLPRegressor.Layers (fst (fst clf0Forward))).
Proof.
  split; [exact clf0Forward_runs|].
  exact (predictZH_computes _ _ _ _ _ _ _ _ clf0Forward_runs).
Defined.

(** A witness of [Fit_keeps_architecture]: one epoch of the network with one hidden unit. *)
Lemma Fit_keeps_architecture_witness :
  Fit regrH Xh Yh 0 = Ok (fst fitH, snd fitH)
  /\ map (fun L => shapeOf (Layer.Theta L)) (MLPRegressor.Layers (fs_regr (fst fitH)))
     = [(2, 1); (2, 1)]
  /\ map Layer.Activation (MLPRegressor.Layers (fs_regr (fst fitH)))
     = ["identity"; "identity"]%string.
Proof.
  split; [exact hidden_run|].
  exact (Fit_keeps_architecture (env:=env) regrH Xh Yh 0 _ _ hidden_run).
Defined.

(** A witness of [Fit_loss_fields]: the two-epoch run, whose second loss is both [J] and [JFirst]. *)
Lemma Fit_loss_fields_witness :
  Fit (regrE 2) X3 Y3 0 = Ok (fst fitE2, snd fitE2)
  /\ snd fitE2 = [5.2265625%float; 0.464263916015625%float]
  /\ MLPRegressor.J (fs_regr (fst fitE2)) = last (snd fitE2) infinity
  /\ MLPRegressor.JFirst (fs_regr (fst fitE2)) = nth 1 (snd fitE2) 0%float.
Proof.
  split; [exact two_epoch_run|]. split; [exact two_epoch_losses|].
  exact (Fit_loss_fields (env:=env) (regrE 2) X3 Y3 0 _ _ two_epoch_run).
Defined.

(** A witness of [Fit_beyond_a_million_samples]: 1000001 samples, no epoch. *)
Lemma Fit_beyond_a_million_samples_witness :
  (MLPRegressor.Epochs (regrE 0) <= 0)%Z
  /\ (1000000 < Z.of_nat (rows bigX))%Z
  /\ Fit (regrE 0) bigX bigY 0
     = Ok (mkFitState (MLPRegressor.set_Epochs 0 (MLPRegressor.set_J infinity allocatedE))
                      bigX bigY 2, []).
Proof.
  assert (H1 : (MLPRegressor.Epochs (regrE 0) <= 0)%Z) by (cbn; lia).
  assert (H2 : (1000000 < Z.of_nat (rows bigX))%Z)
    by (unfold bigX; cbn [rows]; rewrite Z2Nat.id; lia).
  split; [exact H1|]. split; [exact H2|].
  exact (Fit_beyond_a_million_samples (env:=env) (regrE 0) allocatedE bigX bigY 0 2 H1 H2
                                      allocE_runs).
Defined.

(** A witness of [backprop_loss_is_output_layer_loss]: the first backward pass of the network with one hidden unit, one sample out of one. *)
Lemma backprop_loss_is_output_layer_loss_witness :
  (0 <? MLPRegressor.Alpha regrF)%float = false
  /\ 0 < List.length (MLPRegressor.Layers regrF)
  /\ backprop regrF (M Xh) (M Yh) 0 1 1 = Ok (fst regrB, snd regrB)
  /\ snd regrB = 0.125%float
  /\ exists Jl, snd regrB = (Jl * (float64 1 / float64 1))%float.
Proof.
  assert (H1 : (0 <? MLPRegressor.Alpha regrF)%float = false) by (vm_compute; reflexivity).
  assert (H2 : 0 < List.length (MLPRegressor.Layers regrF)) by (vm_compute; lia).
  split; [exact H1|]. split; [exact H2|]. split; [exact backprop_demo_runs|].
  split; [exact backprop_demo_loss|].
  destruct (backprop_loss_is_output_layer_loss (env:=env) regrF _ (M Xh) (M Yh) 0 1 1 _
              H1 H2 backprop_demo_runs)
    as (L & L1 & yt & yp & yd & Jl & G & _ & _ & _ & _ & _ & _ & HJ).
  exists Jl. exact HJ.
Defined.

(** A witness of [constructed_output_layer_activation]: the relu classifier. *)
Lemma constructed_output_layer_activation_witness :
  allocLayers (embedded (NewMLPClassifier [4] "relu" "" 0%float)) 2 1 0
  = Ok (fst clfAlloc, snd clfAlloc)
  /\ map Layer.Activation (MLPRegressor.Layers (fst clfAlloc)) = ["relu"; "relu"]%string
  /\ MLPRegressor.LossName (fst clfAlloc) = ""%string
  /\ MLPRegressor.Loss (fst clfAlloc) = "log"%string.
Proof.
  split; [exact clfAlloc_runs|].
  exact (constructed_output_layer_activation (env:=env) [4] "relu" "" 0%float true 2 1 0 _ _
           clfAlloc_runs).
Defined.

(** A witness of [computeGrad_formula]: the hidden layer of the network with one hidden unit. *)
Lemma computeGrad_formula_witness :
  computeGrad hiddenL2 (M Xh) = Ok hiddenL3
  /\ exists ydiff, Layer.Ydiff hiddenL2 = Some ydiff
       /\ shapeOf (Layer.Grad hiddenL3) = (1 + snd (Dims (M Xh)), cols ydiff).
Proof.
  split; [exact computeGrad_demo_runs|].
  destruct (computeGrad_formula (env:=env) hiddenL2 hiddenL3 (M Xh) computeGrad_demo_runs)
    as (Zd & yp & yd & hg & yd' & _ & _ & Hyd & _ & _ & _ & _ & _ & _ & HG & _).
  exists yd. split; [exact Hyd|exact HG].
Defined.

(** A witness of [applyUpdate_adds_the_update]: gradient 49, step -49/4. *)
Lemma applyUpdate_adds_the_update_witness :
  applyUpdate (layerC 49) = Ok layerC'
  /\ DenseAt (Layer.Theta layerC') 0 0
     = (DenseAt (Layer.Theta (layerC 49)) 0 0 + DenseAt (Layer.Update layerC') 0 0)%float.
Proof.
  split; [exact applyUpdate_demo_runs|].
  destruct (applyUpdate_adds_the_update (layerC 49) layerC' applyUpdate_demo_runs)
    as (o & U & _ & HU & _ & _ & _ & _ & Hat).
  rewrite HU. apply (Hat 0 0); simpl; lia.
Defined.

(** A witness of [SetOptimizer_feeds_every_layer]: [sgd] installed in the network with one hidden unit. *)
Lemma SetOptimizer_feeds_every_layer_witness :
  allocLayers (SetOptimizer (fun _ => sgd) regrH) 1 1 0 = Ok (fst regrS, snd regrS)
  /\ Forall (fun L => Layer.Optimizer L = sgd) (MLPRegressor.Layers (fst regrS)).
Proof.
  split; [exact setOptimizer_demo_runs|].
  exact (proj2 (SetOptimizer_feeds_every_layer (env:=env) (fun _ => sgd) regrH _ 1 1 0 _
                  setOptimizer_demo_runs)).
Defined.

Lemma preprocess_demo_runs :
  linear_model.preprocess_data Xl2 yl2 true false
  = Ok (fst (fst (fst (fst centredXl2))), snd (fst (fst (fst centredXl2))),
        snd (fst (fst centredXl2)), snd (fst centredXl2), snd centredXl2).
Proof. vm_compute. reflexivity. Qed.

Lemma preprocess_demo_values :
  centredXl2 = ([[-1; -2]; [1; 2]]%float, [-1; 1]%float, [2; 4]%float, 2%float, [1; 1]%float).
Proof. vm_compute. reflexivity. Qed.

Lemma insertBy_perm (less : nat -> nat -> bool) (x : nat) (l : list nat) :
  Permutation (x :: l) (insertBy less x l).
Proof.
  induction l as [|h t IH]; simpl; [reflexivity|].
  destruct (less h x); [|reflexivity].
  apply perm_trans with (h :: x :: t); [apply perm_swap|]. apply perm_skip. exact IH.
Qed.

Lemma isort_perm (less : nat -> nat -> bool) (l : list nat) : Permutation l (isort less l).
Proof.
  induction l as [|x l IH]; simpl; [constructor|].
  apply perm_trans with (x :: isort less l); [apply perm_skip; exact IH|].
  apply insertBy_perm.
Qed.

Lemma roc_demo_runs :
  metrics.ROCCurve isort Ylabels Yscores 1 None
  = Ok (fst (fst rocDemo), snd (fst rocDemo), snd rocDemo).
Proof. vm_compute. reflexivity. Qed.

Lemma roc_demo_values :
  rocDemo = ([0; 1; 1; 1]%float, [0; 0; 0.5; 1]%float, [1.75; 0.75; 0.5; 0.25]%float).
Proof. vm_compute. reflexivity. Qed.

Lemma auc_demo_runs : metrics.AUC [0.5]%float [0.5]%float = Ok 0.125%float.
Proof. vm_compute. reflexivity. Qed.

(** A witness of [preprocess_data_centres]: columns of means 2 and 4, targets of mean 2. *)
Lemma preprocess_data_centres_witness :
  linear_model.preprocess_data Xl2 yl2 true false
  = Ok (fst (fst (fst (fst centredXl2))), snd (fst (fst (fst centredXl2))),
        snd (fst (fst centredXl2)), snd (fst centredXl2), snd centredXl2)
  /\ centredXl2
     = ([[-1; -2]; [1; 2]]%float, [-1; 1]%float, [2; 4]%float, 2%float, [1; 1]%float)
  /\ snd centredXl2 = repeat 1%float 2
  /\ snd (fst centredXl2) = (floats.Sum yl2 / float64 2)%float.
Proof.
  split; [exact preprocess_demo_runs|]. split; [exact preprocess_demo_values|].
  destruct (preprocess_data_centres _ _ _ _ _ _ _ preprocess_demo_runs)
    as (Hs & _ & Hy & _).
  split; [exact Hs|exact Hy].
Defined.

(** A witness of [preprocess_data_without_intercept]: rows of lengths 2 and 1, [normalize] set. *)
Lemma preprocess_data_without_intercept_witness :
  List.length yl2 = S (List.length [[3%float]])
  /\ linear_model.preprocess_data Xragged yl2 false true
     = Ok (Xragged, yl2, [0; 0]%float, 0%float, [1; 1]%float).
Proof.
  assert (H : List.length yl2 = S (List.length [[3%float]])) by reflexivity.
  split; [exact H|].
  exact (preprocess_data_without_intercept [1; 2]%float [[3%float]] yl2 true H).
Defined.

(** A witness of [AUC_trapezoid_step]: the point (1, 1) after (1/2, 1/2). *)
Lemma AUC_trapezoid_step_witness :
  List.length [0.5%float] = List.length [0.5%float]
  /\ metrics.AUC [0.5]%float [0.5]%float = Ok 0.125%float
  /\ metrics.AUC [0.5; 1]%float [0.5; 1]%float
     = Ok (0.125 + (1 - 0.5) * (1 + 0.5) / 2)%float.
Proof.
  assert (H : List.length [0.5%float] = List.length [0.5%float]) by reflexivity.
  split; [exact H|]. split; [exact auc_demo_runs|].
  exact (AUC_trapezoid_step [0.5%float] [0.5%float] 1 1 0.125 H auc_demo_runs).
Defined.

(** A witness of [ROCCurve_lengths]: three samples, four points. *)
Lemma ROCCurve_lengths_witness :
  metrics.ROCCurve isort Ylabels Yscores 1 None
  = Ok (fst (fst rocDemo), snd (fst rocDemo), snd rocDemo)
  /\ rocDemo = ([0; 1; 1; 1]%float, [0; 0; 0.5; 1]%float, [1.75; 0.75; 0.5; 0.25]%float)
  /\ List.length (fst (fst rocDemo)) = List.length (snd rocDemo)
  /\ List.length (snd (fst rocDemo)) = List.length (snd rocDemo).
Proof.
  split; [exact roc_demo_runs|]. split; [exact roc_demo_values|].
  destruct (ROCCurve_lengths isort Ylabels Yscores 1 None _ _ _ roc_demo_runs)
    as (H1 & H2 & _).
  split; [exact H1|exact H2].
Defined.

(** A witness of [ROCCurve_no_sample_panics]: insertion sort and the empty matrix. *)
Lemma ROCCurve_no_sample_panics_witness :
  (forall less l, Permutation l (isort less l))
  /\ rows Ynone = 0
  /\ metrics.ROCCurve isort Ynone Ynone 1 None = Panic.
Proof.
  split; [exact isort_perm|]. split; [reflexivity|].
  exact (ROCCurve_no_sample_panics isort Ynone Ynone 1 None isort_perm eq_refl).
Defined.

(** A witness of [binaryClfScore_ties_count_once]: three samples scored 1/2. *)
Lemma binaryClfScore_ties_count_once_witness :
  (forall less l, Permutation l (isort less l))
  /\ (forall i, i < rows Ytied -> DenseAt Ytied i 0 = 0.5%float)
  /\ exists i0, i0 < 3
       /\ metrics.binaryClfScore isort Ylabels Ytied 1 None
          = Ok (if (DenseAt Ylabels i0 0 =? 1)%float
                then ([0%float], [(0 + 1)%float], [0.5%float])
                else ([(0 + 1)%float], [0%float], [0.5%float])).
Proof.
  assert (Hs : forall i, i < rows Ytied -> DenseAt Ytied i 0 = 0.5%float).
  { intros [|[|[|i]]] Hi; try reflexivity. simpl in Hi. lia. }
  split; [exact isort_perm|]. split; [exact Hs|].
  assert (H0 : 0 < 3) by lia. assert (H1 : 0 < 1) by lia. assert (H3 : 3 <= 3) by lia.
  exact (binaryClfScore_ties_count_once isort Ylabels Ytied 1 0.5 isort_perm H0 H1 H3 H1 Hs).
Defined.
